(** * LLM observability backend: event pipeline and rate limiter

    A shallow embedding of the two stateful services of
    [backend/app/services]:

    - [redis_service.py]: class [RedisService], the fixed-window rate
      limiter and the real-time counters kept in Redis;
    - [metrics_service.py]: class [MetricsService], the bounded queue of
      metrics and the background worker that writes them in batches;

    and of [Settings.calculate_cost] from [backend/app/config.py].

    More of the code follows these: the values, the request counters
    and the dashboard cache of [RedisService], [get_cors_origins] of
    [config.py], [RateLimitMiddleware] of
    [backend/app/middleware/observability.py] and the query of
    [get_recent_requests] of [backend/app/routers/metrics.py].

    Coroutines are modelled at the granularity at which asyncio can
    interleave them: the code between two [await]s is one atomic step. *)

From Stdlib Require Import ZArith Lia List String Ascii Bool.
From Stdlib Require Import DecimalString DecimalZ DecimalPos.
From Stdlib Require Import Floats.SpecFloat.
From stdpp Require Import gmap strings list.

Local Open Scope Z_scope.

(** ** Python values used by the services *)

Module Py.

(** The exceptions that occur; all of them derive from [Exception]. *)
Inductive exn :=
| ConnectionError      (* redis.exceptions.ConnectionError *)
| ResponseError        (* redis.exceptions.ResponseError *)
| AttributeError
| ValueError
| ZeroDivisionError
| OverflowError
| QueueFull            (* asyncio.QueueFull *)
| QueueEmpty           (* asyncio.QueueEmpty *)
| PostgresError.       (* asyncpg.PostgresError and its connection errors *)

(** What a call produces: a value, or a raised exception. *)
Inductive outcome (A : Type) : Type :=
| Value (a : A)
| Raised (e : exn).
Arguments Value {A} a.
Arguments Raised {A} e.

(** [str(n)] for an [int]. *)
Definition str_of_int (z : Z) : string :=
  NilZero.string_of_int (Z.to_int z).

Definition is_space (c : ascii) : bool :=
  let n := nat_of_ascii c in
  ((9 <=? n)%nat && (n <=? 13)%nat) || (n =? 32)%nat.

Definition is_digit (c : ascii) : bool :=
  let n := nat_of_ascii c in (48 <=? n)%nat && (n <=? 57)%nat.

Fixpoint lstrip (s : string) : string :=
  match s with
  | EmptyString => EmptyString
  | String c r => if is_space c then lstrip r else s
  end.

Fixpoint rstrip (s : string) : string :=
  match s with
  | EmptyString => EmptyString
  | String c r =>
      match rstrip r with
      | EmptyString => if is_space c then EmptyString else String c EmptyString
      | r' => String c r'
      end
  end.

(** The digits of an integer literal: single underscores are allowed
    between digits and are dropped; [None] when they are misplaced. *)
Fixpoint drop_underscores (prev_digit : bool) (s : string) : option string :=
  match s with
  | EmptyString => if prev_digit then Some EmptyString else None
  | String c r =>
      if Ascii.eqb c "_"%char then
        if prev_digit then drop_underscores false r else None
      else
        option_map (String c) (drop_underscores true r)
  end.

Definition all_digits (s : string) : bool :=
  forallb is_digit (list_ascii_of_string s).

(** [int(s)] for a [str], base 10, on ASCII input: surrounding white
    space, one optional sign, digits with single underscores between
    them. [None] stands for [ValueError]. *)
Definition int_of_str (s : string) : option Z :=
  let t := rstrip (lstrip s) in
  let '(neg, body) :=
    match t with
    | String "-" r => (true, r)
    | String "+" r => (false, r)
    | _ => (false, t)
    end in
  match drop_underscores false body with
  | Some ds =>
      if all_digits ds then
        match NilEmpty.uint_of_string ds with
        | Some d => Some (if neg then - Z.of_uint d else Z.of_uint d)
        | None => None
        end
      else None
  | None => None
  end.

(** Truth value of a [str]: empty strings are false. *)
Definition str_truthy (s : string) : bool :=
  match s with EmptyString => false | _ => true end.

(** [x or default] for an [Optional[int]]. *)
Definition int_or (x : option Z) (default : Z) : Z :=
  match x with
  | Some v => if v =? 0 then default else v
  | None => default
  end.

(** [datetime.utcnow()], as the fields [strftime] reads. *)
Record datetime := Datetime {
  year : Z; month : Z; day : Z; hour : Z; minute : Z;
  second : Z; microsecond : Z
}.

(** A field printed with leading zeros up to [width] characters. *)
Definition zero_pad (width : nat) (n : Z) : string :=
  let s := str_of_int n in
  String.concat "" (repeat "0" (width - String.length s)%nat) +:+ s.

(** [now.strftime('%Y%m%d%H%M')] and [now.strftime('%Y%m%d%H')]. *)
Definition strftime_hour (now : datetime) : string :=
  zero_pad 4 (year now) +:+ zero_pad 2 (month now) +:+ zero_pad 2 (day now)
  +:+ zero_pad 2 (hour now).

Definition strftime_minute (now : datetime) : string :=
  strftime_hour now +:+ zero_pad 2 (minute now).

(** Two times in the same minute of the same day. *)
Definition same_minute (a b : datetime) : Prop :=
  year a = year b /\ month a = month b /\ day a = day b
  /\ hour a = hour b /\ minute a = minute b.

(** [s.lower()], on ASCII letters. *)
Definition lower_char (c : ascii) : ascii :=
  let n := nat_of_ascii c in
  if (65 <=? n)%nat && (n <=? 90)%nat then ascii_of_nat (n + 32) else c.

Fixpoint lower (s : string) : string :=
  match s with
  | EmptyString => EmptyString
  | String c r => String (lower_char c) (lower r)
  end.

(** [needle in hay] for two [str]s. *)
Fixpoint contains (needle hay : string) : bool :=
  String.prefix needle hay ||
  match hay with
  | EmptyString => false
  | String _ r => contains needle r
  end.

End Py.

Import Py.

(** ** Python floats: IEEE 754 binary64, round to nearest even *)

Module PyFloat.

Definition prec : Z := 53.
Definition emax : Z := 1024.

Definition add : spec_float -> spec_float -> spec_float := SFadd prec emax.
Definition mul : spec_float -> spec_float -> spec_float := SFmul prec emax.

(** [float(n)]: the nearest float, [OverflowError] past the largest. *)
Definition of_int (n : Z) : outcome spec_float :=
  match binary_normalize prec emax n 0 false with
  | S754_infinity _ => Raised OverflowError
  | f => Value f
  end.

(** [a / b] on two [int]s: the quotient rounded once, from the exact
    integers. *)
Definition int_truediv (a b : Z) : outcome spec_float :=
  if b =? 0 then Raised ZeroDivisionError
  else if a =? 0 then Value (S754_zero (b <? 0))
  else
    let '(m, e, l) := SFdiv_core_binary prec emax (Z.abs a) 0 (Z.abs b) 0 in
    match binary_round_aux prec emax (xorb (a <? 0) (b <? 0)) m e l with
    | S754_infinity _ => Raised OverflowError
    | f => Value f
    end.

(** A float literal with [digits] after the point, as [n / 10^digits];
    the literals of this program are far from overflow. *)
Definition literal (n : Z) (digits : Z) : spec_float :=
  match int_truediv n (10 ^ digits) with
  | Value f => f
  | Raised _ => S754_nan
  end.

(** [num / den] rounded to the nearest integer, ties to even; [den > 0]. *)
Definition round_half_even (num den : Z) : Z :=
  let q := num / den in
  let r := num mod den in
  match 2 * r ?= den with
  | Lt => q
  | Gt => q + 1
  | Eq => if Z.even q then q else q + 1
  end.

(** [round(x, ndigits)] for [0 <= ndigits]: the decimal with [ndigits]
    places nearest to the exact value of [x], then the float nearest to
    that decimal. Infinities and NaN round to themselves. *)
Definition round (x : spec_float) (ndigits : Z) : outcome spec_float :=
  match x with
  | S754_finite s m e =>
      let k :=
        if 0 <=? e then Z.pos m * 2 ^ e * 10 ^ ndigits
        else round_half_even (Z.pos m * 10 ^ ndigits) (2 ^ (- e)) in
      if k =? 0 then Value (S754_zero s)
      else int_truediv (if s then - k else k) (10 ^ ndigits)
  | _ => Value x
  end.

(** [sum(xs)] of floats, added from left to right. *)
Definition sum (xs : list spec_float) : spec_float :=
  fold_left add xs (S754_zero false).

(** The exact value of a finite float is [m * 2^e]. [x] is a decimal
    with [digits] places when [x * 10^digits] is an integer. *)
Definition is_decimal (digits : Z) (x : spec_float) : bool :=
  match x with
  | S754_zero _ => true
  | S754_finite _ m e =>
      if 0 <=? e then true
      else (Z.pos m * 10 ^ digits) mod 2 ^ (- e) =? 0
  | _ => false
  end.

End PyFloat.

(** ** config.py *)

Module Settings.

(** Rate limiting and async processing. *)
Record t := Make {
  RATE_LIMIT_PER_MINUTE : Z;
  RATE_LIMIT_PER_HOUR : Z;
  METRICS_QUEUE_SIZE : Z;
  METRICS_BATCH_SIZE : Z;
  METRICS_FLUSH_INTERVAL : Z   (* seconds *)
}.

(** The defaults of class [Settings]. *)
Definition defaults : t :=
  {| RATE_LIMIT_PER_MINUTE := 60;
     RATE_LIMIT_PER_HOUR := 1000;
     METRICS_QUEUE_SIZE := 1000;
     METRICS_BATCH_SIZE := 10;
     METRICS_FLUSH_INTERVAL := 5 |}.

(** Groq pricing (per 1M tokens). *)
Record pricing := {
  GROQ_LLAMA3_8B_INPUT_COST : spec_float;
  GROQ_LLAMA3_8B_OUTPUT_COST : spec_float;
  GROQ_LLAMA3_70B_INPUT_COST : spec_float;
  GROQ_LLAMA3_70B_OUTPUT_COST : spec_float;
  GROQ_MIXTRAL_8X7B_INPUT_COST : spec_float;
  GROQ_MIXTRAL_8X7B_OUTPUT_COST : spec_float;
  GROQ_GEMMA_7B_INPUT_COST : spec_float;
  GROQ_GEMMA_7B_OUTPUT_COST : spec_float;
  GROQ_GEMMA2_9B_INPUT_COST : spec_float;
  GROQ_GEMMA2_9B_OUTPUT_COST : spec_float
}.

Definition default_pricing : pricing :=
  {| GROQ_LLAMA3_8B_INPUT_COST := PyFloat.literal 5 2;
     GROQ_LLAMA3_8B_OUTPUT_COST := PyFloat.literal 8 2;
     GROQ_LLAMA3_70B_INPUT_COST := PyFloat.literal 59 2;
     GROQ_LLAMA3_70B_OUTPUT_COST := PyFloat.literal 79 2;
     GROQ_MIXTRAL_8X7B_INPUT_COST := PyFloat.literal 24 2;
     GROQ_MIXTRAL_8X7B_OUTPUT_COST := PyFloat.literal 24 2;
     GROQ_GEMMA_7B_INPUT_COST := PyFloat.literal 7 2;
     GROQ_GEMMA_7B_OUTPUT_COST := PyFloat.literal 7 2;
     GROQ_GEMMA2_9B_INPUT_COST := PyFloat.literal 20 2;
     GROQ_GEMMA2_9B_OUTPUT_COST := PyFloat.literal 20 2 |}.

(** Get input and output costs for a model (per 1M tokens). *)
Definition get_model_costs (self : pricing) (model : string)
  : spec_float * spec_float :=
  let model_lower := lower model in
  if contains "llama-3.1-8b" model_lower || contains "llama3-8b" model_lower then
    (GROQ_LLAMA3_8B_INPUT_COST self, GROQ_LLAMA3_8B_OUTPUT_COST self)
  else if contains "llama-3.1-70b" model_lower || contains "llama3-70b" model_lower then
    (GROQ_LLAMA3_70B_INPUT_COST self, GROQ_LLAMA3_70B_OUTPUT_COST self)
  else if contains "mixtral" model_lower then
    (GROQ_MIXTRAL_8X7B_INPUT_COST self, GROQ_MIXTRAL_8X7B_OUTPUT_COST self)
  else if contains "gemma-7b" model_lower then
    (GROQ_GEMMA_7B_INPUT_COST self, GROQ_GEMMA_7B_OUTPUT_COST self)
  else if contains "gemma2-9b" model_lower then
    (GROQ_GEMMA2_9B_INPUT_COST self, GROQ_GEMMA2_9B_OUTPUT_COST self)
  else
    (* Default fallback *)
    (PyFloat.literal 10 2, PyFloat.literal 10 2).

(** Calculate cost for a request. *)
Definition calculate_cost (self : pricing) (model : string)
    (input_tokens output_tokens : Z) : outcome spec_float :=
  let '(input_cost_per_m, output_cost_per_m) := get_model_costs self model in
  match PyFloat.int_truediv input_tokens 1000000,
        PyFloat.int_truediv output_tokens 1000000 with
  | Value i, Value o =>
      let input_cost := PyFloat.mul i input_cost_per_m in
      let output_cost := PyFloat.mul o output_cost_per_m in
      PyFloat.round (PyFloat.add input_cost output_cost) 8
  | Raised e, _ => Raised e
  | _, Raised e => Raised e
  end.

End Settings.

(** ** The Redis server, as the client library shows it

    Keys hold strings ([decode_responses=True]); a key may carry a time
    to live. [faults] lists, for the commands still to come, whether the
    command fails with a connection error ([true]); past the end of the
    list every command reaches the server. *)

Module Redis.

Record entry := Entry { e_val : string; e_ttl : option Z }.

Record client := Client {
  data : gmap string entry;
  faults : list bool
}.

Definition next_fault (c : client) : bool * client :=
  match faults c with
  | [] => (false, c)
  | f :: fs => (f, Client (data c) fs)
  end.

(** Strings that INCR accepts: the canonical decimal form of a signed
    64-bit integer. *)
Definition int64_of_string (s : string) : option Z :=
  match NilZero.int_of_string s with
  | Some d =>
      let z := Z.of_int d in
      if String.eqb (str_of_int z) s
         && (- 2 ^ 63 <=? z) && (z <=? 2 ^ 63 - 1)
      then Some z else None
  | None => None
  end.

(** GET key *)
Definition get (key : string) (c : client) : outcome (option string) * client :=
  let '(f, c) := next_fault c in
  if f then (Raised ConnectionError, c)
  else (Value (e_val <$> data c !! key), c).

(** INCR key: a missing key counts as 0; the time to live is kept. A
    value that is no integer, or an overflow, is an error reply. *)
Definition incr (key : string) (c : client) : outcome Z * client :=
  let '(f, c) := next_fault c in
  if f then (Raised ConnectionError, c)
  else
    match data c !! key with
    | None =>
        (Value 1, Client (<[key := Entry (str_of_int 1) None]> (data c)) (faults c))
    | Some e =>
        match int64_of_string (e_val e) with
        | Some z =>
            if z <? 2 ^ 63 - 1 then
              (Value (z + 1),
               Client (<[key := Entry (str_of_int (z + 1)) (e_ttl e)]> (data c))
                      (faults c))
            else (Raised ResponseError, c)
        | None => (Raised ResponseError, c)
        end
    end.

(** EXPIRE key seconds: answers whether the key exists; a time that is
    not positive deletes the key. *)
Definition expire (key : string) (seconds : Z) (c : client) : outcome bool * client :=
  let '(f, c) := next_fault c in
  if f then (Raised ConnectionError, c)
  else
    match data c !! key with
    | None => (Value false, c)
    | Some e =>
        if seconds <=? 0 then
          (Value true, Client (delete key (data c)) (faults c))
        else
          (Value true,
           Client (<[key := Entry (e_val e) (Some seconds)]> (data c)) (faults c))
    end.

(** The counter under [key] reads [n]: a missing key reads 0. *)
Definition counter_at (c : client) (key : string) (n : Z) : Prop :=
  match data c !! key with
  | None => n = 0
  | Some e => e_val e = str_of_int n
  end.

End Redis.

(** ** Coroutines over Redis

    A coroutine of [RedisService] is a tree of Redis commands: each
    [await self.redis.<cmd>(...)] is a node at which the event loop may
    run other coroutines, and the continuation receives the reply or the
    exception. [Throw] is an exception leaving the coroutine. *)

Module Co.

Inductive co (A : Type) : Type :=
| Done (a : A)
| Throw (e : exn)
| Get (key : string) (k : outcome (option string) -> co A)
| Incr (key : string) (k : outcome Z -> co A)
| Expire (key : string) (seconds : Z) (k : outcome bool -> co A).
Arguments Done {A} a.
Arguments Throw {A} e.
Arguments Get {A} key k.
Arguments Incr {A} key k.
Arguments Expire {A} key seconds k.

Fixpoint bind {A B} (m : co A) (f : A -> co B) : co B :=
  match m with
  | Done a => f a
  | Throw e => Throw e
  | Get key k => Get key (fun r => bind (k r) f)
  | Incr key k => Incr key (fun r => bind (k r) f)
  | Expire key s k => Expire key s (fun r => bind (k r) f)
  end.

(** [try: body  except Exception: handler] *)
Fixpoint try_except {A} (body : co A) (handler : co A) : co A :=
  match body with
  | Done a => Done a
  | Throw _ => handler
  | Get key k => Get key (fun r => try_except (k r) handler)
  | Incr key k => Incr key (fun r => try_except (k r) handler)
  | Expire key s k => Expire key s (fun r => try_except (k r) handler)
  end.

Definition of_outcome {A} (r : outcome A) : co A :=
  match r with Value a => Done a | Raised e => Throw e end.

(** [await self.redis.get(key)] and the like: the reply, or the
    exception of the command re-raised in the coroutine. *)
Definition await_get (key : string) : co (option string) := Get key of_outcome.
Definition await_incr (key : string) : co Z := Incr key of_outcome.
Definition await_expire (key : string) (s : Z) : co bool := Expire key s of_outcome.

(** One command of a coroutine against the server. *)
Definition step {A} (m : co A) (c : Redis.client) : co A * Redis.client :=
  match m with
  | Done a => (Done a, c)
  | Throw e => (Throw e, c)
  | Get key k => let '(r, c') := Redis.get key c in (k r, c')
  | Incr key k => let '(r, c') := Redis.incr key c in (k r, c')
  | Expire key s k => let '(r, c') := Redis.expire key s c in (k r, c')
  end.

(** A coroutine run to its end with nothing else scheduled. *)
Fixpoint run {A} (m : co A) (c : Redis.client) : outcome A * Redis.client :=
  match m with
  | Done a => (Value a, c)
  | Throw e => (Raised e, c)
  | Get key k => let '(r, c') := Redis.get key c in run (k r) c'
  | Incr key k => let '(r, c') := Redis.incr key c in run (k r) c'
  | Expire key s k => let '(r, c') := Redis.expire key s c in run (k r) c'
  end.

Definition finished {A} (m : co A) : bool :=
  match m with Done _ | Throw _ => true | _ => false end.

(** Several coroutines on one event loop: [schedule] names, command
    by command, the coroutine that runs next. *)
Fixpoint interleave {A} (schedule : list nat) (ts : list (co A)) (c : Redis.client)
  : list (co A) * Redis.client :=
  match schedule with
  | [] => (ts, c)
  | i :: rest =>
      match ts !! i with
      | Some m =>
          let '(m', c') := step m c in
          interleave rest (<[i := m']> ts) c'
      | None => interleave rest ts c
      end
  end.

End Co.

Import Co.

#[global] Instance co_ret : MRet co := @Done.
#[global] Instance co_bind : MBind co := fun A B f m => bind m f.

(** ** redis_service.py *)

Module RedisService.

Section Service.

Variable settings : Settings.t.

(** [self.redis] is set once by [connect]; [connected] is the truth
    value of [self.redis] seen by the methods. *)
Variable connected : bool.

Definition increment_counter (key : string) (ttl : option Z) : co Z :=
  if negb connected then Done 0
  else
    try_except
      (value ← await_incr key;
       match ttl with
       | Some t =>
           if t =? 0 then Done value
           else (await_expire key t ;; Done value)
       | None => Done value
       end)
      (Done 0).

Definition get_counter (key : string) : co Z :=
  if negb connected then Done 0
  else
    try_except
      (value ← await_get key;
       match value with
       | Some s =>
           if str_truthy s then
             match int_of_str s with
             | Some z => Done z
             | None => Throw ValueError
             end
           else Done 0
       | None => Done 0
       end)
      (Done 0).

Definition minute_key (user_id endpoint : string) (now : datetime) : string :=
  "rate_limit:" +:+ user_id +:+ ":" +:+ endpoint +:+ ":minute:" +:+ strftime_minute now.

Definition hour_key (user_id endpoint : string) (now : datetime) : string :=
  "rate_limit:" +:+ user_id +:+ ":" +:+ endpoint +:+ ":hour:" +:+ strftime_hour now.

(** Returns (allowed, requests_this_minute, requests_this_hour). *)
Definition check_rate_limit (user_id endpoint : string)
    (limit_per_minute limit_per_hour : option Z) (now : datetime)
  : co (bool * Z * Z) :=
  if negb connected then Done (true, 0, 0)
  else
    let limit_per_minute :=
      int_or limit_per_minute (Settings.RATE_LIMIT_PER_MINUTE settings) in
    let limit_per_hour :=
      int_or limit_per_hour (Settings.RATE_LIMIT_PER_HOUR settings) in
    let minute_key := minute_key user_id endpoint now in
    let hour_key := hour_key user_id endpoint now in
    try_except
      (minute_count ← get_counter minute_key;
       hour_count ← get_counter hour_key;
       if (limit_per_minute <=? minute_count) || (limit_per_hour <=? hour_count)
       then Done (false, minute_count, hour_count)
       else
         (increment_counter minute_key (Some 60) ;;
          increment_counter hour_key (Some 3600) ;;
          Done (true, minute_count + 1, hour_count + 1)))
      (* Fail open *)
      (Done (true, 0, 0)).

(** The values of the statistics dictionary. *)
Inductive stat_value :=
| SInt (n : Z)
| SFloat (f : spec_float).

Definition strftime_day (now : datetime) : string :=
  zero_pad 4 (year now) +:+ zero_pad 2 (month now) +:+ zero_pad 2 (day now).

(** The [try] block of [get_realtime_stats]. *)
Definition get_realtime_stats_body (now : datetime) : co (list (string * stat_value)) :=
  let today := strftime_day now in
  total_requests ← get_counter ("requests:total:" +:+ today);
  success_requests ← get_counter ("requests:status:success:" +:+ today);
  error_requests ← get_counter ("requests:status:error:" +:+ today);
  success_rate ←
    (if 0 <? total_requests then
       q ← of_outcome (PyFloat.int_truediv success_requests total_requests);
       hundred ← of_outcome (PyFloat.of_int 100);
       Done (SFloat (PyFloat.mul q hundred))
     else Done (SInt 0));
  Done [ ("total_requests_today", SInt total_requests);
         ("success_requests_today", SInt success_requests);
         ("error_requests_today", SInt error_requests);
         ("success_rate", success_rate) ].

(** Real-time statistics from Redis; [{}] is the empty list. *)
Definition get_realtime_stats (now : datetime) : co (list (string * stat_value)) :=
  if negb connected then Done []
  else try_except (get_realtime_stats_body now) (Done []).

End Service.

End RedisService.

(** A method called on the service object. With [self.redis = None] a
    command would be an attribute error. *)
Module Service.

Fixpoint run_unconnected {A} (m : co A) : outcome A :=
  match m with
  | Done a => Value a
  | Throw e => Raised e
  | Get _ k => run_unconnected (k (Raised AttributeError))
  | Incr _ k => run_unconnected (k (Raised AttributeError))
  | Expire _ _ k => run_unconnected (k (Raised AttributeError))
  end.

Definition call {A} (method : bool -> co A) (redis : option Redis.client)
  : outcome A * option Redis.client :=
  match redis with
  | Some c => let '(r, c') := run (method true) c in (r, Some c')
  | None => (run_unconnected (method false), None)
  end.

(** Calls made one after the other, each finished before the next
    starts; the replies in order. *)
Fixpoint calls {A} (methods : list (bool -> co A)) (redis : option Redis.client)
  : list (outcome A) * option Redis.client :=
  match methods with
  | [] => ([], redis)
  | m :: rest =>
      let '(r, redis') := call m redis in
      let '(rs, redis'') := calls rest redis' in
      (r :: rs, redis'')
  end.

(** [check_rate_limit] called once at each of the times [nows]. *)
Definition limiter_calls (settings : Settings.t) (user_id endpoint : string)
    (limit_per_minute limit_per_hour : option Z) (nows : list datetime)
  : list (bool -> co (bool * Z * Z)) :=
  map (fun now connected =>
         RedisService.check_rate_limit settings connected user_id endpoint
           limit_per_minute limit_per_hour now) nows.

(** The reply to the [k]-th call of a window with minute ceiling [N]
    that began with the hour counter at [h0]. *)
Definition kth_reply (N h0 k : Z) : outcome (bool * Z * Z) :=
  Value (k <=? N, Z.min k N, h0 + Z.min k N).

(** The calls a window still admits when its counters stand at [m] and
    [h]: what the two ceilings [N] and [H] both leave. *)
Definition room (N H m h : Z) : Z := Z.max 0 (Z.min (N - m) (H - h)).

(** The reply to the [k]-th of the calls made one after the other in a
    window whose counters stood at [m] and [h]. *)
Definition reply_from (N H m h k : Z) : outcome (bool * Z * Z) :=
  Value (k <=? room N H m h, m + Z.min k (room N H m h), h + Z.min k (room N H m h)).

(** The replies that admit the request. *)
Definition admitted (r : outcome (bool * Z * Z)) : bool :=
  match r with
  | Value (true, _, _) => true
  | _ => false
  end.

(** The reply of a coroutine that has returned. *)
Definition reply_of {A} (m : co A) : option (outcome A) :=
  match m with
  | Done a => Some (Value a)
  | Throw e => Some (Raised e)
  | _ => None
  end.

End Service.

(** ** models/schemas.py *)

Module Schemas.

Inductive UserRole := EMPLOYEE | MANAGER | ADMIN.

Inductive RequestStatus := SUCCESS | ERROR | TIMEOUT | RATE_LIMITED.

Inductive Component :=
| API_ROUTER | SEMANTIC_CACHE | AI_ROUTER | LLAMA_GUARD
| RBAC | NEMO_GUARDRAILS | PII_FIREWALL | GROQ_CLIENT.

(** Schema for creating a metrics record; [timestamp] in microseconds. *)
Record MetricsCreate := {
  timestamp : Z;
  user_id : string;
  user_role : UserRole;
  model : string;
  input_tokens : Z;
  output_tokens : Z;
  latency_ms : Z;
  ttft_ms : option Z;
  tokens_per_second : option spec_float;
  cost_usd : spec_float;
  status : RequestStatus;
  error_type : option string;
  error_message : option string;
  component : Component;
  cache_hit : bool;
  trace_id : option string;
  span_id : option string;
  request_id : string
}.

End Schemas.

(** ** asyncio.Queue *)

Module AsyncQueue.

Record t (A : Type) := Make { maxsize : Z; items : list A }.
Arguments Make {A} maxsize items.
Arguments maxsize {A} _.
Arguments items {A} _.

(** A coroutine at an [await]: it goes on with a result, or it is
    suspended until another task wakes it. *)
Inductive progress (B : Type) : Type :=
| Returns (b : B)
| Suspends.
Arguments Returns {B} b.
Arguments Suspends {B}.

Definition qsize {A} (q : t A) : Z := Z.of_nat (length (items q)).

Definition empty {A} (q : t A) : bool :=
  match items q with [] => true | _ => false end.

(** With [maxsize <= 0] the queue is never full. *)
Definition full {A} (q : t A) : bool :=
  if maxsize q <=? 0 then false else maxsize q <=? qsize q.

Definition put_nowait {A} (item : A) (q : t A) : outcome (t A) :=
  if full q then Raised QueueFull
  else Value (Make (maxsize q) (items q ++ [item])).

Definition get_nowait {A} (q : t A) : outcome (A * t A) :=
  match items q with
  | [] => Raised QueueEmpty
  | item :: rest => Value (item, Make (maxsize q) rest)
  end.

(** [put]: while the queue is full, wait for a free slot; then
    [put_nowait]. *)
Definition put {A} (item : A) (q : t A) : progress (outcome (t A)) :=
  if full q then Suspends else Returns (put_nowait item q).

End AsyncQueue.

(** ** metrics_service.py *)

Module MetricsService.

Import Schemas.

Inductive log_record :=
| Info (msg : string)
| Error (msg : string).

(** *** The metrics table behind [db_pool]

    [fault] tells where the database fails during one flush, if it
    does. *)

Inductive sink_fault :=
| AcquireFails
| ExecuteFails (i : nat)
| CommitFails.

(** [for metric in batch: await conn.execute(query, ...)] inside the
    transaction; [tx] holds the rows inserted so far. *)
Fixpoint execute_all (fault : option sink_fault) (i : nat)
    (batch tx : list MetricsCreate) : outcome (list MetricsCreate) :=
  match batch with
  | [] => Value tx
  | metric :: rest =>
      match fault with
      | Some (ExecuteFails j) =>
          if (i =? j)%nat then Raised PostgresError
          else execute_all fault (S i) rest (tx ++ [metric])
      | _ => execute_all fault (S i) rest (tx ++ [metric])
      end
  end.

(** [async with db_pool.pool.acquire() as conn: async with
    conn.transaction(): ...]: the rows are in the table once the
    transaction commits, and an exception rolls it back. *)
Definition insert_batch (fault : option sink_fault)
    (batch table : list MetricsCreate) : outcome (list MetricsCreate) :=
  match fault with
  | Some AcquireFails => Raised PostgresError
  | _ =>
      match execute_all fault 0 batch [] with
      | Value tx =>
          match fault with
          | Some CommitFails => Raised PostgresError
          | _ => Value (table ++ tx)
          end
      | Raised e => Raised e
      end
  end.

(** Flush a batch of metrics to database. The text of the exception,
    which the source appends to the error message, is left out. *)
Definition _flush_batch (batch : list MetricsCreate) (fault : option sink_fault)
    (table : list MetricsCreate) (log : list log_record)
  : outcome unit * list MetricsCreate * list log_record :=
  match batch with
  | [] => (Value tt, table, log)
  | _ =>
      match insert_batch fault batch table with
      | Value table' =>
          (Value tt, table',
           log ++ [Info ("Flushed " +:+ str_of_int (Z.of_nat (length batch))
                         +:+ " metrics to database")])
      | Raised _ =>
          (Value tt, table, log ++ [Error "Failed to flush metrics batch"])
      end
  end.

(** Add a metric to the queue for async processing. *)
Definition log_metric (metric : MetricsCreate) (q : AsyncQueue.t MetricsCreate)
    (log : list log_record)
  : AsyncQueue.progress (outcome bool * AsyncQueue.t MetricsCreate * list log_record) :=
  match AsyncQueue.put metric q with
  | AsyncQueue.Suspends => AsyncQueue.Suspends
  | AsyncQueue.Returns (Value q') => AsyncQueue.Returns (Value true, q', log)
  | AsyncQueue.Returns (Raised QueueFull) =>
      AsyncQueue.Returns
        (Value false, q, log ++ [Error "Metrics queue is full, dropping metric"])
  | AsyncQueue.Returns (Raised e) => AsyncQueue.Returns (Raised e, q, log)
  end.

(** [_flush_queue], up to its [await]: everything left in the queue. *)
Fixpoint drain (fuel : nat) (q : AsyncQueue.t MetricsCreate)
    (batch : list MetricsCreate) : list MetricsCreate * AsyncQueue.t MetricsCreate :=
  match fuel with
  | O => (batch, q)
  | S fuel' =>
      if AsyncQueue.empty q then (batch, q)
      else
        match AsyncQueue.get_nowait q with
        | Value (metric, q') => drain fuel' q' (batch ++ [metric])
        | Raised _ => (batch, q)
        end
  end.

(** *** The service with its worker task, as a transition system

    A state is taken between two atomic steps of the event loop. The
    worker task [_process_metrics] and the call of [stop] are kept with
    the [await] at which they are suspended. Times are in microseconds. *)

Inductive trigger :=
| ByTime      (* line 107 *)
| ByCount     (* line 121 *)
| AtExit      (* line 134 *)
| AtStop.     (* [_flush_queue], line 197 *)

Inductive worker_point :=
| Created                  (* task created by [start], not yet run *)
| Waiting (since : Z)      (* [wait_for(self.metrics_queue.get(), timeout=1.0)] *)
| FlushingTime             (* [_flush_batch] of line 107 *)
| FlushingCount            (* [_flush_batch] of line 121 *)
| FlushingFinal            (* [_flush_batch] of line 134 *)
| Sleeping (since : Z)     (* [asyncio.sleep(1)] of the outer handler *)
| Finished
| Failed.                  (* the task ended with an exception *)

Inductive stop_point :=
| NotStopped
| AwaitWorker              (* [await self.worker_task] *)
| StopFlushing             (* [_flush_batch] in [_flush_queue] *)
| Stopped
| StopFailed.

(** A call of [_flush_batch] with a batch that is not empty. *)
Record flight := {
  f_trigger : trigger;
  f_started : Z;
  f_batch : list MetricsCreate
}.

Record attempt := {
  a_trigger : trigger;
  a_started : Z;
  a_ended : Z;
  a_batch : list MetricsCreate;
  a_ok : bool
}.

(** What happened so far: the metrics for which [log_metric] returned
    [True] and those taken from the queue, each with its time, the
    flushes that ended, and how many metrics had been accepted when
    [stop] was called. *)
Record history := {
  accepted : list (Z * MetricsCreate);
  dequeued : list (Z * MetricsCreate);
  attempts : list attempt;
  accepted_at_stop : nat
}.

Record system := {
  now : Z;
  metrics_queue : AsyncQueue.t MetricsCreate;
  running : bool;
  worker_at : worker_point;
  batch : list MetricsCreate;
  last_flush : Z;
  stop_at : stop_point;
  in_flight : option flight;
  llm_metrics : list MetricsCreate;
  log : list log_record;
  hist : history
}.

Inductive event :=
| Tick (d : Z)                          (* [d] microseconds pass *)
| LogMetric (metric : MetricsCreate)    (* a request handler calls [log_metric] *)
| WorkerStarts                          (* the worker task runs for the first time *)
| GetReturns                            (* [queue.get()] has an item *)
| GetTimesOut                           (* [asyncio.TimeoutError] *)
| FlushEnds (fault : option sink_fault) (* the running [_flush_batch] returns *)
| SleepEnds
| Stop                                  (* [stop] is called *)
| StopResumes.                          (* [await self.worker_task] is over *)

(** The timeout of [wait_for], 1.0 second. *)
Definition poll_timeout : Z := 1000000.

Definition nonempty {A} (l : list A) : bool :=
  match l with [] => false | _ => true end.

(** [settings.METRICS_FLUSH_INTERVAL] in microseconds. *)
Definition interval (settings : Settings.t) : Z :=
  Settings.METRICS_FLUSH_INTERVAL settings * 1000000.

Section Steps.

Variable settings : Settings.t.

(** [__init__] then [start]. *)
Definition start (t0 : Z) : system :=
  {| now := t0;
     metrics_queue := AsyncQueue.Make (Settings.METRICS_QUEUE_SIZE settings) [];
     running := true;
     worker_at := Created;
     batch := [];
     last_flush := t0;
     stop_at := NotStopped;
     in_flight := None;
     llm_metrics := [];
     log := [Info "Metrics service started"];
     hist := {| accepted := []; dequeued := []; attempts := [];
                accepted_at_stop := 0 |} |}.

Definition set_worker (p : worker_point) (b : list MetricsCreate) (lf : Z)
    (s : system) : system :=
  {| now := now s; metrics_queue := metrics_queue s; running := running s;
     worker_at := p; batch := b; last_flush := lf;
     stop_at := stop_at s; in_flight := in_flight s;
     llm_metrics := llm_metrics s; log := log s; hist := hist s |}.

Definition add_log (r : log_record) (s : system) : system :=
  {| now := now s; metrics_queue := metrics_queue s; running := running s;
     worker_at := worker_at s; batch := batch s; last_flush := last_flush s;
     stop_at := stop_at s; in_flight := in_flight s;
     llm_metrics := llm_metrics s; log := log s ++ [r]; hist := hist s |}.

(** [await self._flush_batch(b)] begins. *)
Definition begin_flush (tr : trigger) (b : list MetricsCreate) (s : system) : system :=
  {| now := now s; metrics_queue := metrics_queue s; running := running s;
     worker_at := worker_at s; batch := batch s; last_flush := last_flush s;
     stop_at := stop_at s;
     in_flight := Some {| f_trigger := tr; f_started := now s; f_batch := b |};
     llm_metrics := llm_metrics s; log := log s; hist := hist s |}.

(** [(datetime.utcnow() - last_flush).total_seconds() >=
    settings.METRICS_FLUSH_INTERVAL] *)
Definition interval_elapsed (s : system) : bool :=
  interval settings <=? now s - last_flush s.

(** The worker from [while self.running:] to its next [await]. *)
Definition loop_head (s : system) : system :=
  if running s then
    if interval_elapsed s && nonempty (batch s) then
      begin_flush ByTime (batch s)
        (set_worker FlushingTime (batch s) (last_flush s) s)
    else
      set_worker (Waiting (now s)) (batch s) (last_flush s) s
  else
    if nonempty (batch s) then
      begin_flush AtExit (batch s)
        (set_worker FlushingFinal (batch s) (last_flush s) s)
    else
      add_log (Info "Metrics worker stopped")
        (set_worker Finished [] (last_flush s) s).

Definition worker_starts (s : system) : option system :=
  match worker_at s with
  | Created =>
      Some (loop_head (set_worker Created [] (now s)
                         (add_log (Info "Metrics worker started") s)))
  | _ => None
  end.

Definition note_dequeued (ms : list MetricsCreate) (s : system) : system :=
  {| now := now s; metrics_queue := metrics_queue s; running := running s;
     worker_at := worker_at s; batch := batch s; last_flush := last_flush s;
     stop_at := stop_at s; in_flight := in_flight s;
     llm_metrics := llm_metrics s; log := log s;
     hist := {| accepted := accepted (hist s);
                dequeued := dequeued (hist s) ++ map (pair (now s)) ms;
                attempts := attempts (hist s);
                accepted_at_stop := accepted_at_stop (hist s) |} |}.

Definition set_queue (q : AsyncQueue.t MetricsCreate) (s : system) : system :=
  {| now := now s; metrics_queue := q; running := running s;
     worker_at := worker_at s; batch := batch s; last_flush := last_flush s;
     stop_at := stop_at s; in_flight := in_flight s;
     llm_metrics := llm_metrics s; log := log s; hist := hist s |}.

(** Lines 113 to 123: the metric is appended, and a full batch is
    flushed. *)
Definition get_returns (s : system) : option system :=
  match worker_at s with
  | Waiting _ =>
      match AsyncQueue.get_nowait (metrics_queue s) with
      | Value (metric, q') =>
          let s := note_dequeued [metric] (set_queue q' s) in
          let batch' := batch s ++ [metric] in
          if Settings.METRICS_BATCH_SIZE settings <=? Z.of_nat (length batch') then
            Some (begin_flush ByCount batch'
                    (set_worker FlushingCount batch' (last_flush s) s))
          else
            Some (loop_head (set_worker (worker_at s) batch' (last_flush s) s))
      | Raised _ => None
      end
  | _ => None
  end.

(** Lines 125 and 126. *)
Definition get_times_out (s : system) : option system :=
  match worker_at s with
  | Waiting _ => Some (loop_head s)
  | _ => None
  end.

Definition is_value {A} (r : outcome A) : bool :=
  match r with Value _ => true | Raised _ => false end.

Definition end_flight (f : flight) (fault : option sink_fault)
    (table : list MetricsCreate) (lg : list log_record) (s : system) : system :=
  {| now := now s; metrics_queue := metrics_queue s; running := running s;
     worker_at := worker_at s; batch := batch s; last_flush := last_flush s;
     stop_at := stop_at s; in_flight := None;
     llm_metrics := table; log := lg;
     hist := {| accepted := accepted (hist s);
                dequeued := dequeued (hist s);
                attempts := attempts (hist s) ++
                  [{| a_trigger := f_trigger f; a_started := f_started f;
                      a_ended := now s; a_batch := f_batch f;
                      a_ok := is_value (insert_batch fault (f_batch f) (llm_metrics s)) |}];
                accepted_at_stop := accepted_at_stop (hist s) |} |}.

Definition set_stop (p : stop_point) (s : system) : system :=
  {| now := now s; metrics_queue := metrics_queue s; running := running s;
     worker_at := worker_at s; batch := batch s; last_flush := last_flush s;
     stop_at := p; in_flight := in_flight s;
     llm_metrics := llm_metrics s; log := log s; hist := hist s |}.

(** The running [_flush_batch] returns, and its caller goes on to its
    next [await]. *)
Definition flush_ends (fault : option sink_fault) (s : system) : option system :=
  match in_flight s with
  | Some f =>
      let '(r, table, lg) := _flush_batch (f_batch f) fault (llm_metrics s) (log s) in
      let s := end_flight f fault table lg s in
      match worker_at s, r with
      | FlushingTime, Value _ =>
          (* batch = []; last_flush = utcnow(); then line 113 *)
          Some (set_worker (Waiting (now s)) [] (now s) s)
      | FlushingCount, Value _ =>
          (* batch = []; last_flush = utcnow(); next iteration *)
          Some (loop_head (set_worker FlushingCount [] (now s) s))
      | (FlushingTime | FlushingCount), Raised _ =>
          (* except Exception: ... await asyncio.sleep(1) *)
          Some (set_worker (Sleeping (now s)) (batch s) (last_flush s)
                  (add_log (Error "Error processing metrics") s))
      | FlushingFinal, Value _ =>
          Some (add_log (Info "Metrics worker stopped")
                  (set_worker Finished [] (last_flush s) s))
      | FlushingFinal, Raised _ =>
          Some (set_worker Failed [] (last_flush s) s)
      | _, _ =>
          match stop_at s, r with
          | StopFlushing, Value _ =>
              Some (add_log (Info "Metrics service stopped") (set_stop Stopped s))
          | StopFlushing, Raised _ => Some (set_stop StopFailed s)
          | _, _ => None
          end
      end
  | None => None
  end.

Definition sleep_ends (s : system) : option system :=
  match worker_at s with
  | Sleeping _ => Some (loop_head s)
  | _ => None
  end.

Definition set_running (b : bool) (s : system) : system :=
  {| now := now s; metrics_queue := metrics_queue s; running := b;
     worker_at := worker_at s; batch := batch s; last_flush := last_flush s;
     stop_at := stop_at s; in_flight := in_flight s;
     llm_metrics := llm_metrics s; log := log s; hist := hist s |}.

Definition note_stop (s : system) : system :=
  {| now := now s; metrics_queue := metrics_queue s; running := running s;
     worker_at := worker_at s; batch := batch s; last_flush := last_flush s;
     stop_at := stop_at s; in_flight := in_flight s;
     llm_metrics := llm_metrics s; log := log s;
     hist := {| accepted := accepted (hist s);
                dequeued := dequeued (hist s);
                attempts := attempts (hist s);
                accepted_at_stop := length (accepted (hist s)) |} |}.

(** [stop], up to [await self.worker_task]. *)
Definition stop (s : system) : option system :=
  match stop_at s with
  | NotStopped =>
      if running s then
        Some (set_stop AwaitWorker (set_running false (note_stop s)))
      else Some (set_stop Stopped (note_stop s))
  | _ => None
  end.

(** [stop] after the worker task has ended: [_flush_queue]. *)
Definition stop_resumes (s : system) : option system :=
  match stop_at s, worker_at s with
  | AwaitWorker, Finished =>
      let q := metrics_queue s in
      let '(b, q') := drain (length (AsyncQueue.items q)) q [] in
      let s := note_dequeued b (set_queue q' s) in
      if nonempty b then
        Some (begin_flush AtStop b (set_stop StopFlushing s))
      else
        Some (add_log (Info "Metrics service stopped") (set_stop Stopped s))
  | AwaitWorker, Failed => Some (set_stop StopFailed s)
  | _, _ => None
  end.

Definition note_accepted (metric : MetricsCreate) (s : system) : system :=
  {| now := now s; metrics_queue := metrics_queue s; running := running s;
     worker_at := worker_at s; batch := batch s; last_flush := last_flush s;
     stop_at := stop_at s; in_flight := in_flight s;
     llm_metrics := llm_metrics s; log := log s;
     hist := {| accepted := accepted (hist s) ++ [(now s, metric)];
                dequeued := dequeued (hist s);
                attempts := attempts (hist s);
                accepted_at_stop := accepted_at_stop (hist s) |} |}.

Definition set_log (lg : list log_record) (s : system) : system :=
  {| now := now s; metrics_queue := metrics_queue s; running := running s;
     worker_at := worker_at s; batch := batch s; last_flush := last_flush s;
     stop_at := stop_at s; in_flight := in_flight s;
     llm_metrics := llm_metrics s; log := lg; hist := hist s |}.

(** A call of [log_metric] that returns; a suspended call changes
    nothing until it is woken, and is no step. *)
Definition log_metric_returns (metric : MetricsCreate) (s : system) : option system :=
  match log_metric metric (metrics_queue s) (log s) with
  | AsyncQueue.Returns (Value true, q', lg) =>
      Some (note_accepted metric (set_log lg (set_queue q' s)))
  | AsyncQueue.Returns (_, q', lg) => Some (set_log lg (set_queue q' s))
  | AsyncQueue.Suspends => None
  end.

Definition tick (d : Z) (s : system) : option system :=
  if 0 <=? d then
    Some {| now := now s + d; metrics_queue := metrics_queue s;
            running := running s; worker_at := worker_at s; batch := batch s;
            last_flush := last_flush s; stop_at := stop_at s;
            in_flight := in_flight s; llm_metrics := llm_metrics s;
            log := log s; hist := hist s |}
  else None.

(** One step of the event loop; [None] when the event cannot happen in
    this state. *)
Definition step (e : event) (s : system) : option system :=
  match e with
  | Tick d => tick d s
  | LogMetric metric => log_metric_returns metric s
  | WorkerStarts => worker_starts s
  | GetReturns => get_returns s
  | GetTimesOut => get_times_out s
  | FlushEnds fault => flush_ends fault s
  | SleepEnds => sleep_ends s
  | Stop => stop s
  | StopResumes => stop_resumes s
  end.

Fixpoint steps (es : list event) (s : system) : option system :=
  match es with
  | [] => Some s
  | e :: rest =>
      match step e s with
      | Some s' => steps rest s'
      | None => None
      end
  end.

(** *** Timing of the event loop

    Time passes only while every task waits: the worker in [wait_for]
    with an empty queue, for at most the timeout, or in a database
    write, which may last any time. Everything else takes no time. *)
Definition punctual (e : event) (s : system) : bool :=
  match e with
  | Tick d =>
      (d =? 0) ||
      match worker_at s with
      | Waiting since =>
          AsyncQueue.empty (metrics_queue s) && (now s + d <=? since + poll_timeout)
      | FlushingTime | FlushingCount | FlushingFinal => true
      | Sleeping since => now s + d <=? since + 1000000
      | Finished =>
          match stop_at s with
          | AwaitWorker => false
          | _ => true
          end
      | Created | Failed => false
      end
  | GetTimesOut =>
      match worker_at s with
      | Waiting since => since + poll_timeout <=? now s
      | _ => true
      end
  | SleepEnds =>
      match worker_at s with
      | Sleeping since => since + 1000000 <=? now s
      | _ => true
      end
  | _ => true
  end.

Fixpoint punctual_steps (es : list event) (s : system) : option system :=
  match es with
  | [] => Some s
  | e :: rest =>
      if punctual e s then
        match step e s with
        | Some s' => punctual_steps rest s'
        | None => None
        end
      else None
  end.

End Steps.

(** *** Vocabulary of the properties *)

(** The batch that is being flushed or, with no flush under way, the
    worker's local batch. *)
Definition pending (s : system) : list MetricsCreate :=
  match in_flight s with
  | Some f => f_batch f
  | None => batch s
  end.

(** All the metrics handed to [_flush_batch] in the calls that ended. *)
Definition flushed (s : system) : list MetricsCreate :=
  concat (map a_batch (attempts (hist s))).

(** Of a history of metrics with their times, the part not yet handed
    to a flush that ended. *)
Definition unflushed (times : list (Z * MetricsCreate)) (s : system)
  : list (Z * MetricsCreate) :=
  drop (length (flushed s)) times.

(** While the worker holds a batch that is not being flushed, no more
    than the flush interval plus the timeout of [wait_for] has passed
    since the time noted in [times] for the oldest unflushed metric. *)
Definition within_deadline (settings : Settings.t)
    (times : list (Z * MetricsCreate)) (s : system) : Prop :=
  in_flight s = None -> batch s <> [] ->
  forall t metric,
    head (unflushed times s) = Some (t, metric) ->
    now s <= t + interval settings + poll_timeout.

(** A flush started by the time trigger begins at least one flush
    interval after the end of every earlier flush. *)
Definition fires_after_interval (settings : Settings.t) (atts : list attempt) : Prop :=
  forall i j a' a,
    atts !! i = Some a' -> atts !! j = Some a -> (i < j)%nat ->
    a_trigger a = ByTime ->
    a_ended a' + interval settings <= a_started a.

(** Events of request handlers and of the clock, which leave the worker
    where it is. *)
Definition bystander (e : event) : bool :=
  match e with
  | Tick _ | LogMetric _ | Stop => true
  | _ => false
  end.

(** *** Invariants of the runs *)

(** Where the worker is suspended agrees with the flush under way. *)
Definition worker_coherent (s : system) : Prop :=
  match worker_at s with
  | FlushingTime | FlushingCount | FlushingFinal =>
      exists f, in_flight s = Some f /\ f_batch f = batch s
  | Created => in_flight s = None /\ batch s = []
  | Waiting _ => in_flight s = None
  | Finished => batch s = [] /\ (in_flight s = None \/ stop_at s = StopFlushing)
  | Sleeping _ | Failed => False
  end.

Definition stop_coherent (s : system) : Prop :=
  match stop_at s with
  | NotStopped => running s = true
  | AwaitWorker =>
      running s = false
      /\ (accepted_at_stop (hist s) <= length (accepted (hist s)))%nat
  | StopFlushing =>
      worker_at s = Finished /\ in_flight s <> None
      /\ (accepted_at_stop (hist s) <= length (dequeued (hist s)))%nat
  | Stopped =>
      worker_at s = Finished /\ in_flight s = None
      /\ (accepted_at_stop (hist s) <= length (dequeued (hist s)))%nat
  | StopFailed => False
  end.

Record coherent (s : system) : Prop := {
  coh_accepted :
    map snd (accepted (hist s)) =
    map snd (dequeued (hist s)) ++ AsyncQueue.items (metrics_queue s);
  coh_dequeued : map snd (dequeued (hist s)) = flushed s ++ pending s;
  coh_worker : worker_coherent s;
  coh_stop : stop_coherent s
}.

(** Times kept by the worker, in runs in which time passes as
    [punctual] allows. *)
Record timely (settings : Settings.t) (s : system) : Prop := {
  tm_last : last_flush s <= now s;
  tm_pending :
    Forall (fun p => last_flush s <= fst p) (unflushed (dequeued (hist s)) s);
  tm_wait :
    forall since, worker_at s = Waiting since ->
      now s <= since + poll_timeout
      /\ (batch s <> [] -> since < last_flush s + interval settings);
  tm_ended :
    worker_at s <> Finished ->
    Forall (fun a => a_ended a <= last_flush s) (attempts (hist s));
  tm_flight :
    forall f, in_flight s = Some f -> f_trigger f = ByTime ->
      worker_at s = FlushingTime
      /\ last_flush s + interval settings <= f_started f;
  tm_guard : fires_after_interval settings (attempts (hist s));
  tm_past : Forall (fun a => a_ended a <= now s) (attempts (hist s))
}.

End MetricsService.

(** ** Scenarios *)

Module Scenario.

Import Schemas MetricsService.

Definition window_start : datetime := Datetime 2024 3 7 9 5 0 0.

(** Five calls inside the minute 09:05. *)
Definition window_times : list datetime :=
  map (fun sec => Datetime 2024 3 7 9 5 sec 0) [1; 2; 3; 4; 5].

(** A call of the limiter with ceiling 1. *)
Definition racing_call : co (bool * Z * Z) :=
  RedisService.check_rate_limit Settings.defaults true "user-1" "/v1/chat"
    (Some 1) None window_start.

Definition metric (id : string) : MetricsCreate :=
  {| timestamp := 0; user_id := "user-1"; user_role := EMPLOYEE;
     model := "llama3-8b-8192"; input_tokens := 1200; output_tokens := 300;
     latency_ms := 420; ttft_ms := None; tokens_per_second := None;
     cost_usd := S754_zero false; status := SUCCESS;
     error_type := None; error_message := None; component := GROQ_CLIENT;
     cache_hit := false; trace_id := None; span_id := None;
     request_id := id |}.

Definition second : Z := 1000000.

(** A queue at its default capacity. *)
Definition full_queue : AsyncQueue.t MetricsCreate :=
  AsyncQueue.Make 1000 (repeat (metric "m") 1000).

(** Batch size 2, flush interval 5 seconds. *)
Definition small_batches : Settings.t :=
  {| Settings.RATE_LIMIT_PER_MINUTE := 60;
     Settings.RATE_LIMIT_PER_HOUR := 1000;
     Settings.METRICS_QUEUE_SIZE := 1000;
     Settings.METRICS_BATCH_SIZE := 2;
     Settings.METRICS_FLUSH_INTERVAL := 5 |}.

Definition state_after (settings : Settings.t) (es : list event) : system :=
  match punctual_steps settings es (start settings 0) with
  | Some s => s
  | None => start settings 0
  end.

(** The worker waits with one metric in its batch and one in the
    queue; the interval has not elapsed. *)
Definition before_count_flush : system :=
  state_after small_batches
    [WorkerStarts; LogMetric (metric "A"); GetReturns; LogMetric (metric "B")].

(** A, B at time 0, C one second later and nothing else, then [stop]. *)
Definition quiet_run : list event :=
  [WorkerStarts; LogMetric (metric "A"); LogMetric (metric "B");
   GetReturns; GetReturns; FlushEnds None;
   Tick second; LogMetric (metric "C"); GetReturns;
   Tick second; GetTimesOut; Tick second; GetTimesOut;
   Tick second; GetTimesOut; Tick second; GetTimesOut;
   FlushEnds None;
   LogMetric (metric "D"); Stop; GetReturns; LogMetric (metric "E");
   FlushEnds None; StopResumes; FlushEnds None].

(** Three metrics in a flush started by the time trigger. *)
Definition flushing_three : system :=
  state_after Settings.defaults
    [WorkerStarts; LogMetric (metric "A"); LogMetric (metric "B");
     LogMetric (metric "C"); GetReturns; GetReturns; GetReturns;
     Tick second; GetTimesOut; Tick second; GetTimesOut;
     Tick second; GetTimesOut; Tick second; GetTimesOut;
     Tick second; GetTimesOut].

(** A is flushed by the time trigger; the write lasts ten seconds, and
    C is enqueued one second after it began. *)
Definition slow_write : list event :=
  [WorkerStarts; LogMetric (metric "A"); GetReturns;
   Tick second; GetTimesOut; Tick second; GetTimesOut;
   Tick second; GetTimesOut; Tick second; GetTimesOut;
   Tick second; GetTimesOut;
   Tick second; LogMetric (metric "C"); Tick (9 * second);
   FlushEnds None; GetReturns].

End Scenario.

(** * More of the code *)

(** ** Methods of [str] *)

Module PyStr.

(** [c.isspace()] for an ASCII character: tab to carriage return, the
    four separators 28 to 31, and the space. *)
Definition isspace (c : ascii) : bool :=
  let n := nat_of_ascii c in
  ((9 <=? n)%nat && (n <=? 13)%nat) || ((28 <=? n)%nat && (n <=? 32)%nat).

Fixpoint lstrip (s : string) : string :=
  match s with
  | EmptyString => EmptyString
  | String c r => if isspace c then lstrip r else s
  end.

Fixpoint rstrip (s : string) : string :=
  match s with
  | EmptyString => EmptyString
  | String c r =>
      match rstrip r with
      | EmptyString => if isspace c then EmptyString else String c EmptyString
      | r' => String c r'
      end
  end.

(** [s.strip()] *)
Definition strip (s : string) : string := rstrip (lstrip s).

(** [s.split(sep)] for a separator of one character. *)
Fixpoint split (sep : ascii) (s : string) : list string :=
  match s with
  | EmptyString => [EmptyString]
  | String c r =>
      if Ascii.eqb c sep then EmptyString :: split sep r
      else
        match split sep r with
        | field :: fields => String c field :: fields
        | [] => [String c EmptyString]
        end
  end.

(** [sep.join(fields)] *)
Definition join (sep : string) (fields : list string) : string :=
  String.concat sep fields.

(** [c in s] for a character. *)
Definition has_char (c : ascii) (s : string) : bool :=
  existsb (Ascii.eqb c) (list_ascii_of_string s).

(** How often [c] occurs in [s]. *)
Definition count_char (c : ascii) (s : string) : nat :=
  length (List.filter (Ascii.eqb c) (list_ascii_of_string s)).

(** The text is ASCII. *)
Definition isascii (s : string) : bool :=
  forallb (fun c => (nat_of_ascii c <? 128)%nat) (list_ascii_of_string s).

End PyStr.

(** ** config.py: the CORS origins *)

Module Cors.

Definition CORS_ORIGINS : string := "http://localhost:5173,http://localhost:3000".

(** Parse CORS origins from comma-separated string. *)
Definition get_cors_origins (CORS_ORIGINS : string) : list string :=
  map PyStr.strip (PyStr.split "," CORS_ORIGINS).

End Cors.

(** ** The range of the floats of a computation *)

Module FloatRange.

(** [math.isfinite(x)] *)
Definition isfinite (x : spec_float) : bool :=
  match x with
  | S754_zero _ | S754_finite _ _ _ => true
  | _ => false
  end.

(** [x] is zero, or finite with [|x| < 2^k]. *)
Definition below (k : Z) (x : spec_float) : Prop :=
  match x with
  | S754_zero _ => True
  | S754_finite _ m e =>
      Zdigits2 (Z.pos m) + e <= k /\ e <= PyFloat.emax - PyFloat.prec
  | _ => False
  end.

(** [0.0 <= x] *)
Definition nonneg (x : spec_float) : bool :=
  SFleb (S754_zero false) x.

(** The prices of the table. *)
Definition prices (self : Settings.pricing) : list spec_float :=
  [ Settings.GROQ_LLAMA3_8B_INPUT_COST self; Settings.GROQ_LLAMA3_8B_OUTPUT_COST self;
    Settings.GROQ_LLAMA3_70B_INPUT_COST self; Settings.GROQ_LLAMA3_70B_OUTPUT_COST self;
    Settings.GROQ_MIXTRAL_8X7B_INPUT_COST self; Settings.GROQ_MIXTRAL_8X7B_OUTPUT_COST self;
    Settings.GROQ_GEMMA_7B_INPUT_COST self; Settings.GROQ_GEMMA_7B_OUTPUT_COST self;
    Settings.GROQ_GEMMA2_9B_INPUT_COST self; Settings.GROQ_GEMMA2_9B_OUTPUT_COST self ].

End FloatRange.

(** ** redis_service.py: values and request counters *)

Module RedisValues.

(** SET key value: an earlier time to live is discarded. *)
Definition set (key value : string) (c : Redis.client) : outcome bool * Redis.client :=
  let '(f, c) := Redis.next_fault c in
  if f then (Raised ConnectionError, c)
  else
    (Value true,
     Redis.Client (<[key := Redis.Entry value None]> (Redis.data c)) (Redis.faults c)).

(** The last millisecond the server counts. *)
Definition LLONG_MAX : Z := 2 ^ 63 - 1.

(** SETEX key seconds value, with the clock of the server at [clock]
    milliseconds. The time to live is an error reply when it is not
    positive, when it is more than [LLONG_MAX / 1000] seconds (which
    is where the numbers of 2^63 and more end up as well), and when it
    ends after the last millisecond the server counts. *)
Definition setex (key : string) (seconds : Z) (value : string) (clock : Z)
    (c : Redis.client) : outcome bool * Redis.client :=
  let '(f, c) := Redis.next_fault c in
  if f then (Raised ConnectionError, c)
  else if (seconds <=? 0) || (LLONG_MAX / 1000 <? seconds)
          || (LLONG_MAX <? seconds * 1000 + clock)
  then (Raised ResponseError, c)
  else
    (Value true,
     Redis.Client (<[key := Redis.Entry value (Some seconds)]> (Redis.data c))
                  (Redis.faults c)).

(** Set a value with optional TTL. The method awaits one command, so
    it is one step of the event loop; [redis] is [self.redis], and
    [clock] is the clock of the server when the command arrives. *)
Definition set_value (redis : option Redis.client) (key value : string)
    (ttl : option Z) (clock : Z) : outcome unit * option Redis.client :=
  match redis with
  | None => (Value tt, None)
  | Some c =>
      let '(r, c') :=
        match ttl with
        | Some t => if t =? 0 then set key value c else setex key t value clock c
        | None => set key value c
        end in
      match r with
      | Value _ => (Value tt, Some c')
      | Raised _ => (* logged *) (Value tt, Some c')
      end
  end.

Section Service.

Variable connected : bool.

(** Get a value. *)
Definition get_value (key : string) : co (option string) :=
  if negb connected then Done None
  else try_except (await_get key) (Done None).

(** Increment real-time request counters. *)
Definition increment_request_counter (user_id model status : string)
    (now : datetime) : co unit :=
  if negb connected then Done tt
  else
    try_except
      (let today := RedisService.strftime_day now in
       (* Global counters *)
       RedisService.increment_counter connected
         ("requests:total:" +:+ today) (Some (86400 * 7)) ;;
       RedisService.increment_counter connected
         ("requests:status:" +:+ status +:+ ":" +:+ today) (Some (86400 * 7)) ;;
       (* User counters *)
       RedisService.increment_counter connected
         ("requests:user:" +:+ user_id +:+ ":" +:+ today) (Some (86400 * 7)) ;;
       (* Model counters *)
       RedisService.increment_counter connected
         ("requests:model:" +:+ model +:+ ":" +:+ today) (Some (86400 * 7)) ;;
       Done tt)
      (Done tt).

End Service.

(** The time to live of a key, if the key is there. *)
Definition ttl_of (c : Redis.client) (key : string) : option (option Z) :=
  Redis.e_ttl <$> Redis.data c !! key.

(** The commands of a coroutine write no key outside [keys]. *)
Inductive writes_within (keys : list string) {A : Type} : co A -> Prop :=
| ww_done a : writes_within keys (Done a)
| ww_throw e : writes_within keys (Throw e)
| ww_get key k :
    (forall r, writes_within keys (k r)) -> writes_within keys (Get key k)
| ww_incr key k :
    In key keys -> (forall r, writes_within keys (k r)) ->
    writes_within keys (Incr key k)
| ww_expire key seconds k :
    In key keys -> (forall r, writes_within keys (k r)) ->
    writes_within keys (Expire key seconds k).

(** [c'] differs from [c] at most at [keys]. *)
Definition same_outside (keys : list string) (c c' : Redis.client) : Prop :=
  forall k, ~ In k keys -> Redis.data c' !! k = Redis.data c !! k.

(** No [:] in a string. *)
Definition no_colon (s : string) : bool :=
  forallb (fun ch => negb (Ascii.eqb ch ":")) (list_ascii_of_string s).

End RedisValues.

Module RequestLog.
Import RedisValues.

(** A counted request: user, model, status and the time of the call. *)
Record request := {
  r_user : string;
  r_model : string;
  r_status : string;
  r_time : datetime
}.

(** [increment_request_counter] called once for each request. *)
Definition counted (reqs : list request) : list (bool -> co unit) :=
  map (fun r connected =>
         increment_request_counter connected (r_user r) (r_model r) (r_status r)
           (r_time r)) reqs.

(** The keys of the counters of the day [today] ([%Y%m%d]). *)
Definition total_key (today : string) : string := "requests:total:" +:+ today.
Definition status_key (status today : string) : string :=
  "requests:status:" +:+ status +:+ ":" +:+ today.
Definition user_key (user_id today : string) : string :=
  "requests:user:" +:+ user_id +:+ ":" +:+ today.
Definition model_key (model today : string) : string :=
  "requests:model:" +:+ model +:+ ":" +:+ today.

(** The requests with a given status. *)
Definition with_status (status : string) (reqs : list request) : Z :=
  Z.of_nat (length (List.filter (fun r => String.eqb (r_status r) status) reqs)).

End RequestLog.

(** ** redis_service.py: the dashboard cache *)

Module DashboardCache.
Import RedisValues.

Section Json.

(** The dashboard data and its JSON form: [json.dumps] and
    [json.loads], each of which may raise. *)
Variable dashboard : Type.
Variable dumps : dashboard -> outcome string.
Variable loads : string -> outcome dashboard.

(** Cache dashboard data. *)
Definition cache_dashboard_data (redis : option Redis.client) (data : dashboard)
    (ttl : Z) (clock : Z) : outcome unit * option Redis.client :=
  match redis with
  | None => (Value tt, None)
  | Some c =>
      match dumps data with
      | Value text => set_value (Some c) "dashboard:data" text (Some ttl) clock
      | Raised _ => (* logged *) (Value tt, Some c)
      end
  end.

(** Get cached dashboard data. *)
Definition get_cached_dashboard_data (redis : option Redis.client)
  : outcome (option dashboard) * option Redis.client :=
  match redis with
  | None => (Value None, None)
  | Some c =>
      let '(r, redis') :=
        Service.call (fun connected => get_value connected "dashboard:data") (Some c) in
      match r with
      | Value (Some text) =>
          if str_truthy text then
            match loads text with
            | Value data => (Value (Some data), redis')
            | Raised _ => (* logged *) (Value None, redis')
            end
          else (Value None, redis')
      | Value None => (Value None, redis')
      | Raised _ => (Value None, redis')
      end
  end.

End Json.

End DashboardCache.

(** ** middleware/observability.py: [RateLimitMiddleware] *)

Module Middleware.

(** The headers of a request or of a response, by their names in lower
    case, as Starlette looks them up. *)
Definition headers := gmap string string.

Record Request := {
  path : string;            (* [request.url.path] *)
  req_headers : headers
}.

Record Response := {
  content : string;
  status_code : Z;
  resp_headers : headers
}.

(** [headers.get(name, default)] *)
Definition headers_get (name default : string) (hs : headers) : string :=
  match hs !! lower name with
  | Some value => value
  | None => default
  end.

(** [headers[name] = value], for each pair in turn. *)
Definition headers_set (pairs : list (string * string)) (hs : headers) : headers :=
  fold_left (fun hs p => <[lower (fst p) := snd p]> hs) pairs hs.

(** The four rate limit headers of a response. *)
Definition rate_limit_headers (minute_count hour_count : Z) : list (string * string) :=
  [ ("X-RateLimit-Limit-Minute", str_of_int 60);
    ("X-RateLimit-Limit-Hour", str_of_int 1000);
    ("X-RateLimit-Remaining-Minute", str_of_int (Z.max 0 (60 - minute_count)));
    ("X-RateLimit-Remaining-Hour", str_of_int (Z.max 0 (1000 - hour_count))) ].

(** [Response(content="Rate limit exceeded", status_code=429,
    headers={...})], with the headers it is given; those the framework
    adds on its own are left out. *)
Definition rate_limit_exceeded (minute_count hour_count : Z) : Response :=
  {| content := "Rate limit exceeded";
     status_code := 429;
     resp_headers := headers_set (rate_limit_headers minute_count hour_count) ∅ |}.

(** The response of the application with the rate limit headers set. *)
Definition with_rate_limit_headers (minute_count hour_count : Z)
    (response : Response) : Response :=
  {| content := content response;
     status_code := status_code response;
     resp_headers :=
       headers_set (rate_limit_headers minute_count hour_count)
         (resp_headers response) |}.

Section Dispatch.

Variable settings : Settings.t.
Variable connected : bool.

(** The rest of the application, which here does not use the counter
    store: it answers or raises. *)
Variable call_next : Request -> outcome Response.

(** Check rate limits before processing request. *)
Definition dispatch (request : Request) (now : datetime) : co Response :=
  (* Skip rate limiting for certain paths *)
  if existsb (String.eqb (path request)) ["/health"; "/docs"; "/openapi.json"] then
    of_outcome (call_next request)
  else
    let user_id := headers_get "X-User-ID" "anonymous" (req_headers request) in
    let endpoint := path request in
    (* Check rate limit *)
    reply ← RedisService.check_rate_limit settings connected user_id endpoint
              None None now;
    let '(allowed, minute_count, hour_count) := reply in
    if negb allowed then Done (rate_limit_exceeded minute_count hour_count)
    else
      (* Add rate limit headers *)
      response ← of_outcome (call_next request);
      Done (with_rate_limit_headers minute_count hour_count response).

End Dispatch.

(** The same request sent once at each of the times [nows]. *)
Definition dispatches (settings : Settings.t) (call_next : Request -> outcome Response)
    (request : Request) (nows : list datetime) : list (bool -> co Response) :=
  map (fun now connected => dispatch settings connected call_next request now) nows.

(** What the middleware answers to a reply of the limiter. *)
Definition answer (call_next : Request -> outcome Response) (request : Request)
    (reply : outcome (bool * Z * Z)) : outcome Response :=
  match reply with
  | Value (true, minute_count, hour_count) =>
      match call_next request with
      | Value response => Value (with_rate_limit_headers minute_count hour_count response)
      | Raised e => Raised e
      end
  | Value (false, minute_count, hour_count) =>
      Value (rate_limit_exceeded minute_count hour_count)
  | Raised e => Raised e
  end.

End Middleware.

(** ** routers/metrics.py: the query of [get_recent_requests] *)

Module MetricsRouter.

(** A value bound to a placeholder of a query. *)
Inductive param :=
| PStr (s : string)
| PInt (n : Z).

(** Truth value of an [Optional[str]]. *)
Definition given (x : option string) : bool :=
  match x with
  | Some s => str_truthy s
  | None => false
  end.

Definition newline : string := String (ascii_of_nat 10) EmptyString.

(** The twelve spaces before each line of the query. *)
Definition margin : string := "            ".

(** Build query with filters: the text of the query and the values for
    its placeholders, as they are passed to [db_pool.fetch]. *)
Definition recent_requests_query (limit : Z) (status model : option string)
  : string * list param :=
  let conditions := ["1=1"] in
  let params := [] in
  let param_count := 0 in
  let '(param_count, conditions, params) :=
    match status with
    | Some s =>
        if str_truthy s then
          (param_count + 1,
           conditions ++ ["status = $" +:+ str_of_int (param_count + 1)],
           params ++ [PStr s])
        else (param_count, conditions, params)
    | None => (param_count, conditions, params)
    end in
  let '(param_count, conditions, params) :=
    match model with
    | Some m =>
        if str_truthy m then
          (param_count + 1,
           conditions ++ ["model = $" +:+ str_of_int (param_count + 1)],
           params ++ [PStr m])
        else (param_count, conditions, params)
    | None => (param_count, conditions, params)
    end in
  let param_count := param_count + 1 in
  let params := params ++ [PInt limit] in
  let query :=
    newline +:+ margin +:+ "SELECT * FROM v_recent_requests" +:+
    newline +:+ margin +:+ "WHERE " +:+ String.concat " AND " conditions +:+
    newline +:+ margin +:+ "ORDER BY timestamp DESC" +:+
    newline +:+ margin +:+ "LIMIT $" +:+ str_of_int param_count +:+
    newline +:+ "        " in
  (query, params).

(** The number written by the digits at the start of [s], if there is
    one. *)
Fixpoint leading_number (acc : option Z) (s : string) : option Z :=
  match s with
  | EmptyString => acc
  | String c r =>
      if is_digit c then
        leading_number
          (Some (10 * default 0 acc + Z.of_nat (nat_of_ascii c - 48))) r
      else acc
  end.

(** The placeholders [$n] of a query, in the order of the text. *)
Fixpoint placeholders (query : string) : list Z :=
  match query with
  | EmptyString => []
  | String c r =>
      if Ascii.eqb c "$" then
        match leading_number None r with
        | Some n => n :: placeholders r
        | None => placeholders r
        end
      else placeholders r
  end.

End MetricsRouter.

(** ** Vocabulary for the runs of the metrics service *)

Module Pipeline.
Import Schemas MetricsService.

(** The batch of a flush, by what started it. *)
Definition batch_fits (settings : Settings.t) (tr : trigger)
    (b : list MetricsCreate) : Prop :=
  match tr with
  | ByCount => Z.of_nat (length b) = Settings.METRICS_BATCH_SIZE settings
  | ByTime | AtExit =>
      1 <= Z.of_nat (length b) < Settings.METRICS_BATCH_SIZE settings
  | AtStop => 1 <= Z.of_nat (length b)
  end.

(** Events of a sink that writes every batch. *)
Definition sink_healthy (e : event) : bool :=
  match e with
  | FlushEnds (Some _) => false
  | _ => true
  end.

(** The metrics of the calls of [log_metric] in a run. *)
Definition logged (es : list event) : list MetricsCreate :=
  flat_map (fun e => match e with LogMetric metric => [metric] | _ => [] end) es.

(** The steps the worker still takes, at most, once [running] is
    false. *)
Definition worker_rank (w : worker_point) : nat :=
  match w with
  | Finished | Failed => 0
  | FlushingFinal | FlushingCount | Created => 1
  | Waiting _ | Sleeping _ => 2
  | FlushingTime => 3
  end.

(** The steps of the worker and of [stop] until [stop] returns, at
    most. *)
Definition stop_rank (s : system) : nat :=
  match stop_at s with
  | AwaitWorker => 2 + worker_rank (worker_at s)
  | StopFlushing => 1
  | _ => 0
  end.

(** The events of the worker and of [stop] in a run. *)
Definition own_steps (es : list event) : nat :=
  length (List.filter (fun e => negb (bystander e)) es).

(** The queue is within its capacity. *)
Definition queue_within (settings : Settings.t) (s : system) : Prop :=
  AsyncQueue.maxsize (metrics_queue s) = Settings.METRICS_QUEUE_SIZE settings
  /\ (0 < Settings.METRICS_QUEUE_SIZE settings ->
      AsyncQueue.qsize (metrics_queue s) <= Settings.METRICS_QUEUE_SIZE settings).

(** Every batch flushed, being flushed or held by the worker has the
    size its trigger allows. *)
Definition batches_fit (settings : Settings.t) (s : system) : Prop :=
  Forall (fun a => batch_fits settings (a_trigger a) (a_batch a)) (attempts (hist s))
  /\ (forall f, in_flight s = Some f -> batch_fits settings (f_trigger f) (f_batch f))
  /\ match worker_at s with
     | FlushingCount =>
         Z.of_nat (length (batch s)) = Settings.METRICS_BATCH_SIZE settings
     | _ => Z.of_nat (length (batch s)) < Settings.METRICS_BATCH_SIZE settings
     end.

(** The rows of the table are the batches of the flushes that went
    through. *)
Definition table_of_flushes (s : system) : Prop :=
  llm_metrics s = concat (map a_batch (List.filter a_ok (attempts (hist s)))).

End Pipeline.

(** ** Runs and requests of the examples *)

Module Examples.
Import Schemas MetricsService Scenario Middleware RequestLog.

(** The write of A and B fails at its second row, the one of C and D
    goes through, and E waits in the batch of the worker. *)
Definition failing_sink_run : list event :=
  [WorkerStarts; LogMetric (metric "A"); LogMetric (metric "B");
   GetReturns; GetReturns; FlushEnds (Some (ExecuteFails 1));
   LogMetric (metric "C"); LogMetric (metric "D");
   GetReturns; GetReturns; FlushEnds None;
   LogMetric (metric "E"); GetReturns].

(** [stop] is called while the worker waits with A in its batch. *)
Definition stop_called_run : list event :=
  [WorkerStarts; LogMetric (metric "A"); GetReturns; Tick second; Stop].

(** Two metrics logged after the shutdown. *)
Definition late_logs : list event :=
  [LogMetric (metric "F"); Tick second; LogMetric (metric "G")].

(** A ceiling of two requests in a minute. *)
Definition tight_limits : Settings.t :=
  {| Settings.RATE_LIMIT_PER_MINUTE := 2;
     Settings.RATE_LIMIT_PER_HOUR := 1000;
     Settings.METRICS_QUEUE_SIZE := 1000;
     Settings.METRICS_BATCH_SIZE := 10;
     Settings.METRICS_FLUSH_INTERVAL := 5 |}.

Definition chat_request : Request :=
  {| path := "/v1/chat"; req_headers := {[ "x-user-id" := "user-1" ]} |}.

Definition ok_response : Response :=
  {| content := "ok"; status_code := 200;
     resp_headers := {[ "content-type" := "text/plain" ]} |}.

(** An application that answers 200 to every request. *)
Definition ok_application (request : Request) : outcome Response :=
  Value ok_response.

(** An application that raises. *)
Definition failing_application (request : Request) : outcome Response :=
  Raised ValueError.

(** The hour counter of user-1 on /v1/chat stands at 999, one below the
    default ceiling; the minute 09:05 has seen no call. *)
Definition hour_nearly_spent : Redis.client :=
  Redis.Client
    {[ "rate_limit:user-1:/v1/chat:hour:2024030709" := Redis.Entry "999" (Some 3600) ]}
    [].

(** The clock of the server at 09:05 on 7 March 2024, in milliseconds. *)
Definition server_clock : Z := 1709802300000.

(** A store that holds the cached dashboard and nothing else. *)
Definition cache_only : Redis.client :=
  Redis.Client {[ "dashboard:data" := Redis.Entry "{}" (Some 30) ]} [].

(** Three requests of one day: two went well, one did not. *)
Definition day_requests : list request :=
  [ {| r_user := "user-1"; r_model := "llama3-8b-8192"; r_status := "success";
       r_time := Datetime 2024 3 7 9 5 1 0 |};
    {| r_user := "user-2"; r_model := "mixtral-8x7b-32768"; r_status := "error";
       r_time := Datetime 2024 3 7 11 40 0 0 |};
    {| r_user := "user-1"; r_model := "llama3-8b-8192"; r_status := "success";
       r_time := Datetime 2024 3 7 23 59 59 0 |} ].

(** A dashboard of one flag, and its JSON form. *)
Definition flag_dumps (data : bool) : outcome string :=
  Value (if data then "true" else "false").

Definition flag_loads (text : string) : outcome bool :=
  if String.eqb text "true" then Value true
  else if String.eqb text "false" then Value false
  else Raised ValueError.

End Examples.

(** * Properties *)

(** ** Printing and reading integers *)

Module PyFacts.

Lemma digit_char c :
  is_digit c = true ->
  is_space c = false /\ Ascii.eqb c "_" = false
  /\ Ascii.eqb c "-" = false /\ Ascii.eqb c "+" = false.
Proof.
  destruct c as [[] [] [] [] [] [] [] []]; cbv; intros H;
    try discriminate H; repeat split.
Qed.

Lemma all_digits_cons c s :
  all_digits (String c s) = is_digit c && all_digits s.
Proof. reflexivity. Qed.

Lemma printed_digits d : all_digits (NilEmpty.string_of_uint d) = true.
Proof. induction d; simpl; auto. Qed.

Lemma lstrip_digits s : all_digits s = true -> lstrip s = s.
Proof.
  destruct s as [|c s]; [reflexivity|].
  rewrite all_digits_cons. intros [Hc _]%andb_true_iff.
  apply digit_char in Hc as (Hs & _). simpl. now rewrite Hs.
Qed.

Lemma rstrip_digits s : all_digits s = true -> rstrip s = s.
Proof.
  induction s as [|c s IH]; [reflexivity|].
  rewrite all_digits_cons. intros [Hc Hs]%andb_true_iff.
  apply digit_char in Hc as (Hsp & _).
  simpl. rewrite (IH Hs), Hsp. now destruct s.
Qed.

Lemma drop_underscores_digits s b :
  all_digits s = true -> (s <> EmptyString \/ b = true) ->
  drop_underscores b s = Some s.
Proof.
  revert b. induction s as [|c s IH]; intros b Hd Hne.
  - destruct Hne as [Hne | ->]; [congruence | reflexivity].
  - rewrite all_digits_cons in Hd. apply andb_true_iff in Hd as [Hc Hs].
    apply digit_char in Hc as (_ & Hu & _).
    simpl. rewrite Hu, (IH true Hs); auto.
Qed.

Lemma string_of_uint_nonnil d :
  d <> Decimal.Nil -> NilEmpty.string_of_uint d <> EmptyString.
Proof. destruct d; simpl; congruence. Qed.

Lemma head_digit_no_sign c s :
  is_digit c = true ->
  match String c s with
  | String "-" r => (true, r)
  | String "+" r => (false, r)
  | _ => (false, String c s)
  end = (false, String c s).
Proof.
  intros Hc. destruct c as [[] [] [] [] [] [] [] []]; try reflexivity;
    cbv in Hc; discriminate Hc.
Qed.

(** Reading the digits that print a number gives the number back. *)
Lemma int_of_str_digits d :
  d <> Decimal.Nil ->
  int_of_str (NilEmpty.string_of_uint d) = Some (Z.of_uint d)
  /\ int_of_str (String "-" (NilEmpty.string_of_uint d)) = Some (- Z.of_uint d).
Proof.
  intros Hd.
  pose proof (printed_digits d) as Hdig.
  pose proof (string_of_uint_nonnil d Hd) as Hne.
  unfold int_of_str. split.
  - rewrite (lstrip_digits _ Hdig), (rstrip_digits _ Hdig).
    destruct (NilEmpty.string_of_uint d) as [|c s] eqn:E; [congruence|].
    rewrite all_digits_cons in Hdig.
    apply andb_true_iff in Hdig as [Hc Hs].
    rewrite (head_digit_no_sign c s Hc).
    rewrite drop_underscores_digits;
      [| rewrite all_digits_cons, Hc, Hs; reflexivity | left; congruence].
    rewrite all_digits_cons, Hc, Hs. simpl andb. cbv iota.
    rewrite <- E, NilEmpty.usu. reflexivity.
  - change (lstrip (String "-" (NilEmpty.string_of_uint d)))
      with (String "-" (NilEmpty.string_of_uint d)).
    assert (rstrip (String "-" (NilEmpty.string_of_uint d))
            = String "-" (NilEmpty.string_of_uint d)) as ->.
    { simpl. rewrite (rstrip_digits _ Hdig).
      destruct (NilEmpty.string_of_uint d); [congruence | reflexivity]. }
    rewrite drop_underscores_digits; auto.
    rewrite Hdig, NilEmpty.usu. reflexivity.
Qed.

Lemma int_of_str_of_int z : int_of_str (str_of_int z) = Some z.
Proof.
  unfold str_of_int. destruct z as [|p|p]; [reflexivity | |].
  - simpl Z.to_int. simpl NilZero.string_of_int.
    pose proof (Unsigned.to_uint_nonnil p) as Hn.
    unfold NilZero.string_of_uint.
    destruct (Pos.to_uint p) eqn:E; try congruence;
      rewrite <- E; (destruct (int_of_str_digits (Pos.to_uint p)) as [-> _];
        [congruence |]); unfold Z.of_uint;
      now rewrite DecimalPos.Unsigned.of_to.
  - simpl Z.to_int. simpl NilZero.string_of_int.
    pose proof (Unsigned.to_uint_nonnil p) as Hn.
    unfold NilZero.string_of_uint.
    destruct (Pos.to_uint p) eqn:E; try congruence;
      rewrite <- E; (destruct (int_of_str_digits (Pos.to_uint p)) as [_ ->];
        [congruence |]); unfold Z.of_uint;
      now rewrite DecimalPos.Unsigned.of_to.
Qed.

Lemma str_of_int_truthy z : str_truthy (str_of_int z) = true.
Proof.
  unfold str_of_int. destruct z as [|p|p]; [reflexivity | |];
    simpl; [| reflexivity].
  pose proof (Unsigned.to_uint_nonnil p) as Hn.
  unfold NilZero.string_of_uint.
  destruct (Pos.to_uint p); simpl; congruence.
Qed.

Lemma int64_of_string_of_int z :
  - 2 ^ 63 <= z <= 2 ^ 63 - 1 ->
  Redis.int64_of_string (str_of_int z) = Some z.
Proof.
  intros Hz. unfold Redis.int64_of_string.
  assert (NilZero.int_of_string (str_of_int z) = Some (Z.to_int z)) as ->.
  { unfold str_of_int. apply NilZero.isi.
    - destruct z; simpl; try discriminate.
      intros [=E]. now apply (Unsigned.to_uint_nonnil p).
    - destruct z; simpl; try discriminate.
      intros [=E]. now apply (Unsigned.to_uint_nonnil p). }
  rewrite DecimalZ.of_to, String.eqb_refl.
  destruct (Z.leb_spec (- 2 ^ 63) z); [| lia].
  destruct (Z.leb_spec z (2 ^ 63 - 1)); [| lia].
  reflexivity.
Qed.

End PyFacts.

(** ** The rate limiter and the counters *)

Module RedisFacts.

Import RedisService Scenario.

Lemma run_bind {A B} (m : co A) (f : A -> co B) c :
  run (bind m f) c =
  let '(r, c') := run m c in
  match r with
  | Value a => run (f a) c'
  | Raised e => (Raised e, c')
  end.
Proof.
  revert c.
  induction m as [a | e | key k IH | key k IH | key s k IH]; intros c; simpl.
  - reflexivity.
  - reflexivity.
  - destruct (Redis.get key c) as [r c']. apply IH.
  - destruct (Redis.incr key c) as [r c']. apply IH.
  - destruct (Redis.expire key s c) as [r c']. apply IH.
Qed.

Lemma run_try_except {A} (body handler : co A) c :
  run (try_except body handler) c =
  let '(r, c') := run body c in
  match r with
  | Value a => (Value a, c')
  | Raised _ => run handler c'
  end.
Proof.
  revert c.
  induction body as [a | e | key k IH | key k IH | key s k IH]; intros c; simpl.
  - reflexivity.
  - reflexivity.
  - destruct (Redis.get key c) as [r c']. apply IH.
  - destruct (Redis.incr key c) as [r c']. apply IH.
  - destruct (Redis.expire key s c) as [r c']. apply IH.
Qed.

Ltac co_simpl :=
  cbn [run bind try_except of_outcome await_get await_incr await_expire
       mbind co_bind negb fst snd].

Lemma next_fault_none c : Redis.faults c = [] -> Redis.next_fault c = (false, c).
Proof. unfold Redis.next_fault. now intros ->. Qed.

Lemma get_counter_reads c key n :
  Redis.faults c = [] -> Redis.counter_at c key n ->
  run (get_counter true key) c = (Value n, c).
Proof.
  intros Hf Hn. unfold get_counter. co_simpl.
  unfold Redis.get. rewrite (next_fault_none c Hf).
  unfold Redis.counter_at in Hn.
  destruct (Redis.data c !! key) as [e|]; cbn [fmap option_fmap option_map]; co_simpl.
  - rewrite Hn, PyFacts.str_of_int_truthy, PyFacts.int_of_str_of_int. reflexivity.
  - now subst n.
Qed.

Lemma incr_no_fault c key :
  Redis.faults c = [] ->
  Redis.incr key c =
  match Redis.data c !! key with
  | None =>
      (Value 1,
       Redis.Client (<[key := Redis.Entry (str_of_int 1) None]> (Redis.data c)) [])
  | Some e =>
      match Redis.int64_of_string (Redis.e_val e) with
      | Some z =>
          if z <? 2 ^ 63 - 1 then
            (Value (z + 1),
             Redis.Client
               (<[key := Redis.Entry (str_of_int (z + 1)) (Redis.e_ttl e)]> (Redis.data c)) [])
          else (Raised ResponseError, c)
      | None => (Raised ResponseError, c)
      end
  end.
Proof.
  intros Hf. unfold Redis.incr. rewrite (next_fault_none c Hf), Hf. reflexivity.
Qed.

Lemma expire_present data key e t :
  0 < t ->
  Redis.expire key t (Redis.Client (<[key := e]> data) []) =
  (Value true,
   Redis.Client (<[key := Redis.Entry (Redis.e_val e) (Some t)]> data) []).
Proof.
  intros Ht. unfold Redis.expire, Redis.next_fault.
  cbn [Redis.faults Redis.data]. rewrite lookup_insert_eq.
  destruct (Z.leb_spec t 0); [lia|]. now rewrite insert_insert_eq.
Qed.

Lemma increment_counter_adds c key n t :
  Redis.faults c = [] -> Redis.counter_at c key n ->
  - 2 ^ 63 <= n < 2 ^ 63 - 1 -> 0 < t ->
  run (increment_counter true key (Some t)) c =
  (Value (n + 1),
   Redis.Client (<[key := Redis.Entry (str_of_int (n + 1)) (Some t)]> (Redis.data c)) []).
Proof.
  intros Hf Hn Hr Ht. unfold increment_counter. co_simpl.
  rewrite (incr_no_fault c key Hf).
  unfold Redis.counter_at in Hn.
  destruct (Z.eqb_spec t 0) as [->|_]; [lia|].
  destruct (Redis.data c !! key) as [e|] eqn:E.
  - rewrite Hn, PyFacts.int64_of_string_of_int by lia.
    destruct (Z.ltb_spec n (2 ^ 63 - 1)); [| lia].
    co_simpl. rewrite expire_present by lia. reflexivity.
  - subst n. co_simpl. rewrite expire_present by lia. reflexivity.
Qed.

Lemma append_inj_l (a b c : string) : a +:+ b = a +:+ c -> b = c.
Proof. induction a as [|x a IH]; simpl; [auto | intros [=H]; auto]. Qed.

Lemma keys_differ user_id endpoint now :
  minute_key user_id endpoint now <> hour_key user_id endpoint now.
Proof.
  unfold minute_key, hour_key. intros H.
  do 4 apply append_inj_l in H. discriminate H.
Qed.

Lemma same_minute_keys user_id endpoint a b :
  same_minute a b ->
  minute_key user_id endpoint b = minute_key user_id endpoint a
  /\ hour_key user_id endpoint b = hour_key user_id endpoint a.
Proof.
  destruct a, b. unfold same_minute. cbn [year month day hour minute].
  intros (-> & -> & -> & -> & ->). split; reflexivity.
Qed.

Section OneCall.

Variable settings : Settings.t.
Variables user_id endpoint : string.
Variables limit_per_minute limit_per_hour : option Z.
Variable now : datetime.

Let N := int_or limit_per_minute (Settings.RATE_LIMIT_PER_MINUTE settings).
Let H := int_or limit_per_hour (Settings.RATE_LIMIT_PER_HOUR settings).
Let mk := minute_key user_id endpoint now.
Let hk := hour_key user_id endpoint now.

Lemma check_rate_limit_rejects c m h :
  Redis.faults c = [] -> Redis.counter_at c mk m -> Redis.counter_at c hk h ->
  N <= m \/ H <= h ->
  run (check_rate_limit settings true user_id endpoint
         limit_per_minute limit_per_hour now) c
  = (Value (false, m, h), c).
Proof.
  intros Hf Hm Hh Hlim. subst mk hk. unfold check_rate_limit. co_simpl.
  unfold mbind, co_bind.
  rewrite run_try_except, run_bind, (get_counter_reads c _ m Hf Hm).
  rewrite run_bind, (get_counter_reads c _ h Hf Hh).
  fold N H.
  assert ((N <=? m) || (H <=? h) = true) as ->.
  { apply orb_true_iff. destruct Hlim; [left | right]; now apply Z.leb_le. }
  reflexivity.
Qed.

Lemma check_rate_limit_admits c m h :
  Redis.faults c = [] -> Redis.counter_at c mk m -> Redis.counter_at c hk h ->
  m < N -> h < H ->
  - 2 ^ 63 <= m < 2 ^ 63 - 1 -> - 2 ^ 63 <= h < 2 ^ 63 - 1 ->
  run (check_rate_limit settings true user_id endpoint
         limit_per_minute limit_per_hour now) c
  = (Value (true, m + 1, h + 1),
     Redis.Client
       (<[hk := Redis.Entry (str_of_int (h + 1)) (Some 3600)]>
          (<[mk := Redis.Entry (str_of_int (m + 1)) (Some 60)]> (Redis.data c)))
       []).
Proof.
  intros Hf Hm Hh HmN HhH Rm Rh. subst mk hk. unfold check_rate_limit. co_simpl.
  unfold mbind, co_bind.
  rewrite run_try_except, run_bind, (get_counter_reads c _ m Hf Hm).
  rewrite run_bind, (get_counter_reads c _ h Hf Hh).
  fold N H.
  assert ((N <=? m) || (H <=? h) = false) as ->.
  { apply orb_false_iff. split; apply Z.leb_gt; lia. }
  rewrite run_bind, (increment_counter_adds c _ m 60 Hf Hm Rm) by lia.
  rewrite run_bind.
  rewrite (increment_counter_adds _ _ h 3600); [reflexivity | reflexivity | | lia | lia].
  unfold Redis.counter_at. cbn [Redis.data].
  rewrite lookup_insert_ne by apply keys_differ. exact Hh.
Qed.

End OneCall.

Section Sequential.

Variable settings : Settings.t.
Variables user_id endpoint : string.
Variables limit_per_minute limit_per_hour : option Z.
Variable t0 : datetime.
Variable h0 : Z.

Let N := int_or limit_per_minute (Settings.RATE_LIMIT_PER_MINUTE settings).
Let H := int_or limit_per_hour (Settings.RATE_LIMIT_PER_HOUR settings).
Let mk := minute_key user_id endpoint t0.
Let hk := hour_key user_id endpoint t0.
Let calls_at nows :=
  Service.calls
    (Service.limiter_calls settings user_id endpoint
       limit_per_minute limit_per_hour nows).

Hypothesis h0_nonneg : 0 <= h0.
Hypothesis hour_room : h0 + N <= H.
Hypothesis H_small : H < 2 ^ 63.

Lemma calls_from nows c m :
  Forall (same_minute t0) nows ->
  Redis.faults c = [] ->
  Redis.counter_at c mk m -> Redis.counter_at c hk (h0 + m) ->
  0 <= m <= N ->
  exists c',
    calls_at nows (Some c) =
      (map (fun i : nat => Service.kth_reply N h0 (m + Z.of_nat i))
           (seq 1 (length nows)), Some c')
    /\ Redis.faults c' = []
    /\ Redis.counter_at c' mk (Z.min (m + Z.of_nat (length nows)) N)
    /\ Redis.counter_at c' hk (h0 + Z.min (m + Z.of_nat (length nows)) N)
    /\ (m = N -> c' = c).
Proof.
  revert c m. induction nows as [|now rest IH]; intros c m Hall Hf Hm Hh Hr.
  - exists c. cbn [length Z.of_nat]. rewrite Z.add_0_r, Z.min_l by lia.
    repeat split; auto.
  - inversion Hall as [|? ? Hnow Hrest]; subst.
    destruct (same_minute_keys user_id endpoint t0 now Hnow) as [Ek Eh].
    unfold calls_at, Service.limiter_calls. cbn [map Service.calls Service.call].
    destruct (Z.eq_dec m N) as [->|Hne].
    + rewrite (check_rate_limit_rejects settings user_id endpoint
                 limit_per_minute limit_per_hour now c N (h0 + N));
        [| assumption | rewrite Ek; exact Hm | rewrite Eh; exact Hh
         | left; reflexivity].
      destruct (IH c N Hrest Hf Hm Hh Hr) as (c' & Ec & Hf' & Hm' & Hh' & Hsame).
      unfold calls_at, Service.limiter_calls in Ec. rewrite Ec.
      exists c'. split; [| split; [| split; [| split]]]; auto.
      * cbn [length seq map]. f_equal. f_equal.
        -- unfold Service.kth_reply. change (Z.of_nat 1) with 1. f_equal.
           destruct (Z.leb_spec (N + 1) N); [lia|].
           rewrite Z.min_r by lia. reflexivity.
        -- rewrite <- (seq_shift (length rest) 1), map_map.
           apply map_ext_in. intros i Hi%in_seq. unfold Service.kth_reply.
           destruct (Z.leb_spec (N + Z.of_nat (S i)) N); [lia|].
           destruct (Z.leb_spec (N + Z.of_nat i) N); [lia|].
           rewrite !Z.min_r by lia. reflexivity.
      * rewrite Z.min_r in Hm' by lia. rewrite Z.min_r by lia. exact Hm'.
      * rewrite Z.min_r in Hh' by lia. rewrite Z.min_r by lia. exact Hh'.
    + rewrite (check_rate_limit_admits settings user_id endpoint
                 limit_per_minute limit_per_hour now c m (h0 + m));
        [| assumption | rewrite Ek; exact Hm | rewrite Eh; exact Hh
         | fold N; lia | fold H; lia | lia | lia].
      rewrite Ek, Eh. fold mk hk.
      set (c1 := Redis.Client _ []).
      assert (Redis.counter_at c1 mk (m + 1)) as Hm1.
      { unfold Redis.counter_at, c1. cbn [Redis.data].
        rewrite lookup_insert_ne by (intros E; symmetry in E; revert E; apply keys_differ).
        rewrite lookup_insert_eq. reflexivity. }
      assert (Redis.counter_at c1 hk (h0 + (m + 1))) as Hh1.
      { unfold Redis.counter_at, c1. cbn [Redis.data].
        rewrite lookup_insert_eq. cbn [Redis.e_val]. f_equal. lia. }
      destruct (IH c1 (m + 1) Hrest eq_refl Hm1 Hh1 ltac:(lia))
        as (c' & Ec & Hf' & Hm' & Hh' & _).
      unfold calls_at, Service.limiter_calls in Ec. rewrite Ec.
      exists c'. split; [| split; [| split; [| split]]]; auto.
      * cbn [length seq map]. f_equal. f_equal.
        -- unfold Service.kth_reply. change (Z.of_nat 1) with 1. f_equal.
           destruct (Z.leb_spec (m + 1) N); [| lia].
           rewrite Z.min_l by lia. f_equal. lia.
        -- rewrite <- (seq_shift (length rest) 1), map_map. apply map_ext. intros i.
           f_equal. lia.
      * replace (m + Z.of_nat (length (now :: rest)))
          with (m + 1 + Z.of_nat (length rest)) by (cbn [length]; lia).
        exact Hm'.
      * replace (m + Z.of_nat (length (now :: rest)))
          with (m + 1 + Z.of_nat (length rest)) by (cbn [length]; lia).
        exact Hh'.
      * intros ->. lia.
Qed.

End Sequential.

Lemma calls_app {A} (ms1 ms2 : list (bool -> co A)) redis :
  Service.calls (ms1 ++ ms2) redis =
  let '(r1, redis1) := Service.calls ms1 redis in
  let '(r2, redis2) := Service.calls ms2 redis1 in
  (r1 ++ r2, redis2).
Proof.
  revert redis. induction ms1 as [|m ms1 IH]; intros redis; cbn [app Service.calls].
  - now destruct (Service.calls ms2 redis).
  - destruct (Service.call m redis) as [r redis']. rewrite IH.
    destruct (Service.calls ms1 redis') as [r1 redis1].
    now destruct (Service.calls ms2 redis1).
Qed.

(** C2. Sequential calls of [check_rate_limit] in one window, with the
    store answering: with minute ceiling [N] the [k]-th call is admitted
    exactly when [k <= N] and reports [min k N] for the minute (and
    [h0 + min k N] for the hour); the counters end at [min k N], and
    once [N] calls were made further calls leave the store as it is.
    The window starts with its minute counter at 0, and the hour
    ceiling leaves room for the [N] calls. *)
Theorem check_rate_limit_sequential
    (settings : Settings.t) (user_id endpoint : string)
    (limit_per_minute limit_per_hour : option Z)
    (t0 : datetime) (nows : list datetime) (c : Redis.client) (h0 : Z) :
  let N := int_or limit_per_minute (Settings.RATE_LIMIT_PER_MINUTE settings) in
  let H := int_or limit_per_hour (Settings.RATE_LIMIT_PER_HOUR settings) in
  let calls_at nows :=
    Service.calls
      (Service.limiter_calls settings user_id endpoint
         limit_per_minute limit_per_hour nows) in
  Forall (same_minute t0) nows ->
  Redis.faults c = [] ->
  Redis.counter_at c (minute_key user_id endpoint t0) 0 ->
  Redis.counter_at c (hour_key user_id endpoint t0) h0 ->
  1 <= N -> 0 <= h0 -> h0 + N <= H -> H < 2 ^ 63 ->
  fst (calls_at nows (Some c)) =
    map (fun k : nat => Service.kth_reply N h0 (Z.of_nat k)) (seq 1 (length nows))
  /\ (exists c',
        snd (calls_at nows (Some c)) = Some c'
        /\ Redis.counter_at c' (minute_key user_id endpoint t0)
             (Z.min (Z.of_nat (length nows)) N)
        /\ Redis.counter_at c' (hour_key user_id endpoint t0)
             (h0 + Z.min (Z.of_nat (length nows)) N))
  /\ (N <= Z.of_nat (length nows) ->
      forall more, Forall (same_minute t0) more ->
        snd (calls_at (nows ++ more) (Some c)) = snd (calls_at nows (Some c))).
Proof.
  intros N H calls_at Hall Hf Hm Hh HN Hh0 Hroom HH.
  rewrite <- (Z.add_0_r h0) in Hh.
  destruct (calls_from settings user_id endpoint limit_per_minute limit_per_hour
              t0 h0 Hh0 Hroom HH nows c 0 Hall Hf Hm Hh ltac:(fold N; lia))
    as (c' & Ec & Hf' & Hm' & Hh' & _).
  fold N in Ec, Hm', Hh'. cbn [Z.add] in Ec, Hm', Hh'.
  subst calls_at. cbv beta. rewrite Ec. cbn [fst snd].
  split; [reflexivity | split].
  - exists c'. auto.
  - intros Hlen more Hmore.
    unfold Service.limiter_calls. rewrite map_app, calls_app.
    unfold Service.limiter_calls in Ec. rewrite Ec.
    rewrite Z.min_r in Hm', Hh' by lia.
    destruct (calls_from settings user_id endpoint limit_per_minute limit_per_hour
                t0 h0 Hh0 Hroom HH more c' N Hmore Hf' Hm' Hh' ltac:(fold N; lia))
      as (c'' & Ec' & _ & _ & _ & Hsame).
    unfold Service.limiter_calls in Ec'. fold N in Ec'. rewrite Ec'.
    cbn [snd]. now rewrite (Hsame eq_refl).
Qed.

Lemma check_rate_limit_sequential_witness :
  fst (Service.calls
         (Service.limiter_calls Settings.defaults "user-1" "/v1/chat"
            (Some 3) None window_times)
         (Some (Redis.Client ∅ [])))
  = [Value (true, 1, 1); Value (true, 2, 2); Value (true, 3, 3);
     Value (false, 3, 3); Value (false, 3, 3)].
Proof.
  refine (proj1 (check_rate_limit_sequential Settings.defaults "user-1" "/v1/chat"
                   (Some 3) None window_start window_times (Redis.Client ∅ []) 0
                   _ _ _ _ _ _ _ _)).
  - repeat constructor.
  - reflexivity.
  - reflexivity.
  - reflexivity.
  - simpl; lia.
  - lia.
  - simpl; lia.
  - simpl; lia.
Defined.

(** *** Failing store *)

Lemma get_counter_fault key data fs :
  run (get_counter true key) (Redis.Client data (true :: fs))
  = (Value 0, Redis.Client data fs).
Proof. reflexivity. Qed.

Lemma increment_counter_fault key ttl data fs :
  run (increment_counter true key ttl) (Redis.Client data (true :: fs))
  = (Value 0, Redis.Client data fs).
Proof. reflexivity. Qed.

Lemma check_rate_limit_never_raises settings connected user_id endpoint
    limit_per_minute limit_per_hour now c :
  exists r c',
    run (check_rate_limit settings connected user_id endpoint
           limit_per_minute limit_per_hour now) c = (Value r, c').
Proof.
  unfold check_rate_limit. destruct connected; cbn [negb].
  - rewrite run_try_except.
    destruct (run _ c) as [[r|e] c']; cbn [run]; eauto.
  - cbn [run]. eauto.
Qed.

Lemma check_rate_limit_unconnected settings user_id endpoint
    limit_per_minute limit_per_hour now :
  Service.call
    (fun connected =>
       check_rate_limit settings connected user_id endpoint
         limit_per_minute limit_per_hour now) None
  = (Value (true, 0, 0), None).
Proof. reflexivity. Qed.

(** C6. With a client in place and every command raising, the helpers
    absorb the exceptions and read 0, the limits are not reached, and
    the reply is [(True, 1, 1)]: the request is admitted, but the
    counts reported are not zero. *)
Theorem check_rate_limit_store_failing
    (settings : Settings.t) (user_id endpoint : string)
    (limit_per_minute limit_per_hour : option Z) (now : datetime)
    (data : gmap string Redis.entry) (fs : list bool) :
  0 < int_or limit_per_minute (Settings.RATE_LIMIT_PER_MINUTE settings) ->
  0 < int_or limit_per_hour (Settings.RATE_LIMIT_PER_HOUR settings) ->
  Service.call
    (fun connected =>
       check_rate_limit settings connected user_id endpoint
         limit_per_minute limit_per_hour now)
    (Some (Redis.Client data (true :: true :: true :: true :: fs)))
  = (Value (true, 1, 1), Some (Redis.Client data fs)).
Proof.
  intros HN HH. cbn [Service.call]. unfold check_rate_limit. cbn [negb].
  unfold mbind, co_bind.
  rewrite run_try_except, run_bind, get_counter_fault.
  rewrite run_bind, get_counter_fault.
  destruct (Z.leb_spec (int_or limit_per_minute
                          (Settings.RATE_LIMIT_PER_MINUTE settings)) 0); [lia|].
  destruct (Z.leb_spec (int_or limit_per_hour
                          (Settings.RATE_LIMIT_PER_HOUR settings)) 0); [lia|].
  cbn [orb]. rewrite run_bind, increment_counter_fault.
  rewrite run_bind, increment_counter_fault. reflexivity.
Qed.

Lemma check_rate_limit_store_failing_witness :
  Service.call
    (fun connected =>
       check_rate_limit Settings.defaults connected "user-1" "/v1/chat"
         None None window_start)
    (Some (Redis.Client ∅ [true; true; true; true]))
  = (Value (true, 1, 1), Some (Redis.Client ∅ [])).
Proof.
  apply (check_rate_limit_store_failing Settings.defaults "user-1" "/v1/chat"
           None None window_start ∅ []); simpl; lia.
Defined.

(** *** Concurrent calls *)

(** Two calls with ceiling 1 on an empty store: both read the counters
    before either increments, and both are admitted. *)
Lemma check_rate_limit_race :
  int_or (Some 1) (Settings.RATE_LIMIT_PER_MINUTE Settings.defaults) = 1
  /\ map Service.reply_of
       (fst (interleave [0; 0; 1; 1; 0; 0; 0; 0; 1; 1; 1; 1]%nat
               [racing_call; racing_call] (Redis.Client ∅ [])))
     = [Some (Value (true, 1, 1)); Some (Value (true, 1, 1))].
Proof. split; vm_compute; reflexivity. Qed.

Section AnyWindow.

Variable settings : Settings.t.
Variables user_id endpoint : string.
Variables limit_per_minute limit_per_hour : option Z.
Variable t0 : datetime.

Let N := int_or limit_per_minute (Settings.RATE_LIMIT_PER_MINUTE settings).
Let H := int_or limit_per_hour (Settings.RATE_LIMIT_PER_HOUR settings).
Let mk := minute_key user_id endpoint t0.
Let hk := hour_key user_id endpoint t0.

Hypothesis N_small : N < 2 ^ 63.
Hypothesis H_small : H < 2 ^ 63.

Lemma calls_from_counters nows c m h :
  Forall (same_minute t0) nows ->
  Redis.faults c = [] ->
  Redis.counter_at c mk m -> Redis.counter_at c hk h ->
  0 <= m -> 0 <= h ->
  exists c',
    Service.calls
      (Service.limiter_calls settings user_id endpoint
         limit_per_minute limit_per_hour nows) (Some c)
    = (map (fun i : nat => Service.reply_from N H m h (Z.of_nat i)) (seq 1 (length nows)),
       Some c')
    /\ Redis.faults c' = []
    /\ Redis.counter_at c' mk (m + Z.min (Z.of_nat (length nows)) (Service.room N H m h))
    /\ Redis.counter_at c' hk (h + Z.min (Z.of_nat (length nows)) (Service.room N H m h)).
Proof.
  revert c m h. induction nows as [|now rest IH]; intros c m h Hall Hf Hm Hh Hm0 Hh0.
  - exists c. cbn [length Z.of_nat seq map Service.limiter_calls Service.calls].
    unfold Service.room. rewrite Z.min_l by lia. rewrite !Z.add_0_r. auto.
  - inversion Hall as [|? ? Hnow Hrest]; subst.
    destruct (same_minute_keys user_id endpoint t0 now Hnow) as [Ek Eh].
    unfold Service.limiter_calls. cbn [map Service.calls Service.call].
    destruct (Z_lt_le_dec 0 (Service.room N H m h)) as [Hroom | Hfull].
    + assert (m < N /\ h < H) as [HmN HhH] by (unfold Service.room in Hroom; lia).
      rewrite (check_rate_limit_admits settings user_id endpoint
                 limit_per_minute limit_per_hour now c m h);
        [| assumption | rewrite Ek; exact Hm | rewrite Eh; exact Hh
         | fold N; lia | fold H; lia | lia | lia].
      rewrite Ek, Eh. fold mk hk.
      set (c1 := Redis.Client _ []).
      assert (Redis.counter_at c1 mk (m + 1)) as Hm1.
      { unfold Redis.counter_at, c1. cbn [Redis.data].
        rewrite lookup_insert_ne by (intros E; symmetry in E; revert E; apply keys_differ).
        rewrite lookup_insert_eq. reflexivity. }
      assert (Redis.counter_at c1 hk (h + 1)) as Hh1.
      { unfold Redis.counter_at, c1. cbn [Redis.data].
        rewrite lookup_insert_eq. reflexivity. }
      destruct (IH c1 (m + 1) (h + 1) Hrest eq_refl Hm1 Hh1 ltac:(lia) ltac:(lia))
        as (c' & Ec & Hf' & Hm' & Hh').
      unfold Service.limiter_calls in Ec. rewrite Ec.
      assert (Service.room N H (m + 1) (h + 1) = Service.room N H m h - 1) as Er
        by (unfold Service.room in *; lia).
      rewrite Er in *.
      exists c'. split; [| split; [exact Hf' | split]].
      * cbn [length seq map]. f_equal. f_equal.
        -- unfold Service.reply_from. change (Z.of_nat 1) with 1.
           destruct (Z.leb_spec 1 (Service.room N H m h)); [| lia].
           rewrite Z.min_l by lia. reflexivity.
        -- rewrite <- (seq_shift (length rest) 1), map_map. apply map_ext. intros i.
           unfold Service.reply_from. rewrite Er.
           replace (Z.of_nat (S i)) with (Z.of_nat i + 1) by lia.
           f_equal. f_equal; [f_equal|].
           ++ destruct (Z.leb_spec (Z.of_nat i) (Service.room N H m h - 1)),
                (Z.leb_spec (Z.of_nat i + 1) (Service.room N H m h)); reflexivity || lia.
           ++ lia.
           ++ lia.
      * replace (m + Z.min (Z.of_nat (length (now :: rest))) (Service.room N H m h))
          with (m + 1 + Z.min (Z.of_nat (length rest)) (Service.room N H m h - 1))
          by (cbn [length]; lia).
        exact Hm'.
      * replace (h + Z.min (Z.of_nat (length (now :: rest))) (Service.room N H m h))
          with (h + 1 + Z.min (Z.of_nat (length rest)) (Service.room N H m h - 1))
          by (cbn [length]; lia).
        exact Hh'.
    + assert (Service.room N H m h = 0) as Er by (unfold Service.room in *; lia).
      assert (N <= m \/ H <= h) as Hlim by (unfold Service.room in Er; lia).
      rewrite (check_rate_limit_rejects settings user_id endpoint
                 limit_per_minute limit_per_hour now c m h);
        [| assumption | rewrite Ek; exact Hm | rewrite Eh; exact Hh | exact Hlim].
      destruct (IH c m h Hrest Hf Hm Hh Hm0 Hh0) as (c' & Ec & Hf' & Hm' & Hh').
      unfold Service.limiter_calls in Ec. rewrite Ec.
      rewrite Er in *.
      exists c'. split; [| split; [exact Hf' | split]].
      * cbn [length seq map]. f_equal. f_equal.
        -- unfold Service.reply_from. rewrite Er. change (Z.of_nat 1) with 1.
           cbn. rewrite !Z.add_0_r. reflexivity.
        -- rewrite <- (seq_shift (length rest) 1), map_map.
           apply map_ext_in. intros i Hi%in_seq.
           unfold Service.reply_from. rewrite Er.
           rewrite !Z.min_r by lia.
           destruct (Z.leb_spec (Z.of_nat (S i)) 0); [lia|].
           destruct (Z.leb_spec (Z.of_nat i) 0); [lia | reflexivity].
      * rewrite Z.min_r in * by lia. exact Hm'.
      * rewrite Z.min_r in * by lia. exact Hh'.
Qed.

End AnyWindow.

Lemma admitted_from N H m h n :
  Z.of_nat (length (List.filter Service.admitted
                      (map (fun i : nat => Service.reply_from N H m h (Z.of_nat i))
                           (seq 1 n))))
  = Z.min (Z.of_nat n) (Service.room N H m h).
Proof.
  assert (0 <= Service.room N H m h) as Hr by (unfold Service.room; lia).
  induction n as [|n IH].
  - cbn. lia.
  - rewrite seq_S, map_app, List.filter_app, length_app, Nat2Z.inj_add, IH.
    cbn [map List.filter Service.reply_from Service.admitted Nat.add].
    destruct (Z.leb_spec (Z.of_nat (S n)) (Service.room N H m h)); cbn [length]; lia.
Qed.

(** C8, as amended. The check and the increments are separate commands,
    so the bound holds for calls made one after the other: of the calls
    made inside one minute while the store answers, from counters that
    stand at [m0] and [h0], exactly as many are admitted as both
    ceilings leave, [max 0 (min (N - m0) (H - h0))] at most; the minute
    count never passes [N] and the hour count never passes [H], unless
    it had before the calls. *)
Theorem check_rate_limit_sequential_bound
    (settings : Settings.t) (user_id endpoint : string)
    (limit_per_minute limit_per_hour : option Z)
    (t0 : datetime) (nows : list datetime) (c : Redis.client) (m0 h0 : Z) :
  let N := int_or limit_per_minute (Settings.RATE_LIMIT_PER_MINUTE settings) in
  let H := int_or limit_per_hour (Settings.RATE_LIMIT_PER_HOUR settings) in
  let admitted :=
    Z.of_nat
      (length
         (List.filter Service.admitted
            (fst (Service.calls
                    (Service.limiter_calls settings user_id endpoint
                       limit_per_minute limit_per_hour nows) (Some c))))) in
  Forall (same_minute t0) nows ->
  Redis.faults c = [] ->
  Redis.counter_at c (minute_key user_id endpoint t0) m0 ->
  Redis.counter_at c (hour_key user_id endpoint t0) h0 ->
  0 <= m0 -> 0 <= h0 -> N < 2 ^ 63 -> H < 2 ^ 63 ->
  admitted = Z.min (Z.of_nat (length nows)) (Service.room N H m0 h0)
  /\ m0 + admitted <= Z.max m0 N
  /\ h0 + admitted <= Z.max h0 H.
Proof.
  intros N H admitted Hall Hf Hm Hh Hm0 Hh0 HN HH.
  destruct (calls_from_counters settings user_id endpoint limit_per_minute
              limit_per_hour t0 HN HH nows c m0 h0 Hall Hf Hm Hh Hm0 Hh0)
    as (c' & Ec & _).
  assert (admitted = Z.min (Z.of_nat (length nows)) (Service.room N H m0 h0)) as Ea.
  { unfold admitted. rewrite Ec. cbn [fst]. apply admitted_from. }
  split; [exact Ea|]. rewrite Ea. unfold Service.room. lia.
Qed.

Lemma check_rate_limit_sequential_bound_witness :
  let admitted :=
    Z.of_nat
      (length
         (List.filter Service.admitted
            (fst (Service.calls
                    (Service.limiter_calls Settings.defaults "user-1" "/v1/chat"
                       (Some 3) None window_times)
                    (Some Examples.hour_nearly_spent))))) in
  admitted = 1 /\ 0 + admitted <= 3 /\ 999 + admitted <= 1000.
Proof.
  cbv zeta.
  assert (Redis.counter_at Examples.hour_nearly_spent
            (minute_key "user-1" "/v1/chat" window_start) 0) as Hm
    by (vm_compute; reflexivity).
  assert (Redis.counter_at Examples.hour_nearly_spent
            (hour_key "user-1" "/v1/chat" window_start) 999) as Hh
    by (vm_compute; reflexivity).
  assert (Forall (same_minute window_start) window_times) as Hall
    by (repeat constructor).
  assert (int_or (Some 3) (Settings.RATE_LIMIT_PER_MINUTE Settings.defaults) < 2 ^ 63)
    as HN by (vm_compute; reflexivity).
  assert (int_or None (Settings.RATE_LIMIT_PER_HOUR Settings.defaults) < 2 ^ 63)
    as HH by (vm_compute; reflexivity).
  assert (0 <= 0) as H0 by lia.
  assert (0 <= 999) as H999 by lia.
  exact (check_rate_limit_sequential_bound Settings.defaults "user-1" "/v1/chat"
           (Some 3) None window_start window_times Examples.hour_nearly_spent 0 999
           Hall eq_refl Hm Hh H0 H999 HN HH).
Defined.

(** *** Real-time statistics *)

Lemma get_counter_returns connected key c :
  exists n c', run (get_counter connected key) c = (Value n, c').
Proof.
  unfold get_counter. destruct connected; cbn [negb].
  - rewrite run_try_except.
    destruct (run _ c) as [[n|e] c']; cbn [run]; eauto.
  - cbn [run]. eauto.
Qed.

Lemma int_truediv_nonzero a b :
  b <> 0 -> PyFloat.int_truediv a b <> Raised ZeroDivisionError.
Proof.
  intros Hb. unfold PyFloat.int_truediv.
  destruct (Z.eqb_spec b 0); [contradiction|].
  destruct (a =? 0); [discriminate|].
  destruct (SFdiv_core_binary _ _ _ _ _ _) as [[m e] l].
  destruct (binary_round_aux _ _ _ _ _ _); discriminate.
Qed.

(** The ratio is never evaluated with a zero divisor. *)
Lemma get_realtime_stats_no_zero_division now c :
  fst (run (get_realtime_stats_body true now) c) <> Raised ZeroDivisionError.
Proof.
  unfold get_realtime_stats_body, mbind, co_bind.
  rewrite run_bind.
  destruct (get_counter_returns true ("requests:total:" +:+ strftime_day now) c)
    as (total & c1 & ->).
  rewrite run_bind.
  destruct (get_counter_returns true
              ("requests:status:success:" +:+ strftime_day now) c1)
    as (success & c2 & ->).
  rewrite run_bind.
  destruct (get_counter_returns true
              ("requests:status:error:" +:+ strftime_day now) c2)
    as (errors & c3 & ->).
  rewrite run_bind.
  destruct (Z.ltb_spec 0 total) as [Hpos|Hle]; [| cbn; discriminate].
  rewrite run_bind.
  pose proof (int_truediv_nonzero success total ltac:(lia)) as Hdiv.
  destruct (PyFloat.int_truediv success total) as [q|e]; cbn [of_outcome run].
  - cbn. discriminate.
  - cbn [fst]. congruence.
Qed.

Lemma get_counter_no_fault key c :
  Redis.faults c = [] ->
  exists n, run (get_counter true key) c = (Value n, c).
Proof.
  intros Hf. unfold get_counter. co_simpl.
  unfold Redis.get. rewrite (next_fault_none c Hf).
  destruct (Redis.data c !! key) as [e|]; cbn [fmap option_fmap option_map]; co_simpl.
  - destruct (str_truthy (Redis.e_val e)); co_simpl; [| eauto].
    destruct (int_of_str (Redis.e_val e)); co_simpl; eauto.
  - eauto.
Qed.

(** With no request counted the rate is the integer 0. *)
Lemma get_realtime_stats_zero_total now c :
  Redis.faults c = [] ->
  Redis.counter_at c ("requests:total:" +:+ strftime_day now) 0 ->
  exists s e,
    run (get_realtime_stats true now) c =
    (Value [ ("total_requests_today", SInt 0);
             ("success_requests_today", SInt s);
             ("error_requests_today", SInt e);
             ("success_rate", SInt 0) ], c).
Proof.
  intros Hf H0. unfold get_realtime_stats. cbn [negb].
  rewrite run_try_except.
  unfold get_realtime_stats_body, mbind, co_bind.
  rewrite run_bind, (get_counter_reads c _ 0 Hf H0).
  rewrite run_bind.
  destruct (get_counter_no_fault
              ("requests:status:success:" +:+ strftime_day now) c Hf) as (s & ->).
  rewrite run_bind.
  destruct (get_counter_no_fault
              ("requests:status:error:" +:+ strftime_day now) c Hf) as (e & ->).
  exists s, e. reflexivity.
Qed.

Lemma get_realtime_stats_never_raises connected now c :
  exists d c', run (get_realtime_stats connected now) c = (Value d, c').
Proof.
  unfold get_realtime_stats. destruct connected; cbn [negb].
  - rewrite run_try_except.
    destruct (run _ c) as [[d|e] c']; cbn [run]; eauto.
  - cbn [run]. eauto.
Qed.

Lemma get_realtime_stats_unconnected now :
  Service.call (fun connected => get_realtime_stats connected now) None
  = (Value [], None).
Proof. reflexivity. Qed.

(** C10. With a client in place and the three reads raising, every
    counter reads 0 and the reply is the dictionary of zeros, not [{}]. *)
Theorem get_realtime_stats_store_failing
    (now : datetime) (data : gmap string Redis.entry) (fs : list bool) :
  Service.call (fun connected => get_realtime_stats connected now)
    (Some (Redis.Client data (true :: true :: true :: fs)))
  = (Value [ ("total_requests_today", SInt 0);
             ("success_requests_today", SInt 0);
             ("error_requests_today", SInt 0);
             ("success_rate", SInt 0) ],
     Some (Redis.Client data fs)).
Proof.
  cbn [Service.call]. unfold get_realtime_stats. cbn [negb].
  rewrite run_try_except.
  unfold get_realtime_stats_body, mbind, co_bind.
  rewrite run_bind, get_counter_fault.
  rewrite run_bind, get_counter_fault.
  rewrite run_bind, get_counter_fault.
  reflexivity.
Qed.

End RedisFacts.

(** ** The metrics pipeline *)

Module PipelineFacts.

Import Schemas MetricsService.

Ltac fields :=
  cbn [now metrics_queue running worker_at batch last_flush stop_at in_flight
       llm_metrics log hist accepted dequeued attempts accepted_at_stop
       set_worker add_log begin_flush note_dequeued set_queue end_flight
       set_stop set_running note_stop note_accepted set_log
       f_batch f_trigger f_started a_batch a_trigger a_started a_ended
       AsyncQueue.items AsyncQueue.maxsize] in *.

(** *** The queue *)

Lemma put_never_raises {A} (item : A) q :
  AsyncQueue.put item q = AsyncQueue.Suspends
  \/ AsyncQueue.put item q =
     AsyncQueue.Returns
       (Value (AsyncQueue.Make (AsyncQueue.maxsize q) (AsyncQueue.items q ++ [item]))).
Proof.
  unfold AsyncQueue.put, AsyncQueue.put_nowait.
  destruct (AsyncQueue.full q); auto.
Qed.

Lemma log_metric_cases metric q lg :
  (AsyncQueue.full q = true /\ log_metric metric q lg = AsyncQueue.Suspends)
  \/ (AsyncQueue.full q = false /\
      log_metric metric q lg =
      AsyncQueue.Returns
        (Value true,
         AsyncQueue.Make (AsyncQueue.maxsize q) (AsyncQueue.items q ++ [metric]),
         lg)).
Proof.
  unfold log_metric, AsyncQueue.put, AsyncQueue.put_nowait.
  destruct (AsyncQueue.full q); auto.
Qed.

(** [log_metric] never answers [False]: its handler for [QueueFull] is
    never entered. *)
Lemma log_metric_never_false metric q lg q' lg' :
  log_metric metric q lg <> AsyncQueue.Returns (Value false, q', lg').
Proof.
  destruct (log_metric_cases metric q lg) as [[_ ->] | [_ ->]]; discriminate.
Qed.

(** C1. On a full queue [log_metric] does not return: the call is
    suspended in [put], and nothing is logged or dropped. It goes on
    when the queue has room, and then enqueues the metric and answers
    [True]. *)
Theorem log_metric_full_suspends
    (metric : MetricsCreate) (q : AsyncQueue.t MetricsCreate)
    (lg : list log_record) :
  AsyncQueue.full q = true ->
  log_metric metric q lg = AsyncQueue.Suspends
  /\ forall q',
       AsyncQueue.full q' = false ->
       log_metric metric q' lg =
       AsyncQueue.Returns
         (Value true,
          AsyncQueue.Make (AsyncQueue.maxsize q') (AsyncQueue.items q' ++ [metric]),
          lg).
Proof.
  intros Hfull. split.
  - destruct (log_metric_cases metric q lg) as [[_ E] | [Hf _]];
      [exact E | congruence].
  - intros q' Hroom.
    destruct (log_metric_cases metric q' lg) as [[Hf _] | [_ E]];
      [congruence | exact E].
Qed.

(** *** Flushing *)

Lemma _flush_batch_returns batch fault table lg :
  exists table' lg', _flush_batch batch fault table lg = (Value tt, table', lg').
Proof.
  unfold _flush_batch. destruct batch; [eauto|].
  destruct (insert_batch _ _ _); eauto.
Qed.

Lemma drain_all fuel q acc :
  (length (AsyncQueue.items q) <= fuel)%nat ->
  drain fuel q acc =
  (acc ++ AsyncQueue.items q, AsyncQueue.Make (AsyncQueue.maxsize q) []).
Proof.
  revert q acc. induction fuel as [|fuel IH]; intros [mx items] acc Hlen;
    cbn [AsyncQueue.items AsyncQueue.maxsize] in *.
  - destruct items; [| cbn in Hlen; lia]. cbn. now rewrite app_nil_r.
  - destruct items as [|m rest]; cbn [drain AsyncQueue.empty AsyncQueue.items].
    + now rewrite app_nil_r.
    + cbn [AsyncQueue.get_nowait AsyncQueue.items AsyncQueue.maxsize].
      rewrite IH by (cbn in Hlen |- *; lia).
      cbn [AsyncQueue.items AsyncQueue.maxsize]. now rewrite <- app_assoc.
Qed.

(** *** What is accepted is flushed once *)

Lemma concat_unique {A} (ls : list (list A)) (i j : nat) (a b : list A) (x : A) :
  NoDup (concat ls) -> ls !! i = Some a -> ls !! j = Some b ->
  In x a -> In x b -> i = j.
Proof.
  revert i j. induction ls as [|l ls IH]; intros i j Hnd Hi Hj Ha Hb.
  - discriminate Hi.
  - cbn [concat] in Hnd. apply NoDup_app in Hnd as (_ & Hdis & Hnd).
    assert (forall k c, ls !! k = Some c -> In x c -> In x (concat ls)) as Hin.
    { intros k c Hk Hc. apply in_concat. exists c. split; [| exact Hc].
      apply list_elem_of_In. eapply list_elem_of_lookup_2; eauto. }
    destruct i as [|i], j as [|j]; cbn in Hi, Hj.
    + reflexivity.
    + injection Hi as <-. exfalso.
      apply (Hdis x); apply list_elem_of_In; [exact Ha | eapply Hin; eauto].
    + injection Hj as <-. exfalso.
      apply (Hdis x); apply list_elem_of_In; [exact Hb | eapply Hin; eauto].
    + f_equal. eapply IH; eauto.
Qed.

Section Runs.

Variable settings : Settings.t.

Lemma start_coherent t0 : coherent (start settings t0).
Proof. split; cbn; auto. Qed.

Lemma nonempty_false {A} (l : list A) : nonempty l = false -> l = [].
Proof. destruct l; [reflexivity | discriminate]. Qed.

Lemma alive_stop s :
  stop_coherent s -> worker_at s <> Finished ->
  stop_at s = NotStopped \/ stop_at s = AwaitWorker.
Proof.
  unfold stop_coherent. destruct (stop_at s); intuition congruence.
Qed.

Lemma stop_coherent_alive s s' :
  stop_coherent s ->
  stop_at s = NotStopped \/ stop_at s = AwaitWorker ->
  stop_at s' = stop_at s -> running s' = running s ->
  accepted_at_stop (hist s') = accepted_at_stop (hist s) ->
  accepted (hist s') = accepted (hist s) ->
  stop_coherent s'.
Proof.
  intros Hs Hst E1 E2 E3 E4. unfold stop_coherent in *. rewrite E1, E2, E3, E4.
  destruct Hst as [E | E]; rewrite E in *; exact Hs.
Qed.

Lemma loop_head_coherent s :
  in_flight s = None ->
  map snd (accepted (hist s)) =
    map snd (dequeued (hist s)) ++ AsyncQueue.items (metrics_queue s) ->
  map snd (dequeued (hist s)) = flushed s ++ batch s ->
  stop_coherent s ->
  stop_at s = NotStopped \/ stop_at s = AwaitWorker ->
  coherent (loop_head settings s).
Proof.
  intros Hfl Ha Hd Hs Hst. unfold loop_head.
  assert (forall s', stop_at s' = stop_at s -> running s' = running s ->
                     hist s' = hist s -> stop_coherent s') as Hstop.
  { intros s' E1 E2 E3. unfold stop_coherent in *. rewrite E1, E2, E3.
    destruct Hst as [E | E]; rewrite E in *; exact Hs. }
  destruct (running s) eqn:Hrun.
  - destruct (interval_elapsed settings s && nonempty (batch s)).
    + split; [exact Ha | exact Hd | | apply Hstop; fields; auto].
      unfold worker_coherent. fields. eauto.
    + split; [exact Ha | | exact Hfl | apply Hstop; fields; auto].
      unfold pending, flushed in *. fields. now rewrite Hfl.
  - destruct (nonempty (batch s)) eqn:Hne.
    + split; [exact Ha | exact Hd | | apply Hstop; fields; auto].
      unfold worker_coherent. fields. eauto.
    + apply nonempty_false in Hne.
      split; [exact Ha | | | apply Hstop; fields; auto].
      * unfold pending, flushed in *. fields. rewrite Hfl. now rewrite Hne in Hd.
      * unfold worker_coherent. fields. auto.
Qed.

Lemma tick_coherent d s s' :
  coherent s -> tick d s = Some s' -> coherent s'.
Proof.
  intros [Ha Hd Hw Hs]. unfold tick. destruct (0 <=? d); [| discriminate].
  intros [= <-]. split; auto.
Qed.

Lemma log_metric_coherent metric s s' :
  coherent s -> log_metric_returns metric s = Some s' -> coherent s'.
Proof.
  intros [Ha Hd Hw Hs]. unfold log_metric_returns.
  destruct (log_metric_cases metric (metrics_queue s) (log s)) as [[_ ->] | [_ ->]];
    [discriminate|].
  intros [= <-]. split.
  - fields. rewrite map_app, Ha, <- app_assoc. reflexivity.
  - exact Hd.
  - exact Hw.
  - unfold stop_coherent in *. fields. destruct (stop_at s); auto.
    rewrite length_app. cbn [length]. intuition lia.
Qed.

Lemma worker_starts_coherent s s' :
  coherent s -> worker_starts settings s = Some s' -> coherent s'.
Proof.
  intros [Ha Hd Hw Hs]. unfold worker_starts.
  destruct (worker_at s) eqn:Ew; try discriminate.
  intros [= <-]. unfold worker_coherent in Hw. rewrite Ew in Hw.
  destruct Hw as [Hfl Hb].
  apply loop_head_coherent.
  - exact Hfl.
  - exact Ha.
  - unfold flushed, pending in *. fields. rewrite Hfl, Hb in Hd. exact Hd.
  - apply (stop_coherent_alive s); auto. apply (alive_stop s Hs). congruence.
  - apply (alive_stop s Hs). congruence.
Qed.

Lemma get_returns_coherent s s' :
  coherent s -> get_returns settings s = Some s' -> coherent s'.
Proof.
  intros [Ha Hd Hw Hs]. unfold get_returns.
  destruct (worker_at s) eqn:Ew; try discriminate.
  unfold worker_coherent in Hw. rewrite Ew in Hw.
  unfold AsyncQueue.get_nowait.
  destruct (AsyncQueue.items (metrics_queue s)) as [|m rest] eqn:Eq; [discriminate|].
  assert (stop_at s = NotStopped \/ stop_at s = AwaitWorker) as Hst
    by (apply (alive_stop s Hs); congruence).
  assert (map snd (dequeued (hist s) ++ [(now s, m)]) =
          flushed s ++ batch s ++ [m]) as Hd'.
  { rewrite map_app, Hd. unfold pending. rewrite Hw.
    cbn [map snd]. now rewrite app_assoc. }
  assert (map snd (accepted (hist s)) =
          map snd (dequeued (hist s) ++ [(now s, m)]) ++ rest) as Ha'.
  { rewrite map_app, <- app_assoc. exact Ha. }
  fields.
  destruct (Settings.METRICS_BATCH_SIZE settings <=? _).
  - intros [= <-]. split.
    + fields. exact Ha'.
    + unfold pending, flushed in *. fields. exact Hd'.
    + unfold worker_coherent. fields. eauto.
    + apply (stop_coherent_alive s); auto.
  - intros [= <-]. apply loop_head_coherent.
    + exact Hw.
    + fields. exact Ha'.
    + unfold flushed in *. fields. exact Hd'.
    + apply (stop_coherent_alive s); auto.
    + exact Hst.
Qed.

Lemma get_times_out_coherent s s' :
  coherent s -> get_times_out settings s = Some s' -> coherent s'.
Proof.
  intros [Ha Hd Hw Hs]. unfold get_times_out.
  destruct (worker_at s) eqn:Ew; try discriminate.
  unfold worker_coherent in Hw. rewrite Ew in Hw.
  intros [= <-]. apply loop_head_coherent; auto.
  - unfold pending in Hd. now rewrite Hw in Hd.
  - apply (alive_stop s Hs). congruence.
Qed.

Lemma flushed_end_flight f fault table lg s :
  flushed (end_flight f fault table lg s) = flushed s ++ f_batch f.
Proof.
  unfold flushed. fields. rewrite map_app, concat_app. cbn [map concat a_batch].
  now rewrite app_nil_r.
Qed.

Lemma flush_ends_coherent fault s s' :
  coherent s -> flush_ends settings fault s = Some s' -> coherent s'.
Proof.
  intros [Ha Hd Hw Hs]. unfold flush_ends.
  destruct (in_flight s) as [f|] eqn:Efl; [| discriminate].
  destruct (_flush_batch_returns (f_batch f) fault (llm_metrics s) (log s))
    as (table & lg & ->).
  unfold pending in Hd. rewrite Efl in Hd.
  pose proof (flushed_end_flight f fault table lg s) as Hfl.
  fields. unfold worker_coherent in Hw.
  destruct (worker_at s) eqn:Ew; try congruence; try contradiction;
    try (destruct Hw as [Hw0 _]; congruence).
  - (* FlushingTime *)
    intros [= <-]. split.
    + exact Ha.
    + unfold pending, flushed in *. fields. rewrite app_nil_r.
      rewrite Hd. symmetry. exact Hfl.
    + unfold worker_coherent. fields. reflexivity.
    + apply (stop_coherent_alive s); auto. apply (alive_stop s Hs). congruence.
  - (* FlushingCount *)
    intros [= <-]. apply loop_head_coherent.
    + reflexivity.
    + exact Ha.
    + unfold flushed in *. fields. rewrite app_nil_r.
      rewrite Hd. symmetry. exact Hfl.
    + apply (stop_coherent_alive s); auto. apply (alive_stop s Hs). congruence.
    + fields. apply (alive_stop s Hs). congruence.
  - (* FlushingFinal *)
    intros [= <-]. split.
    + exact Ha.
    + unfold pending, flushed in *. fields. rewrite app_nil_r.
      rewrite Hd. symmetry. exact Hfl.
    + unfold worker_coherent. fields. auto.
    + assert (stop_at s = NotStopped \/ stop_at s = AwaitWorker) as Hst
        by (apply (alive_stop s Hs); congruence).
      unfold stop_coherent in *. fields.
      destruct Hst as [E | E]; rewrite E in *; exact Hs.
  - (* the flush of [_flush_queue] *)
    destruct Hw as [Hb [Hnone | Hstop]]; [congruence|].
    unfold stop_coherent in Hs. rewrite Hstop in *.
    destruct Hs as (_ & _ & Hn).
    intros [= <-]. split.
    + exact Ha.
    + unfold pending, flushed in *. fields. rewrite Hb, app_nil_r.
      rewrite Hd. symmetry. exact Hfl.
    + unfold worker_coherent. fields. rewrite Ew. auto.
    + unfold stop_coherent. fields. auto.
Qed.

Lemma sleep_ends_coherent s s' :
  coherent s -> sleep_ends settings s = Some s' -> coherent s'.
Proof.
  intros [Ha Hd Hw Hs]. unfold sleep_ends.
  unfold worker_coherent in Hw.
  destruct (worker_at s); try discriminate. contradiction.
Qed.

Lemma stop_coherent_step s s' :
  coherent s -> stop s = Some s' -> coherent s'.
Proof.
  intros [Ha Hd Hw Hs]. unfold stop.
  unfold stop_coherent in Hs.
  destruct (stop_at s) eqn:Est; try discriminate.
  rewrite Hs. intros [= <-]. split.
  - exact Ha.
  - exact Hd.
  - unfold worker_coherent in *. fields.
    destruct (worker_at s); auto. destruct Hw as [Hb [Hn | Hn]]; [auto | congruence].
  - unfold stop_coherent. fields. auto.
Qed.

Lemma stop_resumes_coherent s s' :
  coherent s -> stop_resumes s = Some s' -> coherent s'.
Proof.
  intros [Ha Hd Hw Hs]. unfold stop_resumes.
  destruct (stop_at s) eqn:Est; try discriminate.
  unfold stop_coherent in Hs. rewrite Est in Hs. destruct Hs as [Hrun Hn].
  unfold worker_coherent in Hw.
  destruct (worker_at s) eqn:Ew; try discriminate; try contradiction.
  destruct Hw as [Hb [Hfl | Hfl]]; [| congruence].
  rewrite drain_all by lia. cbn [app].
  unfold pending in Hd. rewrite Hfl, Hb, app_nil_r in Hd.
  assert (length (accepted (hist s)) =
          length (dequeued (hist s) ++
                  map (pair (now s)) (AsyncQueue.items (metrics_queue s)))) as Hlen.
  { rewrite <- (length_map snd (accepted (hist s))), Ha.
    rewrite !length_app, !length_map. reflexivity. }
  assert (map snd (dequeued (hist s) ++
                   map (pair (now s)) (AsyncQueue.items (metrics_queue s)))
          = flushed s ++ AsyncQueue.items (metrics_queue s)) as Hd'.
  { rewrite map_app, Hd, map_map. cbn [snd]. now rewrite map_id. }
  destruct (nonempty (AsyncQueue.items (metrics_queue s))) eqn:Hne.
  - intros [= <-]. split.
    + fields. rewrite Hd', Ha, Hd, app_nil_r. reflexivity.
    + unfold pending, flushed in *. fields. exact Hd'.
    + unfold worker_coherent. fields. rewrite Ew. auto.
    + unfold stop_coherent. fields. repeat split; auto; try congruence; lia.
  - apply nonempty_false in Hne. intros [= <-]. rewrite Hne in *. split.
    + fields. rewrite Ha. cbn [map]. now rewrite !app_nil_r.
    + unfold pending, flushed in *. fields. rewrite Hfl, Hb.
      cbn [map]. rewrite !app_nil_r. exact Hd.
    + unfold worker_coherent. fields. rewrite Ew. auto.
    + unfold stop_coherent. fields. repeat split; auto. lia.
Qed.

Lemma step_coherent e s s' :
  coherent s -> step settings e s = Some s' -> coherent s'.
Proof.
  destruct e; cbn [step].
  - apply tick_coherent.
  - apply log_metric_coherent.
  - apply worker_starts_coherent.
  - apply get_returns_coherent.
  - apply get_times_out_coherent.
  - apply flush_ends_coherent.
  - apply sleep_ends_coherent.
  - apply stop_coherent_step.
  - apply stop_resumes_coherent.
Qed.

Lemma steps_coherent es s s' :
  coherent s -> steps settings es s = Some s' -> coherent s'.
Proof.
  revert s. induction es as [|e es IH]; intros s Hc; cbn [steps].
  - now intros [= <-].
  - destruct (step settings e s) as [s1|] eqn:E; [| discriminate].
    apply IH. eapply step_coherent; eauto.
Qed.

(** C4. When [stop] has returned, the batches handed to [_flush_batch],
    taken in order, are exactly the accepted metrics, each once, except
    those still in the queue; every metric accepted before [stop] was
    called is among them, and no buffer of the worker holds anything.
    When the accepted metrics are pairwise distinct, each one accepted
    before [stop] was called is in the batch of exactly one flush. *)
Theorem stop_flushes_accepted_metrics (t0 : Z) (es : list event) (s : system) :
  steps settings es (start settings t0) = Some s ->
  stop_at s = Stopped ->
  map snd (accepted (hist s)) = flushed s ++ AsyncQueue.items (metrics_queue s)
  /\ (accepted_at_stop (hist s) <= length (flushed s))%nat
  /\ batch s = [] /\ in_flight s = None
  /\ (NoDup (map snd (accepted (hist s))) ->
      forall metric,
        In metric (take (accepted_at_stop (hist s)) (map snd (accepted (hist s)))) ->
        exists i a,
          attempts (hist s) !! i = Some a /\ In metric (a_batch a)
          /\ forall j b,
               attempts (hist s) !! j = Some b -> In metric (a_batch b) -> j = i).
Proof.
  intros Hrun Hstop.
  destruct (steps_coherent es _ s (start_coherent t0) Hrun)
    as [Ha Hd Hw Hs].
  unfold stop_coherent in Hs. rewrite Hstop in Hs. destruct Hs as (Ew & Hfl & Hn).
  unfold worker_coherent in Hw. rewrite Ew in Hw. destruct Hw as [Hb _].
  unfold pending in Hd. rewrite Hfl, Hb, app_nil_r in Hd.
  assert (accepted_at_stop (hist s) <= length (flushed s))%nat as Hn'
    by (rewrite <- Hd, length_map; exact Hn).
  rewrite Ha, Hd. repeat split; auto.
  intros Hnd metric Hin.
  rewrite take_app_le in Hin by exact Hn'.
  apply NoDup_app in Hnd as (Hnd & _ & _).
  assert (In metric (flushed s)) as Hfl'.
  { apply list_elem_of_In. apply list_elem_of_In in Hin.
    apply elem_of_take in Hin as (k & Hk & _).
    eapply list_elem_of_lookup_2; eauto. }
  unfold flushed in Hfl', Hnd.
  apply in_concat in Hfl' as (l & Hl & Hm).
  apply list_elem_of_In, list_elem_of_lookup_1 in Hl as (i & Hi).
  apply list_lookup_fmap_Some_1 in Hi as (a & -> & Hi).
  exists i, a. split; [exact Hi|]. split; [exact Hm|].
  intros j b Hj Hmb.
  apply (concat_unique (map a_batch (attempts (hist s))) j i
           (a_batch b) (a_batch a) metric Hnd).
  - now apply list_lookup_fmap_Some_2.
  - now apply list_lookup_fmap_Some_2.
  - exact Hmb.
  - exact Hm.
Qed.

(** *** The count trigger *)

Lemma bystander_keeps_worker e s s' :
  bystander e = true -> step settings e s = Some s' ->
  worker_at s' = worker_at s /\ batch s' = batch s
  /\ last_flush s' = last_flush s /\ in_flight s' = in_flight s
  /\ attempts (hist s') = attempts (hist s)
  /\ llm_metrics s' = llm_metrics s.
Proof.
  destruct e; try discriminate; intros _; cbn [step].
  - unfold tick. destruct (0 <=? d); [| discriminate].
    intros [= <-]. repeat split.
  - unfold log_metric_returns.
    destruct (log_metric_cases metric (metrics_queue s) (log s)) as [[_ ->] | [_ ->]];
      [discriminate|].
    intros [= <-]. repeat split.
  - unfold stop. destruct (stop_at s); try discriminate.
    destruct (running s); intros [= <-]; repeat split.
Qed.

Lemma bystanders_keep_worker es s s' :
  forallb bystander es = true -> steps settings es s = Some s' ->
  worker_at s' = worker_at s /\ batch s' = batch s
  /\ last_flush s' = last_flush s /\ in_flight s' = in_flight s
  /\ attempts (hist s') = attempts (hist s)
  /\ llm_metrics s' = llm_metrics s.
Proof.
  revert s. induction es as [|e es IH]; intros s Hb; cbn [steps].
  - intros [= <-]. repeat split.
  - cbn [forallb] in Hb. apply andb_true_iff in Hb as [He Hes].
    destruct (step settings e s) as [s1|] eqn:E; [| discriminate].
    intros Hrest.
    destruct (bystander_keeps_worker e s s1 He E) as (E1 & E2 & E3 & E4 & E5 & E6).
    destruct (IH s1 Hes Hrest) as (F1 & F2 & F3 & F4 & F5 & F6).
    repeat split; congruence.
Qed.

(** C3. When the worker appends a metric that brings its batch to the
    configured size, the same step starts the flush of exactly that
    batch, whatever the time since the last flush; until that flush
    ends the worker takes nothing more from the queue, and when it ends
    the batch is empty again and [last_flush] is the time of the end. *)
Theorem count_trigger_flushes
    (s : system) (since : Z) (metric : MetricsCreate) (rest : list MetricsCreate) :
  worker_at s = Waiting since ->
  AsyncQueue.items (metrics_queue s) = metric :: rest ->
  Z.of_nat (length (batch s)) + 1 = Settings.METRICS_BATCH_SIZE settings ->
  exists s1,
    step settings GetReturns s = Some s1
    /\ worker_at s1 = FlushingCount
    /\ in_flight s1 =
         Some {| f_trigger := ByCount; f_started := now s;
                 f_batch := batch s ++ [metric] |}
    /\ Z.of_nat (length (batch s ++ [metric])) = Settings.METRICS_BATCH_SIZE settings
    /\ AsyncQueue.items (metrics_queue s1) = rest
    /\ forall es s2,
         forallb bystander es = true -> steps settings es s1 = Some s2 ->
         step settings GetReturns s2 = None
         /\ step settings GetTimesOut s2 = None
         /\ forall fault, exists s3,
              step settings (FlushEnds fault) s2 = Some s3
              /\ batch s3 = [] /\ last_flush s3 = now s2
              /\ attempts (hist s3) =
                   attempts (hist s) ++
                   [{| a_trigger := ByCount; a_started := now s; a_ended := now s2;
                       a_batch := batch s ++ [metric];
                       a_ok := is_value (insert_batch fault (batch s ++ [metric])
                                           (llm_metrics s)) |}].
Proof.
  intros Ew Eq Hlen.
  assert (Z.of_nat (length (batch s ++ [metric]))
          = Settings.METRICS_BATCH_SIZE settings) as Hlen'.
  { rewrite length_app. cbn [length]. lia. }
  cbn [step]. unfold get_returns. rewrite Ew.
  unfold AsyncQueue.get_nowait. rewrite Eq. fields.
  destruct (Z.leb_spec (Settings.METRICS_BATCH_SIZE settings)
              (Z.of_nat (length (batch s ++ [metric])))) as [_|Hlt]; [| lia].
  eexists. split; [reflexivity|]. fields.
  split; [reflexivity|]. split; [reflexivity|]. split; [exact Hlen'|].
  split; [reflexivity|].
  intros es s2 Hes Hrun.
  destruct (bystanders_keep_worker es _ s2 Hes Hrun) as (Ew2 & Eb2 & El2 & Ef2 & Ea2 & Et2).
  fields.
  split; [unfold get_returns; now rewrite Ew2|].
  split; [unfold get_times_out; now rewrite Ew2|].
  intros fault. unfold flush_ends. rewrite Ef2.
  destruct (_flush_batch_returns (batch s ++ [metric]) fault (llm_metrics s2) (log s2))
    as (table & lg & E).
  cbn [f_batch]. rewrite E. fields. rewrite Ew2.
  eexists. split; [reflexivity|].
  unfold loop_head. fields.
  destruct (running s2); cbn [nonempty]; rewrite ?andb_false_r; fields;
    rewrite Ea2, Et2; auto.
Qed.

Lemma start_timely t0 : timely settings (start settings t0).
Proof.
  split; fields; cbn.
  - lia.
  - constructor.
  - discriminate.
  - constructor.
  - discriminate.
  - intros i j a' a H. discriminate H.
  - constructor.
Qed.

Lemma coherent_lengths s :
  coherent s ->
  length (dequeued (hist s)) = (length (flushed s) + length (pending s))%nat.
Proof.
  intros [_ Hd _ _].
  rewrite <- (length_map snd (dequeued (hist s))), Hd, length_app. reflexivity.
Qed.

Lemma unflushed_nil s :
  coherent s -> pending s = [] -> unflushed (dequeued (hist s)) s = [].
Proof.
  intros Hc Hp. unfold unflushed. apply drop_ge.
  rewrite (coherent_lengths s Hc), Hp. cbn. lia.
Qed.

(** What [loop_head] does, case by case. *)
Lemma loop_head_cases s :
  (running s = true /\ interval_elapsed settings s = true /\ batch s <> []
   /\ loop_head settings s =
      begin_flush ByTime (batch s)
        (set_worker FlushingTime (batch s) (last_flush s) s))
  \/ (running s = true
      /\ (interval_elapsed settings s = false \/ batch s = [])
      /\ loop_head settings s =
         set_worker (Waiting (now s)) (batch s) (last_flush s) s)
  \/ (running s = false /\ batch s <> []
      /\ loop_head settings s =
         begin_flush AtExit (batch s)
           (set_worker FlushingFinal (batch s) (last_flush s) s))
  \/ (running s = false /\ batch s = []
      /\ loop_head settings s =
         add_log (Info "Metrics worker stopped")
           (set_worker Finished [] (last_flush s) s)).
Proof.
  unfold loop_head. destruct (running s).
  - destruct (interval_elapsed settings s); cbn [andb].
    + destruct (batch s) eqn:E; cbn [nonempty].
      * right; left. auto.
      * left. repeat split; auto; discriminate.
    + right; left. auto.
  - destruct (batch s) eqn:E; cbn [nonempty].
    + right; right; right. auto.
    + right; right; left. repeat split; auto; discriminate.
Qed.

Lemma interval_elapsed_true s :
  interval_elapsed settings s = true -> last_flush s + interval settings <= now s.
Proof. unfold interval_elapsed, interval. intros H%Z.leb_le. lia. Qed.

Lemma interval_elapsed_false s :
  interval_elapsed settings s = false -> now s < last_flush s + interval settings.
Proof. unfold interval_elapsed, interval. intros H%Z.leb_gt. lia. Qed.

(** [loop_head] from a state in which no flush is under way. *)
Lemma loop_head_timely s :
  in_flight s = None ->
  last_flush s <= now s ->
  Forall (fun p => last_flush s <= fst p) (unflushed (dequeued (hist s)) s) ->
  Forall (fun a => a_ended a <= last_flush s) (attempts (hist s)) ->
  fires_after_interval settings (attempts (hist s)) ->
  Forall (fun a => a_ended a <= now s) (attempts (hist s)) ->
  timely settings (loop_head settings s).
Proof.
  intros Hfl Hl Hp He Hg Hpast.
  destruct (loop_head_cases s)
    as [(Hr & Hi & Hb & ->) | [(Hr & Hi & ->) | [(Hr & Hb & ->) | (Hr & Hb & ->)]]].
  - split; fields; auto; try discriminate.
    intros f [= <-] _. fields. split; [reflexivity|].
    now apply interval_elapsed_true.
  - split; fields; auto; try discriminate.
    + intros since [= <-]. split; [unfold poll_timeout; lia|].
      intros Hne. destruct Hi as [Hi | Hi]; [| contradiction].
      now apply interval_elapsed_false.
    + congruence.
  - split; fields; auto; try discriminate.
    intros f [= <-]. discriminate.
  - split; fields; auto; try discriminate; congruence.
Qed.

Lemma tick_timely d s s' :
  timely settings s -> punctual (Tick d) s = true -> tick d s = Some s' ->
  timely settings s'.
Proof.
  intros [T1 T2 T3 T4 T5 T6 T7] Hp. unfold tick.
  destruct (Z.leb_spec 0 d); [| discriminate]. intros [= <-].
  split; fields; auto.
  - lia.
  - intros since Ew. destruct (T3 since Ew) as [Hn Hb]. split; [| exact Hb].
    cbn [punctual] in Hp. rewrite Ew in Hp.
    apply orb_true_iff in Hp as [Hp | Hp].
    + apply Z.eqb_eq in Hp. lia.
    + apply andb_true_iff in Hp as [_ Hp]. apply Z.leb_le in Hp. exact Hp.
  - eapply Forall_impl; [exact T7|]. cbn beta. intros a Ha. lia.
Qed.

Lemma log_metric_timely metric s s' :
  timely settings s -> log_metric_returns metric s = Some s' ->
  timely settings s'.
Proof.
  intros [T1 T2 T3 T4 T5 T6 T7]. unfold log_metric_returns.
  destruct (log_metric_cases metric (metrics_queue s) (log s)) as [[_ ->] | [_ ->]];
    [discriminate|].
  intros [= <-]. split; fields; auto.
Qed.

Lemma worker_starts_timely s s' :
  coherent s -> timely settings s -> worker_starts settings s = Some s' ->
  timely settings s'.
Proof.
  intros Hc [T1 T2 T3 T4 T5 T6 T7]. unfold worker_starts.
  destruct (worker_at s) eqn:Ew; try discriminate.
  intros [= <-].
  pose proof (coh_worker s Hc) as Hw. unfold worker_coherent in Hw.
  rewrite Ew in Hw. destruct Hw as [Hfl Hb].
  apply loop_head_timely; fields.
  - exact Hfl.
  - lia.
  - unfold unflushed, flushed. fields.
    fold (flushed s). fold (unflushed (dequeued (hist s)) s).
    rewrite (unflushed_nil s Hc); [constructor|].
    unfold pending. now rewrite Hfl.
  - eapply Forall_impl; [apply T4; congruence|]. cbn beta. intros a Ha. lia.
  - exact T6.
  - exact T7.
Qed.

Lemma unflushed_snoc s extra :
  coherent s ->
  drop (length (flushed s)) (dequeued (hist s) ++ extra)
  = unflushed (dequeued (hist s)) s ++ extra.
Proof.
  intros Hc. unfold unflushed. apply drop_app_le.
  rewrite (coherent_lengths s Hc). lia.
Qed.

Lemma get_returns_timely s s' :
  coherent s -> timely settings s -> get_returns settings s = Some s' ->
  timely settings s'.
Proof.
  intros Hc [T1 T2 T3 T4 T5 T6 T7]. unfold get_returns.
  destruct (worker_at s) eqn:Ew; try discriminate.
  pose proof (coh_worker s Hc) as Hw. unfold worker_coherent in Hw.
  rewrite Ew in Hw.
  unfold AsyncQueue.get_nowait.
  destruct (AsyncQueue.items (metrics_queue s)) as [|m rest] eqn:Eq; [discriminate|].
  assert (Forall (fun p => last_flush s <= fst p)
            (drop (length (flushed s)) (dequeued (hist s) ++ [(now s, m)]))) as T2'.
  { rewrite (unflushed_snoc s _ Hc). apply Forall_app. split; [exact T2|].
    constructor; [exact T1 | constructor]. }
  fields.
  destruct (Settings.METRICS_BATCH_SIZE settings <=? _).
  - intros [= <-]. split; fields; auto; try discriminate;
      try (intros f [= <-]; discriminate).
  - intros [= <-]. apply loop_head_timely; fields; auto.
Qed.

Lemma get_times_out_timely s s' :
  coherent s -> timely settings s -> get_times_out settings s = Some s' ->
  timely settings s'.
Proof.
  intros Hc [T1 T2 T3 T4 T5 T6 T7]. unfold get_times_out.
  destruct (worker_at s) eqn:Ew; try discriminate.
  pose proof (coh_worker s Hc) as Hw. unfold worker_coherent in Hw.
  rewrite Ew in Hw.
  intros [= <-]. apply loop_head_timely; auto.
Qed.

Lemma fires_after_interval_snoc atts a bound :
  fires_after_interval settings atts ->
  Forall (fun a' => a_ended a' <= bound) atts ->
  (a_trigger a = ByTime -> bound + interval settings <= a_started a) ->
  fires_after_interval settings (atts ++ [a]).
Proof.
  intros Hg He Ha i j a1 a2 Hi Hj Hij Htr.
  apply lookup_snoc_Some in Hj as [[Hjl Hj] | [-> <-]].
  - rewrite lookup_app_l in Hi by lia. exact (Hg i j a1 a2 Hi Hj Hij Htr).
  - rewrite lookup_app_l in Hi by lia.
    rewrite Forall_forall in He.
    assert (a_ended a1 <= bound) by (apply He; eapply list_elem_of_lookup_2; eauto).
    specialize (Ha Htr). lia.
Qed.

Lemma flush_ends_timely fault s s' :
  coherent s -> timely settings s -> flush_ends settings fault s = Some s' ->
  timely settings s'.
Proof.
  intros Hc [T1 T2 T3 T4 T5 T6 T7]. unfold flush_ends.
  destruct (in_flight s) as [f|] eqn:Efl; [| discriminate].
  destruct (_flush_batch_returns (f_batch f) fault (llm_metrics s) (log s))
    as (table & lg & ->).
  pose proof (coh_worker s Hc) as Hw. unfold worker_coherent in Hw.
  pose proof (coherent_lengths s Hc) as Hlen.
  unfold pending in Hlen. rewrite Efl in Hlen.
  assert (forall (P : Z * MetricsCreate -> Prop) s1,
            flushed s1 = flushed s ++ f_batch f ->
            Forall P (unflushed (dequeued (hist s)) s1)) as Hnil.
  { intros P s1 E. unfold unflushed. rewrite E.
    rewrite drop_ge; [constructor|]. rewrite length_app. lia. }
  assert (worker_at s <> Finished ->
          fires_after_interval settings
            (attempts (hist (end_flight f fault table lg s)))) as T6'.
  { intros Hnf. fields.
    apply (fires_after_interval_snoc _ _ (last_flush s) T6 (T4 Hnf)).
    fields. intros Htr. apply (T5 f eq_refl Htr). }
  assert (Forall (fun a => a_ended a <= now s)
            (attempts (hist (end_flight f fault table lg s)))) as T4'.
  { fields. apply Forall_app. split; [exact T7|].
    constructor; [fields; lia | constructor]. }
  fields.
  destruct (worker_at s) eqn:Ew; try congruence; try contradiction;
    try (destruct Hw as [Hw0 _]; congruence).
  - (* FlushingTime *)
    intros [= <-]. split; fields.
    + lia.
    + apply Hnil. exact (flushed_end_flight f fault table lg s).
    + intros since [= <-]. split; [unfold poll_timeout; lia | congruence].
    + intros _. exact T4'.
    + discriminate.
    + apply T6'. discriminate.
    + exact T4'.
  - (* FlushingCount *)
    intros [= <-]. apply loop_head_timely; fields.
    + reflexivity.
    + lia.
    + apply Hnil. exact (flushed_end_flight f fault table lg s).
    + exact T4'.
    + apply T6'. discriminate.
    + exact T4'.
  - (* FlushingFinal *)
    intros [= <-]. split; fields.
    + exact T1.
    + apply Hnil. exact (flushed_end_flight f fault table lg s).
    + discriminate.
    + congruence.
    + discriminate.
    + apply T6'. discriminate.
    + exact T4'.
  - (* the flush of [_flush_queue] *)
    destruct Hw as [Hb [Hnone | Hstop]]; [congruence|].
    rewrite Hstop.
    intros [= <-]. split; fields.
    + exact T1.
    + apply Hnil. exact (flushed_end_flight f fault table lg s).
    + rewrite Ew. discriminate.
    + rewrite Ew. congruence.
    + discriminate.
    + apply (fires_after_interval_snoc _ _ (now s)); fields.
      * exact T6.
      * exact T7.
      * intros Htr. destruct (T5 f eq_refl Htr) as [E _]. congruence.
    + exact T4'.
Qed.

Lemma stop_timely s s' :
  timely settings s -> stop s = Some s' -> timely settings s'.
Proof.
  intros [T1 T2 T3 T4 T5 T6 T7]. unfold stop.
  destruct (stop_at s); try discriminate.
  destruct (running s); intros [= <-]; split; fields; auto.
Qed.

Lemma stop_resumes_timely s s' :
  coherent s -> timely settings s -> stop_resumes s = Some s' ->
  timely settings s'.
Proof.
  intros Hc [T1 T2 T3 T4 T5 T6 T7]. unfold stop_resumes.
  destruct (stop_at s) eqn:Est; try discriminate.
  pose proof (coh_worker s Hc) as Hw. unfold worker_coherent in Hw.
  destruct (worker_at s) eqn:Ew; try discriminate; try contradiction.
  destruct Hw as [Hb [Hfl | Hfl]]; [| congruence].
  rewrite drain_all by lia. cbn [app].
  assert (forall s1, flushed s1 = flushed s ->
            Forall (fun p => last_flush s <= fst p)
              (unflushed
                 (dequeued (hist s) ++
                  map (pair (now s)) (AsyncQueue.items (metrics_queue s))) s1))
    as T2'.
  { intros s1 E. unfold unflushed. rewrite E, (unflushed_snoc s _ Hc).
    apply Forall_app. split; [exact T2|].
    apply Forall_forall. intros p [m [-> _]]%list_elem_of_fmap. exact T1. }
  destruct (nonempty (AsyncQueue.items (metrics_queue s))); intros [= <-];
    split; fields; auto; try (rewrite Ew; discriminate); try (rewrite Ew; congruence);
    try discriminate; try (intros f [= <-]; discriminate).
Qed.

Lemma step_timely e s s' :
  coherent s -> timely settings s -> punctual e s = true ->
  step settings e s = Some s' -> timely settings s'.
Proof.
  intros Hc Ht Hp. destruct e; cbn [step].
  - now apply tick_timely.
  - now apply log_metric_timely.
  - now apply worker_starts_timely.
  - now apply get_returns_timely.
  - now apply get_times_out_timely.
  - now apply flush_ends_timely.
  - intros E. pose proof (sleep_ends_coherent s s' Hc E) as Hc'.
    unfold sleep_ends in E. pose proof (coh_worker s Hc) as Hw.
    unfold worker_coherent in Hw. destruct (worker_at s); try discriminate.
    contradiction.
  - now apply stop_timely.
  - now apply stop_resumes_timely.
Qed.

Lemma punctual_steps_steps es s s' :
  punctual_steps settings es s = Some s' -> steps settings es s = Some s'.
Proof.
  revert s. induction es as [|e es IH]; intros s; cbn [punctual_steps steps]; auto.
  destruct (punctual e s); [| discriminate].
  destruct (step settings e s); [apply IH | discriminate].
Qed.

Lemma punctual_steps_invariant es s s' :
  coherent s -> timely settings s ->
  punctual_steps settings es s = Some s' ->
  coherent s' /\ timely settings s'.
Proof.
  revert s. induction es as [|e es IH]; intros s Hc Ht; cbn [punctual_steps].
  - intros [= <-]. auto.
  - destruct (punctual e s) eqn:Hp; [| discriminate].
    destruct (step settings e s) as [s1|] eqn:E; [| discriminate].
    apply IH.
    + eapply step_coherent; eauto.
    + eapply step_timely; eauto.
Qed.

(** C7, as amended. In a run in which time passes only while the
    worker waits or writes: while the worker holds a batch that is not
    being flushed, no more than the flush interval plus the timeout of
    [wait_for] has passed since it took the oldest unflushed metric
    from the queue; and a flush started by the time trigger begins at
    least one flush interval after the end of every earlier flush. *)
Theorem time_trigger_deadline (t0 : Z) (es : list event) (s : system) :
  punctual_steps settings es (start settings t0) = Some s ->
  within_deadline settings (dequeued (hist s)) s
  /\ fires_after_interval settings (attempts (hist s)).
Proof.
  intros Hrun.
  destruct (punctual_steps_invariant es _ s (start_coherent t0)
              (start_timely t0) Hrun) as [Hc [T1 T2 T3 T4 T5 T6 T7]].
  split; [| exact T6].
  intros Hfl Hb t metric Hhead.
  pose proof (coh_worker s Hc) as Hw. unfold worker_coherent in Hw.
  destruct (worker_at s) eqn:Ew.
  - destruct Hw as [_ Hb0]. congruence.
  - destruct (T3 since eq_refl) as [Hn Hs]. specialize (Hs Hb).
    destruct (unflushed (dequeued (hist s)) s) as [|p rest] eqn:Eu; [discriminate|].
    cbn [head] in Hhead. injection Hhead as ->.
    inversion T2 as [|? ? Hp _]; subst. cbn [fst] in Hp. lia.
  - destruct Hw as [f [E _]]. congruence.
  - destruct Hw as [f [E _]]. congruence.
  - destruct Hw as [f [E _]]. congruence.
  - contradiction.
  - destruct Hw as [Hb0 _]. congruence.
  - contradiction.
Qed.

(** *** Failure of the database *)

(** C5. When the write of a flush fails, [_flush_batch] returns without
    an exception after logging the error; the table is as before, the
    batch is in no buffer any more (not in the worker's batch, not back
    in the queue), and the worker is waiting on the queue again: it
    takes the next metric, and producers can enqueue. *)
Theorem flush_failure_discards_batch
    (s : system) (f : flight) (fault : option sink_fault) (e : exn) :
  in_flight s = Some f ->
  worker_at s = FlushingTime \/ worker_at s = FlushingCount ->
  running s = true ->
  f_batch f <> [] ->
  insert_batch fault (f_batch f) (llm_metrics s) = Raised e ->
  exists s1,
    step settings (FlushEnds fault) s = Some s1
    /\ fst (fst (_flush_batch (f_batch f) fault (llm_metrics s) (log s))) = Value tt
    /\ llm_metrics s1 = llm_metrics s
    /\ log s1 = log s ++ [Error "Failed to flush metrics batch"]
    /\ batch s1 = [] /\ in_flight s1 = None
    /\ metrics_queue s1 = metrics_queue s
    /\ worker_at s1 = Waiting (now s) /\ running s1 = true
    /\ attempts (hist s1) =
         attempts (hist s) ++
         [{| a_trigger := f_trigger f; a_started := f_started f;
             a_ended := now s; a_batch := f_batch f; a_ok := false |}]
    /\ (forall metric rest,
          AsyncQueue.items (metrics_queue s1) = metric :: rest ->
          exists s2,
            step settings GetReturns s1 = Some s2
            /\ dequeued (hist s2) = dequeued (hist s1) ++ [(now s1, metric)])
    /\ (forall metric,
          AsyncQueue.full (metrics_queue s1) = false ->
          exists s2,
            step settings (LogMetric metric) s1 = Some s2
            /\ AsyncQueue.items (metrics_queue s2) =
               AsyncQueue.items (metrics_queue s1) ++ [metric]).
Proof.
  intros Efl Ew Hrun Hne Hfail.
  assert (_flush_batch (f_batch f) fault (llm_metrics s) (log s)
          = (Value tt, llm_metrics s,
             log s ++ [Error "Failed to flush metrics batch"])) as Efb.
  { unfold _flush_batch. destruct (f_batch f); [congruence|]. now rewrite Hfail. }
  assert (exists s1,
            flush_ends settings fault s = Some s1
            /\ s1 = set_worker (Waiting (now s)) [] (now s)
                      (end_flight f fault (llm_metrics s)
                         (log s ++ [Error "Failed to flush metrics batch"]) s))
    as (s1 & Es1 & Hs1).
  { unfold flush_ends. rewrite Efl, Efb. fields.
    destruct Ew as [-> | ->].
    - eexists. split; reflexivity.
    - eexists. split; [reflexivity|].
      unfold loop_head. fields. rewrite Hrun. cbn [nonempty].
      rewrite andb_false_r. reflexivity. }
  exists s1. cbn [step]. rewrite Efb. subst s1. fields. rewrite Hfail.
  cbn [is_value fst].
  repeat (split; [first [exact Es1 | reflexivity | exact Hrun]|]).
  split.
  - intros metric rest Eq. unfold get_returns. fields.
    unfold AsyncQueue.get_nowait. rewrite Eq. fields.
    destruct (Settings.METRICS_BATCH_SIZE settings <=? _);
      eexists; (split; [reflexivity|]).
    + reflexivity.
    + unfold loop_head. fields. rewrite Hrun.
      destruct (interval_elapsed settings _ && nonempty _); reflexivity.
  - intros metric Hfull. unfold log_metric_returns. fields.
    destruct (log_metric_cases metric (metrics_queue s)
                (log s ++ [Error "Failed to flush metrics batch"]))
      as [[Hf _] | [_ ->]]; [congruence|].
    eexists. split; reflexivity.
Qed.

End Runs.

(** *** The scenarios *)

Import Scenario.

Lemma log_metric_full_suspends_witness :
  AsyncQueue.full full_queue = true
  /\ log_metric (metric "late") full_queue [] = AsyncQueue.Suspends.
Proof.
  assert (AsyncQueue.full full_queue = true) as H by (vm_compute; reflexivity).
  split; [exact H|].
  apply (proj1 (log_metric_full_suspends (metric "late") full_queue [] H)).
Defined.

Lemma count_trigger_flushes_witness :
  interval_elapsed small_batches before_count_flush = false
  /\ exists s1,
       step small_batches GetReturns before_count_flush = Some s1
       /\ worker_at s1 = FlushingCount
       /\ option_map f_batch (in_flight s1) = Some [metric "A"; metric "B"].
Proof.
  split; [vm_compute; reflexivity|].
  assert (worker_at before_count_flush = Waiting 0) as Hw
    by (vm_compute; reflexivity).
  assert (AsyncQueue.items (metrics_queue before_count_flush) = [metric "B"]) as Hq
    by (vm_compute; reflexivity).
  assert (Z.of_nat (length (batch before_count_flush)) + 1
          = Settings.METRICS_BATCH_SIZE small_batches) as Hb
    by (vm_compute; reflexivity).
  destruct (count_trigger_flushes small_batches before_count_flush 0
              (metric "B") [] Hw Hq Hb)
    as (s1 & E & Ew & Ef & _).
  exists s1. split; [exact E|]. split; [exact Ew|]. rewrite Ef.
  vm_compute. reflexivity.
Defined.

Lemma stop_flushes_accepted_metrics_witness :
  let s := state_after small_batches quiet_run in
  stop_at s = Stopped
  /\ map (fun a => map request_id (a_batch a)) (attempts (hist s))
     = [["A"; "B"]; ["C"]; ["D"]; ["E"]]
  /\ map snd (accepted (hist s))
     = flushed s ++ AsyncQueue.items (metrics_queue s)
  /\ (accepted_at_stop (hist s) <= length (flushed s))%nat.
Proof.
  cbv zeta.
  assert (steps small_batches quiet_run (start small_batches 0)
          = Some (state_after small_batches quiet_run)) as Hrun
    by (vm_compute; reflexivity).
  assert (stop_at (state_after small_batches quiet_run) = Stopped) as Hstop
    by (vm_compute; reflexivity).
  split; [exact Hstop|]. split; [vm_compute; reflexivity|].
  destruct (stop_flushes_accepted_metrics small_batches 0 quiet_run
              (state_after small_batches quiet_run) Hrun Hstop)
    as (Ha & Hn & _).
  split; [exact Ha | exact Hn].
Defined.

Lemma flush_failure_discards_batch_witness :
  option_map (fun f => map request_id (f_batch f)) (in_flight flushing_three)
    = Some ["A"; "B"; "C"]
  /\ exists s1,
       step Settings.defaults (FlushEnds (Some CommitFails)) flushing_three = Some s1
       /\ llm_metrics s1 = llm_metrics flushing_three
       /\ batch s1 = [] /\ in_flight s1 = None
       /\ worker_at s1 = Waiting (now flushing_three).
Proof.
  split; [vm_compute; reflexivity|].
  assert (in_flight flushing_three
          = Some {| f_trigger := ByTime; f_started := 5 * second;
                    f_batch := [metric "A"; metric "B"; metric "C"] |}) as Hf
    by (vm_compute; reflexivity).
  assert (worker_at flushing_three = FlushingTime) as Hw
    by (vm_compute; reflexivity).
  assert (running flushing_three = true) as Hr by (vm_compute; reflexivity).
  assert (insert_batch (Some CommitFails)
            [metric "A"; metric "B"; metric "C"] (llm_metrics flushing_three)
          = Raised PostgresError) as Hi by (vm_compute; reflexivity).
  destruct (flush_failure_discards_batch Settings.defaults flushing_three _
              (Some CommitFails) PostgresError
              Hf (or_introl Hw) Hr ltac:(discriminate) Hi)
    as (s1 & E & _ & Et & _ & Eb & Ef & _ & Ew & _).
  exists s1. repeat split; assumption.
Defined.

(** With the time of enqueue in place of the time of dequeue the
    deadline fails: C is enqueued at second 6 while A is being written,
    the write ends at second 15, and C is still unflushed then. *)
Lemma enqueue_deadline_missed :
  ~ (forall es s,
       punctual_steps Settings.defaults es (start Settings.defaults 0) = Some s ->
       within_deadline Settings.defaults (accepted (hist s)) s).
Proof.
  intros H.
  assert (punctual_steps Settings.defaults slow_write (start Settings.defaults 0)
          = Some (state_after Settings.defaults slow_write)) as Hrun
    by (vm_compute; reflexivity).
  assert (in_flight (state_after Settings.defaults slow_write) = None) as Hf
    by (vm_compute; reflexivity).
  assert (batch (state_after Settings.defaults slow_write) <> []) as Hb
    by (vm_compute; discriminate).
  assert (head (unflushed (accepted (hist (state_after Settings.defaults slow_write)))
                  (state_after Settings.defaults slow_write))
          = Some (6 * second, metric "C")) as Hh
    by (vm_compute; reflexivity).
  specialize (H slow_write _ Hrun Hf Hb _ _ Hh).
  vm_compute in H. apply H. reflexivity.
Qed.

Lemma time_trigger_deadline_witness :
  let s := state_after small_batches quiet_run in
  map (fun a => (a_trigger a, a_started a)) (attempts (hist s))
    = [(ByCount, 0); (ByTime, 5 * second); (AtExit, 5 * second); (AtStop, 5 * second)]
  /\ within_deadline small_batches (dequeued (hist s)) s
  /\ fires_after_interval small_batches (attempts (hist s)).
Proof.
  cbv zeta. split; [vm_compute; reflexivity|].
  assert (punctual_steps small_batches quiet_run (start small_batches 0)
          = Some (state_after small_batches quiet_run)) as Hrun
    by (vm_compute; reflexivity).
  exact (time_trigger_deadline small_batches 0 quiet_run _ Hrun).
Defined.

End PipelineFacts.

(** ** The cost of a request *)

Module CostFacts.

(** One million input tokens of a model without a price of its own cost
    0.1, which as a float is [7205759403792794 * 2^-56] and no decimal
    with 8 places; ten such costs add up to 0.9999999999999999, not to
    1.0. *)
Lemma cost_is_binary_float :
  Settings.calculate_cost Settings.default_pricing "command-r" 1000000 0
    = Value (S754_finite false 7205759403792794 (-56))
  /\ PyFloat.is_decimal 8 (S754_finite false 7205759403792794 (-56)) = false
  /\ PyFloat.sum (repeat (S754_finite false 7205759403792794 (-56)) 10)
       = S754_finite false 9007199254740991 (-53)
  /\ PyFloat.literal 1 0 = S754_finite false 4503599627370496 (-52).
Proof. repeat split; vm_compute; reflexivity. Qed.

(** C9, as amended. The cost is a binary float: whenever the sum of
    the two costs is finite and does not round to zero, the result of
    [calculate_cost] is the float nearest to [k / 10^8] for an integer
    [k]; otherwise it is a zero, or the sum itself when that is an
    infinity or NaN. *)
Theorem calculate_cost_nearest_decimal
    (self : Settings.pricing) (model : string)
    (input_tokens output_tokens : Z) (cost : spec_float) :
  Settings.calculate_cost self model input_tokens output_tokens = Value cost ->
  (exists k, k <> 0 /\ PyFloat.int_truediv k (10 ^ 8) = Value cost)
  \/ (exists s, cost = S754_zero s)
  \/ (exists s, cost = S754_infinity s)
  \/ cost = S754_nan.
Proof.
  unfold Settings.calculate_cost.
  destruct (Settings.get_model_costs self model) as [input_cost_per_m output_cost_per_m].
  destruct (PyFloat.int_truediv input_tokens 1000000) as [i|e]; [| discriminate].
  destruct (PyFloat.int_truediv output_tokens 1000000) as [o|e]; [| discriminate].
  unfold PyFloat.round.
  destruct (PyFloat.add _ _) as [s | s | | s m e].
  - intros [= <-]. right; left. eauto.
  - intros [= <-]. right; right; left. eauto.
  - intros [= <-]. right; right; right. reflexivity.
  - set (k := if 0 <=? e then _ else _).
    destruct (Z.eqb_spec k 0) as [_|Hk].
    + intros [= <-]. right; left. eauto.
    + intros H. left. exists (if s then - k else k). split; [| exact H].
      destruct s; lia.
Qed.

Lemma calculate_cost_nearest_decimal_witness :
  exists k, k <> 0
    /\ PyFloat.int_truediv k (10 ^ 8)
       = Value (S754_finite false 7205759403792794 (-56)).
Proof.
  assert (Settings.calculate_cost Settings.default_pricing "command-r" 1000000 0
          = Value (S754_finite false 7205759403792794 (-56))) as H
    by (vm_compute; reflexivity).
  destruct (calculate_cost_nearest_decimal Settings.default_pricing "command-r"
              1000000 0 _ H) as [Hk | [[s Hz] | [[s Hi] | Hn]]];
    [exact Hk | discriminate Hz | discriminate Hi | discriminate Hn].
Defined.

End CostFacts.

(** * Properties of more of the code *)

(** ** Invariants of the metrics service *)

Module PipelineInvariants.
Import Schemas MetricsService PipelineFacts Pipeline.

Section Runs.
Variable settings : Settings.t.

Lemma steps_invariant (I : system -> Prop) :
  (forall e s s', coherent s -> I s -> step settings e s = Some s' -> I s') ->
  forall es s s', coherent s -> I s -> steps settings es s = Some s' -> I s'.
Proof.
  intros Hstep es. induction es as [|e es IH]; intros s s' Hc Hi; cbn [steps].
  - now intros [= <-].
  - destruct (step settings e s) as [s1|] eqn:E; [| discriminate].
    apply IH; [eapply step_coherent | eapply Hstep]; eauto.
Qed.

Lemma steps_app es1 es2 s :
  steps settings (es1 ++ es2) s =
  match steps settings es1 s with
  | Some s1 => steps settings es2 s1
  | None => None
  end.
Proof.
  revert s. induction es1 as [|e es1 IH]; intros s; cbn [app steps]; [reflexivity|].
  destruct (step settings e s); auto.
Qed.

Lemma loop_head_frame s :
  metrics_queue (loop_head settings s) = metrics_queue s
  /\ running (loop_head settings s) = running s
  /\ stop_at (loop_head settings s) = stop_at s
  /\ hist (loop_head settings s) = hist s
  /\ llm_metrics (loop_head settings s) = llm_metrics s
  /\ now (loop_head settings s) = now s
  /\ last_flush (loop_head settings s) = last_flush s.
Proof.
  unfold loop_head.
  destruct (running s) eqn:Hrun,
    (interval_elapsed settings s && nonempty (batch s)),
    (nonempty (batch s)); fields; repeat split; exact Hrun.
Qed.

(** *** The queue stays within its capacity *)

Lemma step_queue_within e s s' :
  queue_within settings s -> step settings e s = Some s' -> queue_within settings s'.
Proof.
  unfold queue_within, AsyncQueue.qsize. intros [Hm Hq].
  destruct e; cbn [step].
  - unfold tick. destruct (0 <=? d); [| discriminate]. intros [= <-]. fields. auto.
  - unfold log_metric_returns.
    destruct (log_metric_cases metric (metrics_queue s) (log s))
      as [[_ ->] | [Hfull ->]]; [discriminate|].
    intros [= <-]. fields. split; [exact Hm|]. intros Hpos.
    unfold AsyncQueue.full, AsyncQueue.qsize in Hfull. rewrite Hm in Hfull.
    destruct (Z.leb_spec (Settings.METRICS_QUEUE_SIZE settings) 0); [lia|].
    apply Z.leb_gt in Hfull. rewrite length_app. cbn [length]. lia.
  - unfold worker_starts. destruct (worker_at s); try discriminate.
    intros [= <-]. destruct (loop_head_frame
      (set_worker Created [] (now s) (add_log (Info "Metrics worker started") s)))
      as (-> & _). fields. auto.
  - unfold get_returns. destruct (worker_at s); try discriminate.
    unfold AsyncQueue.get_nowait.
    destruct (AsyncQueue.items (metrics_queue s)) as [|m rest] eqn:Eq; [discriminate|].
    fields. cbn [length] in Hq.
    destruct (Settings.METRICS_BATCH_SIZE settings <=? _); intros [= <-].
    + fields. split; [exact Hm | intros Hp; specialize (Hq Hp); lia].
    + match goal with |- context [loop_head settings ?x] =>
        destruct (loop_head_frame x) as (-> & _) end.
      fields. split; [exact Hm | intros Hp; specialize (Hq Hp); lia].
  - unfold get_times_out. destruct (worker_at s); try discriminate.
    intros [= <-]. destruct (loop_head_frame s) as (-> & _). auto.
  - unfold flush_ends. destruct (in_flight s) as [f|]; [| discriminate].
    destruct (_flush_batch_returns (f_batch f) fault (llm_metrics s) (log s))
      as (table & lg & ->). fields.
    destruct (worker_at s);
      try (destruct (stop_at s); try discriminate);
      intros [= <-];
      try match goal with |- context [loop_head settings ?x] =>
            destruct (loop_head_frame x) as (-> & _) end;
      fields; auto.
  - unfold sleep_ends. destruct (worker_at s); try discriminate.
    intros [= <-]. destruct (loop_head_frame s) as (-> & _). auto.
  - unfold stop. destruct (stop_at s); try discriminate.
    destruct (running s); intros [= <-]; fields; auto.
  - unfold stop_resumes. destruct (stop_at s); try discriminate.
    destruct (worker_at s); try discriminate.
    + rewrite drain_all by lia. cbn [app].
      destruct (nonempty _); intros [= <-]; fields;
        (split; [exact Hm | intros; cbn [length]; lia]).
    + intros [= <-]. fields. auto.
Qed.

(** *** The sizes of the batches *)

Lemma batch_length_pos (b : list MetricsCreate) : b <> [] -> 1 <= Z.of_nat (length b).
Proof. destruct b; [congruence | cbn [length]; lia]. Qed.

Lemma loop_head_batches_fit s :
  in_flight s = None ->
  Forall (fun a => batch_fits settings (a_trigger a) (a_batch a)) (attempts (hist s)) ->
  Z.of_nat (length (batch s)) < Settings.METRICS_BATCH_SIZE settings ->
  batches_fit settings (loop_head settings s).
Proof.
  intros Hfl Ha Hb.
  destruct (loop_head_cases settings s)
    as [(_ & _ & Hne & ->) | [(_ & _ & ->) | [(_ & Hne & ->) | (_ & Hnil & ->)]]];
    unfold batches_fit; fields.
  - split; [exact Ha | split; [| exact Hb]].
    intros f [= <-]. cbn [f_trigger f_batch batch_fits].
    pose proof (batch_length_pos _ Hne). lia.
  - split; [exact Ha | split; [| exact Hb]]. intros f E. congruence.
  - split; [exact Ha | split; [| exact Hb]].
    intros f [= <-]. cbn [f_trigger f_batch batch_fits].
    pose proof (batch_length_pos _ Hne). lia.
  - split; [exact Ha | split; [| cbn [length]; rewrite Hnil in Hb; exact Hb]].
    intros f E. congruence.
Qed.

Lemma step_batches_fit e s s' :
  1 <= Settings.METRICS_BATCH_SIZE settings ->
  coherent s -> batches_fit settings s -> step settings e s = Some s' -> batches_fit settings s'.
Proof.
  intros HB [_ _ Hw Hs] (Ha & Hf & Hb).
  destruct (bystander e) eqn:Eby.
  { intros E.
    destruct (bystander_keeps_worker settings e s s' Eby E)
      as (E1 & E2 & _ & E4 & E5 & _).
    unfold batches_fit. rewrite E1, E2, E4, E5. auto. }
  unfold worker_coherent in Hw.
  destruct e; try discriminate Eby; cbn [step].
  - (* the worker starts *)
    unfold worker_starts. destruct (worker_at s); try discriminate.
    intros [= <-]. apply loop_head_batches_fit; fields; [tauto | exact Ha | cbn; lia].
  - (* an item from the queue *)
    unfold get_returns. destruct (worker_at s) eqn:Ew; try discriminate.
    unfold AsyncQueue.get_nowait.
    destruct (AsyncQueue.items (metrics_queue s)) as [|m rest]; [discriminate|].
    fields.
    assert (Z.of_nat (length (batch s ++ [m])) = Z.of_nat (length (batch s)) + 1) as El
      by (rewrite length_app; cbn [length]; lia).
    destruct (Z.leb_spec (Settings.METRICS_BATCH_SIZE settings)
                (Z.of_nat (length (batch s ++ [m])))); intros [= <-].
    + unfold batches_fit. fields. split; [exact Ha | split; [| lia]].
      intros f [= <-]. cbn [f_trigger f_batch batch_fits]. lia.
    + apply loop_head_batches_fit; fields; [exact Hw | exact Ha | lia].
  - (* the timeout *)
    unfold get_times_out. destruct (worker_at s) eqn:Ew; try discriminate.
    intros [= <-]. apply loop_head_batches_fit; auto.
  - (* a flush ends *)
    unfold flush_ends. destruct (in_flight s) as [f|] eqn:Efl; [| discriminate].
    destruct (_flush_batch_returns (f_batch f) fault (llm_metrics s) (log s))
      as (table & lg & ->). fields.
    assert (Forall (fun a => batch_fits settings (a_trigger a) (a_batch a))
              (attempts (hist (end_flight f fault table lg s)))) as Ha'.
    { fields. apply Forall_app. split; [exact Ha|].
      constructor; [| constructor]. cbn [a_trigger a_batch]. now apply Hf. }
    destruct (worker_at s) eqn:Ew; try congruence; try contradiction;
      try (destruct Hw as [Hw0 _]; congruence).
    + intros [= <-]. unfold batches_fit. fields.
      split; [exact Ha' | split; [discriminate | cbn [length]; lia]].
    + intros [= <-]. apply loop_head_batches_fit; fields;
        [reflexivity | exact Ha' | cbn [length]; lia].
    + intros [= <-]. unfold batches_fit. fields.
      split; [exact Ha' | split; [discriminate | cbn [length]; lia]].
    + destruct (stop_at s); try discriminate. intros [= <-].
      unfold batches_fit. fields. rewrite Ew.
      split; [exact Ha' | split; [discriminate | exact Hb]].
  - (* the sleep ends *)
    unfold sleep_ends. destruct (worker_at s); try discriminate. contradiction.
  - (* [stop] goes on *)
    unfold stop_resumes. destruct (stop_at s); try discriminate.
    destruct (worker_at s) eqn:Ew; try discriminate; try contradiction.
    rewrite drain_all by lia. cbn [app].
    destruct (AsyncQueue.items (metrics_queue s)) as [|m rest] eqn:Eq;
      cbn [nonempty]; intros [= <-]; unfold batches_fit; fields; rewrite Ew.
    + split; [exact Ha | split; [exact Hf | exact Hb]].
    + split; [exact Ha | split; [| exact Hb]].
      intros f [= <-]. cbn [f_trigger f_batch batch_fits length]. lia.
Qed.

Lemma start_batches_fit t0 :
  1 <= Settings.METRICS_BATCH_SIZE settings -> batches_fit settings (start settings t0).
Proof.
  intros HB. unfold batches_fit. cbn. split; [constructor | split; [discriminate | lia]].
Qed.

(** *** What a step does to the table and to the list of flushes *)

Lemma execute_all_rows fault i b tx tx' :
  execute_all fault i b tx = Value tx' -> tx' = tx ++ b.
Proof.
  revert i tx. induction b as [|m b IH]; intros i tx; cbn [execute_all].
  - intros [= <-]. now rewrite app_nil_r.
  - assert (execute_all fault (S i) b (tx ++ [m]) = Value tx' -> tx' = tx ++ m :: b) as Hgo.
    { intros E%IH. now rewrite <- app_assoc in E. }
    destruct fault as [[| j |]|]; auto.
    destruct (i =? j)%nat; [discriminate | auto].
Qed.

Lemma insert_batch_rows fault b table table' :
  insert_batch fault b table = Value table' -> table' = table ++ b.
Proof.
  unfold insert_batch.
  destruct fault as [[| j |]|]; try discriminate;
    destruct (execute_all _ 0 b []) as [tx|] eqn:E; try discriminate;
    apply execute_all_rows in E; cbn [app] in E; subst tx; now intros [= <-].
Qed.

Lemma insert_batch_healthy b table : insert_batch None b table = Value (table ++ b).
Proof.
  unfold insert_batch.
  destruct (execute_all None 0 b []) as [tx|e] eqn:E.
  - apply execute_all_rows in E. now subst tx.
  - exfalso. revert E. generalize 0%nat ([] : list MetricsCreate).
    induction b as [|m b IH]; intros i tx; cbn [execute_all]; [discriminate | apply IH].
Qed.

Lemma _flush_batch_table b fault table lg :
  snd (fst (_flush_batch b fault table lg)) =
  if is_value (insert_batch fault b table) then table ++ b else table.
Proof.
  unfold _flush_batch. destruct b as [|m b].
  - cbn [fst snd]. rewrite app_nil_r. now destruct (is_value _).
  - destruct (insert_batch fault (m :: b) table) as [t'|e] eqn:E; cbn [fst snd is_value].
    + now apply insert_batch_rows in E.
    + reflexivity.
Qed.

Lemma step_attempts e s s' :
  step settings e s = Some s' ->
  (attempts (hist s') = attempts (hist s) /\ llm_metrics s' = llm_metrics s)
  \/ exists fault f,
       e = FlushEnds fault /\ in_flight s = Some f
       /\ attempts (hist s') = attempts (hist s) ++
            [{| a_trigger := f_trigger f; a_started := f_started f; a_ended := now s;
                a_batch := f_batch f;
                a_ok := is_value (insert_batch fault (f_batch f) (llm_metrics s)) |}]
       /\ llm_metrics s' =
            if is_value (insert_batch fault (f_batch f) (llm_metrics s))
            then llm_metrics s ++ f_batch f else llm_metrics s.
Proof.
  destruct e; cbn [step].
  - unfold tick. destruct (0 <=? d); [| discriminate]. intros [= <-]. left. auto.
  - unfold log_metric_returns.
    destruct (log_metric_cases metric (metrics_queue s) (log s))
      as [[_ ->] | [_ ->]]; [discriminate|].
    intros [= <-]. left. auto.
  - unfold worker_starts. destruct (worker_at s); try discriminate.
    intros [= <-]. left.
    match goal with |- context [loop_head settings ?x] =>
      destruct (loop_head_frame x) as (_ & _ & _ & -> & -> & _) end. auto.
  - unfold get_returns. destruct (worker_at s); try discriminate.
    destruct (AsyncQueue.get_nowait (metrics_queue s)) as [[m q']|]; [| discriminate].
    destruct (Settings.METRICS_BATCH_SIZE settings <=? _); intros [= <-]; left.
    + auto.
    + match goal with |- context [loop_head settings ?x] =>
        destruct (loop_head_frame x) as (_ & _ & _ & -> & -> & _) end. auto.
  - unfold get_times_out. destruct (worker_at s); try discriminate.
    intros [= <-]. left.
    destruct (loop_head_frame s) as (_ & _ & _ & -> & -> & _). auto.
  - unfold flush_ends. destruct (in_flight s) as [f|] eqn:Efl; [| discriminate].
    pose proof (_flush_batch_table (f_batch f) fault (llm_metrics s) (log s)) as Ht.
    destruct (_flush_batch (f_batch f) fault (llm_metrics s) (log s)) as [[r table] lg].
    cbn [fst snd] in Ht. intros E. right. exists fault, f.
    split; [reflexivity | split; [reflexivity|]]. rewrite <- Ht.
    revert E.
    destruct (worker_at (end_flight f fault table lg s)), r;
      try (destruct (stop_at (end_flight f fault table lg s)); try discriminate);
      intros [= <-];
      try match goal with |- context [loop_head settings ?x] =>
            destruct (loop_head_frame x) as (_ & _ & _ & -> & -> & _) end;
      fields; auto.
  - unfold sleep_ends. destruct (worker_at s); try discriminate.
    intros [= <-]. left.
    destruct (loop_head_frame s) as (_ & _ & _ & -> & -> & _). auto.
  - unfold stop. destruct (stop_at s); try discriminate.
    destruct (running s); intros [= <-]; left; auto.
  - unfold stop_resumes. destruct (stop_at s); try discriminate.
    destruct (worker_at s); try discriminate.
    + destruct (drain _ _ _) as [b q']. destruct (nonempty b); intros [= <-]; left; auto.
    + intros [= <-]. left. auto.
Qed.

Lemma step_table_of_flushes e s s' :
  table_of_flushes s -> step settings e s = Some s' -> table_of_flushes s'.
Proof.
  unfold table_of_flushes. intros Ht E.
  destruct (step_attempts e s s' E) as [[-> ->] | (fault & f & _ & _ & -> & ->)];
    [exact Ht|].
  rewrite List.filter_app, map_app, concat_app. cbn [List.filter a_ok].
  destruct (is_value _); cbn [map concat a_batch]; rewrite Ht, ?app_nil_r; reflexivity.
Qed.

Lemma sublist_concat_filter (atts : list attempt) :
  sublist (concat (map a_batch (List.filter a_ok atts))) (concat (map a_batch atts)).
Proof.
  induction atts as [|a atts IH]; cbn [List.filter map concat]; [constructor|].
  destruct (a_ok a); cbn [map concat].
  - apply sublist_app; [reflexivity | exact IH].
  - now apply sublist_inserts_l.
Qed.

Lemma steps_table_of_flushes es s s' :
  table_of_flushes s -> steps settings es s = Some s' -> table_of_flushes s'.
Proof.
  revert s. induction es as [|e es IH]; intros s Ht; cbn [steps].
  - now intros [= <-].
  - destruct (step settings e s) as [s1|] eqn:E; [| discriminate].
    apply IH. eapply step_table_of_flushes; eauto.
Qed.

(** X1. The table holds the batches of the successful flushes, whole and
    in the order of the flushes: its rows are accepted metrics in the
    order of their acceptance, and none is written twice unless it was
    accepted twice. *)
Theorem table_rows_in_order (t0 : Z) (es : list event) (s : system) :
  steps settings es (start settings t0) = Some s ->
  llm_metrics s = concat (map a_batch (List.filter a_ok (attempts (hist s))))
  /\ sublist (llm_metrics s) (map snd (accepted (hist s)))
  /\ (NoDup (map snd (accepted (hist s))) -> NoDup (llm_metrics s)).
Proof.
  intros Hrun.
  assert (table_of_flushes s) as Ht
    by (apply (steps_table_of_flushes es (start settings t0)); [reflexivity | exact Hrun]).
  destruct (steps_coherent settings es _ s (start_coherent settings t0) Hrun)
    as [Ha Hd _ _].
  assert (sublist (llm_metrics s) (map snd (accepted (hist s)))) as Hsub.
  { rewrite Ht, Ha, Hd, <- app_assoc. apply sublist_inserts_r.
    apply sublist_concat_filter. }
  split; [exact Ht | split; [exact Hsub|]].
  intros Hnd. eapply sublist_NoDup; eauto.
Qed.

(** *** A sink that never fails *)

Lemma steps_healthy es s s' :
  forallb sink_healthy es = true ->
  Forall (fun a => a_ok a = true) (attempts (hist s)) ->
  steps settings es s = Some s' ->
  Forall (fun a => a_ok a = true) (attempts (hist s')).
Proof.
  revert s. induction es as [|e es IH]; intros s Hes Hok; cbn [steps].
  - now intros [= <-].
  - cbn [forallb] in Hes. apply andb_true_iff in Hes as [He Hes].
    destruct (step settings e s) as [s1|] eqn:E; [| discriminate].
    apply IH; [exact Hes|].
    destruct (step_attempts e s s1 E) as [[-> _] | (fault & f & -> & _ & -> & _)];
      [exact Hok|].
    apply Forall_app. split; [exact Hok|]. constructor; [| constructor].
    cbn [a_ok]. destruct fault; [discriminate He|].
    now rewrite insert_batch_healthy.
Qed.

Lemma filter_all_ok (atts : list attempt) :
  Forall (fun a => a_ok a = true) atts -> List.filter a_ok atts = atts.
Proof.
  induction 1 as [|a atts Ha _ IH]; cbn [List.filter]; [reflexivity|].
  now rewrite Ha, IH.
Qed.

(** X2. With a sink that writes every batch, a shutdown loses nothing:
    when [stop] has returned, the table followed by what is still in the
    queue is the list of the accepted metrics, and every metric
    accepted before [stop] was called is in the table. *)
Theorem healthy_sink_keeps_all (t0 : Z) (es : list event) (s : system) :
  forallb sink_healthy es = true ->
  steps settings es (start settings t0) = Some s ->
  stop_at s = Stopped ->
  llm_metrics s ++ AsyncQueue.items (metrics_queue s) = map snd (accepted (hist s))
  /\ take (accepted_at_stop (hist s)) (map snd (accepted (hist s)))
     = take (accepted_at_stop (hist s)) (llm_metrics s).
Proof.
  intros Hes Hrun Hstop.
  assert (table_of_flushes s) as Ht
    by (apply (steps_table_of_flushes es (start settings t0)); [reflexivity | exact Hrun]).
  assert (Forall (fun a => a_ok a = true) (attempts (hist s))) as Hok
    by (apply (steps_healthy es (start settings t0)); [exact Hes | constructor | exact Hrun]).
  unfold table_of_flushes in Ht. rewrite (filter_all_ok _ Hok) in Ht.
  destruct (steps_coherent settings es _ s (start_coherent settings t0) Hrun)
    as [Ha Hd Hw Hs].
  unfold stop_coherent in Hs. rewrite Hstop in Hs. destruct Hs as (Ew & Hfl & Hn).
  unfold worker_coherent in Hw. rewrite Ew in Hw. destruct Hw as [Hb _].
  unfold pending in Hd. rewrite Hfl, Hb, app_nil_r in Hd.
  fold (flushed s) in Ht.
  rewrite Ha, Hd, Ht. split; [reflexivity|].
  apply take_app_le. rewrite <- Hd, length_map. exact Hn.
Qed.

(** *** The worker and [stop] never fail *)

(** X3. Whatever the sink does, the worker task does not end with an
    exception and never enters its error sleep, and [stop] does not
    raise. *)
Theorem worker_survives (t0 : Z) (es : list event) (s : system) :
  steps settings es (start settings t0) = Some s ->
  worker_at s <> Failed
  /\ (forall since, worker_at s <> Sleeping since)
  /\ stop_at s <> StopFailed.
Proof.
  intros Hrun.
  destruct (steps_coherent settings es _ s (start_coherent settings t0) Hrun)
    as [_ _ Hw Hs].
  unfold worker_coherent in Hw. unfold stop_coherent in Hs.
  repeat split.
  - intros E. now rewrite E in Hw.
  - intros since E. now rewrite E in Hw.
  - intros E. now rewrite E in Hs.
Qed.

(** *** [stop] returns *)

Lemma loop_head_stopping s :
  running s = false -> stop_at s = AwaitWorker ->
  stop_at (loop_head settings s) = AwaitWorker
  /\ (worker_rank (worker_at (loop_head settings s)) <= 1)%nat.
Proof.
  intros Hrun Hst.
  destruct (loop_head_cases settings s)
    as [(E & _) | [(E & _) | [(_ & _ & ->) | (_ & _ & ->)]]];
    try congruence; fields; cbn [worker_rank]; split; auto.
Qed.

Lemma loop_head_stopping_empty s :
  running s = false -> batch s = [] ->
  worker_at (loop_head settings s) = Finished
  /\ stop_at (loop_head settings s) = stop_at s.
Proof.
  intros Hrun Hb.
  destruct (loop_head_cases settings s)
    as [(E & _) | [(E & _) | [(_ & E & _) | (_ & _ & ->)]]];
    try congruence; fields; auto.
Qed.

Lemma bystander_keeps_stop e s s' :
  bystander e = true -> stop_at s <> NotStopped -> step settings e s = Some s' ->
  stop_at s' = stop_at s /\ worker_at s' = worker_at s.
Proof.
  destruct e; try discriminate; intros _ Hst; cbn [step].
  - unfold tick. destruct (0 <=? d); [| discriminate]. intros [= <-]. auto.
  - unfold log_metric_returns.
    destruct (log_metric_cases metric (metrics_queue s) (log s))
      as [[_ ->] | [_ ->]]; [discriminate|].
    intros [= <-]. auto.
  - unfold stop. destruct (stop_at s); try discriminate. congruence.
Qed.

Lemma own_step_rank e s s' :
  coherent s -> stop_at s = AwaitWorker \/ stop_at s = StopFlushing ->
  bystander e = false -> step settings e s = Some s' ->
  (stop_rank s' < stop_rank s)%nat
  /\ (stop_at s' = AwaitWorker \/ stop_at s' = StopFlushing \/ stop_at s' = Stopped).
Proof.
  intros [_ _ Hw Hs] Hst Eby.
  unfold worker_coherent in Hw. unfold stop_coherent in Hs. unfold stop_rank.
  destruct e; try discriminate Eby; cbn [step].
  - unfold worker_starts. destruct (worker_at s) eqn:Ew; try discriminate.
    intros [= <-]. destruct Hst as [Est | Est]; rewrite Est in *;
      [| destruct Hs as (E & _); congruence].
    destruct Hs as [Hrun _].
    match goal with |- context [loop_head settings ?x] =>
      destruct (loop_head_stopping_empty x) as [-> ->] end; fields; auto.
    rewrite Est. cbn [worker_rank]. split; [lia | auto].
  - unfold get_returns. destruct (worker_at s) eqn:Ew; try discriminate.
    destruct Hst as [Est | Est]; rewrite Est in *;
      [| destruct Hs as (E & _); congruence].
    destruct Hs as [Hrun _].
    destruct (AsyncQueue.get_nowait (metrics_queue s)) as [[m q']|]; [| discriminate].
    destruct (Settings.METRICS_BATCH_SIZE settings <=? _); intros [= <-].
    + fields. rewrite Est. cbn [worker_rank]. split; [lia | auto].
    + match goal with |- context [loop_head settings ?x] =>
        destruct (loop_head_stopping x) as [-> Hr] end; fields; auto.
      cbn [worker_rank]. split; [lia | auto].
  - unfold get_times_out. destruct (worker_at s) eqn:Ew; try discriminate.
    destruct Hst as [Est | Est]; rewrite Est in *;
      [| destruct Hs as (E & _); congruence].
    destruct Hs as [Hrun _]. intros [= <-].
    destruct (loop_head_stopping s Hrun Est) as [-> Hr].
    cbn [worker_rank]. split; [lia | auto].
  - unfold flush_ends. destruct (in_flight s) as [f|] eqn:Efl; [| discriminate].
    destruct (_flush_batch_returns (f_batch f) fault (llm_metrics s) (log s))
      as (table & lg & ->). fields.
    destruct (worker_at s) eqn:Ew; try congruence; try contradiction;
      try (destruct Hw as [Hw0 _]; congruence).
    + (* FlushingTime *)
      destruct Hst as [Est | Est]; rewrite Est in *;
        [| destruct Hs as (E & _); congruence].
      intros [= <-]. fields. rewrite Est. cbn [worker_rank]. split; [lia | auto].
    + (* FlushingCount *)
      destruct Hst as [Est | Est]; rewrite Est in *;
        [| destruct Hs as (E & _); congruence].
      destruct Hs as [Hrun _]. intros [= <-].
      match goal with |- context [loop_head settings ?x] =>
        destruct (loop_head_stopping_empty x) as [-> ->] end; fields; auto.
      rewrite Est. cbn [worker_rank]. split; [lia | auto].
    + (* FlushingFinal *)
      destruct Hst as [Est | Est]; rewrite Est in *;
        [| destruct Hs as (E & _); congruence].
      intros [= <-]. fields. rewrite Est. cbn [worker_rank]. split; [lia | auto].
    + (* the flush of [stop] *)
      destruct Hst as [Est | Est]; rewrite Est in *.
      * discriminate.
      * intros [= <-]. fields. split; [lia | auto].
  - unfold sleep_ends. destruct (worker_at s); try discriminate. contradiction.
  - unfold stop_resumes.
    destruct Hst as [Est | Est]; rewrite Est in *; [| discriminate].
    destruct (worker_at s) eqn:Ew; try discriminate; try contradiction.
    destruct (drain _ _ _) as [b q']. cbn [worker_rank].
    destruct (nonempty b); intros [= <-]; fields; split; auto; lia.
Qed.

Lemma stopped_only_bystanders e s s' :
  coherent s -> stop_at s = Stopped -> step settings e s = Some s' ->
  bystander e = true /\ stop_at s' = Stopped.
Proof.
  intros [_ _ Hw Hs] Est. unfold stop_coherent in Hs. rewrite Est in Hs.
  destruct Hs as (Ew & Hfl & _).
  destruct e; cbn [step bystander].
  - unfold tick. destruct (0 <=? d); [| discriminate]. intros [= <-]. auto.
  - unfold log_metric_returns.
    destruct (log_metric_cases metric (metrics_queue s) (log s))
      as [[_ ->] | [_ ->]]; [discriminate|].
    intros [= <-]. auto.
  - unfold worker_starts. rewrite Ew. discriminate.
  - unfold get_returns. rewrite Ew. discriminate.
  - unfold get_times_out. rewrite Ew. discriminate.
  - unfold flush_ends. rewrite Hfl. discriminate.
  - unfold sleep_ends. rewrite Ew. discriminate.
  - unfold stop. rewrite Est. discriminate.
  - unfold stop_resumes. rewrite Est. discriminate.
Qed.

Lemma stop_pending_progress s :
  coherent s -> stop_at s = AwaitWorker \/ stop_at s = StopFlushing ->
  exists e s', bystander e = false /\ step settings e s = Some s'.
Proof.
  intros [_ _ Hw Hs] Hst.
  unfold worker_coherent in Hw. unfold stop_coherent in Hs.
  destruct Hst as [Est | Est]; rewrite Est in Hs.
  - destruct (worker_at s) eqn:Ew; try contradiction.
    + exists WorkerStarts. eexists. split; [reflexivity|].
      cbn [step]. unfold worker_starts. rewrite Ew. reflexivity.
    + exists GetTimesOut. eexists. split; [reflexivity|].
      cbn [step]. unfold get_times_out. rewrite Ew. reflexivity.
    + destruct Hw as (f & Efl & _).
      destruct (_flush_batch_returns (f_batch f) None (llm_metrics s) (log s))
        as (table & lg & Er).
      exists (FlushEnds None). eexists.
      split; [reflexivity|]. cbn [step]. unfold flush_ends. rewrite Efl, Er.
      fields. rewrite Ew. reflexivity.
    + destruct Hw as (f & Efl & _).
      destruct (_flush_batch_returns (f_batch f) None (llm_metrics s) (log s))
        as (table & lg & Er).
      exists (FlushEnds None). eexists.
      split; [reflexivity|]. cbn [step]. unfold flush_ends. rewrite Efl, Er.
      fields. rewrite Ew. reflexivity.
    + destruct Hw as (f & Efl & _).
      destruct (_flush_batch_returns (f_batch f) None (llm_metrics s) (log s))
        as (table & lg & Er).
      exists (FlushEnds None). eexists.
      split; [reflexivity|]. cbn [step]. unfold flush_ends. rewrite Efl, Er.
      fields. rewrite Ew. reflexivity.
    + exists StopResumes.
      cbn [step]. unfold stop_resumes. rewrite Est, Ew.
      destruct (drain _ _ _) as [b q']. destruct (nonempty b); eauto.
  - destruct Hs as (Ew & Hfl & _).
    destruct (in_flight s) as [f|] eqn:Efl; [| congruence].
    destruct (_flush_batch_returns (f_batch f) None (llm_metrics s) (log s))
      as (table & lg & Er).
    exists (FlushEnds None). eexists. split; [reflexivity|].
    cbn [step]. unfold flush_ends. rewrite Efl, Er.
    fields. rewrite Ew, Est. reflexivity.
Qed.

Lemma stop_rank_bound s : (stop_rank s <= 5)%nat.
Proof.
  unfold stop_rank. destruct (stop_at s); try lia.
  destruct (worker_at s); cbn [worker_rank]; lia.
Qed.

Lemma stop_rank_zero s :
  stop_at s = AwaitWorker \/ stop_at s = StopFlushing \/ stop_at s = Stopped ->
  (stop_rank s = 0)%nat -> stop_at s = Stopped.
Proof.
  unfold stop_rank. intros [E | [E | E]]; rewrite E; intros H; auto; lia.
Qed.

Lemma steps_rank es s s' :
  coherent s ->
  stop_at s = AwaitWorker \/ stop_at s = StopFlushing \/ stop_at s = Stopped ->
  steps settings es s = Some s' ->
  (own_steps es + stop_rank s' <= stop_rank s)%nat
  /\ (stop_at s' = AwaitWorker \/ stop_at s' = StopFlushing \/ stop_at s' = Stopped).
Proof.
  revert s. induction es as [|e es IH]; intros s Hc Hst; cbn [steps].
  - intros [= <-]. cbn. split; [lia | exact Hst].
  - destruct (step settings e s) as [s1|] eqn:E; [| discriminate].
    intros Hrest. pose proof (step_coherent settings e s s1 Hc E) as Hc1.
    unfold own_steps. cbn [List.filter].
    destruct (bystander e) eqn:Eby; cbn [negb].
    + assert (stop_at s <> NotStopped) as Hns
        by (destruct Hst as [H | [H | H]]; rewrite H; discriminate).
      destruct (bystander_keeps_stop e s s1 Eby Hns E) as [E1 E2].
      destruct (IH s1 Hc1 ltac:(rewrite E1; exact Hst) Hrest) as [Hr Hst'].
      split; [| exact Hst'].
      unfold own_steps in Hr. unfold stop_rank in *. rewrite E1, E2 in Hr. exact Hr.
    + destruct Hst as [Hst | [Hst | Hst]].
      * destruct (own_step_rank e s s1 Hc (or_introl Hst) Eby E) as [Hlt Hst1].
        destruct (IH s1 Hc1 Hst1 Hrest) as [Hr Hst'].
        split; [| exact Hst']. unfold own_steps in Hr. cbn [length]. lia.
      * destruct (own_step_rank e s s1 Hc (or_intror Hst) Eby E) as [Hlt Hst1].
        destruct (IH s1 Hc1 Hst1 Hrest) as [Hr Hst'].
        split; [| exact Hst']. unfold own_steps in Hr. cbn [length]. lia.
      * destruct (stopped_only_bystanders e s s1 Hc Hst E) as [Eby' _]. congruence.
Qed.

(** X4. Once [stop] is called it returns: until it has, a step of the
    worker or of [stop] is always possible, and whatever the producers
    and the clock do in between, the worker and [stop] make at most
    five steps; when none is possible any more, [stop] has returned. *)
Theorem stop_returns (t0 : Z) (es : list event) (s : system) :
  steps settings es (start settings t0) = Some s ->
  stop_at s = AwaitWorker \/ stop_at s = StopFlushing ->
  (exists e s', bystander e = false /\ step settings e s = Some s')
  /\ forall es' s',
       steps settings es' s = Some s' ->
       (own_steps es' <= 5)%nat
       /\ ((forall e, bystander e = false -> step settings e s' = None) ->
           stop_at s' = Stopped).
Proof.
  intros Hrun Hst.
  pose proof (steps_coherent settings es _ s (start_coherent settings t0) Hrun) as Hc.
  split; [apply stop_pending_progress; assumption|].
  intros es' s' Hrun'.
  assert (stop_at s = AwaitWorker \/ stop_at s = StopFlushing \/ stop_at s = Stopped)
    as Hst3 by tauto.
  destruct (steps_rank es' s s' Hc Hst3 Hrun') as [Hr Hst'].
  pose proof (stop_rank_bound s). split; [lia|].
  intros Hstuck.
  pose proof (steps_coherent settings es' s s' Hc Hrun') as Hc'.
  destruct Hst' as [E | [E | E]]; [| | exact E].
  - destruct (stop_pending_progress s' Hc' (or_introl E)) as (e & s2 & Eby & Es).
    rewrite (Hstuck e Eby) in Es. discriminate.
  - destruct (stop_pending_progress s' Hc' (or_intror E)) as (e & s2 & Eby & Es).
    rewrite (Hstuck e Eby) in Es. discriminate.
Qed.

(** *** After [stop] *)

Lemma steps_after_stop es s s' :
  coherent s -> stop_at s = Stopped -> steps settings es s = Some s' ->
  stop_at s' = Stopped
  /\ forallb bystander es = true
  /\ AsyncQueue.items (metrics_queue s') =
     AsyncQueue.items (metrics_queue s) ++ logged es.
Proof.
  revert s. induction es as [|e es IH]; intros s Hc Hst; cbn [steps].
  - intros [= <-]. cbn. now rewrite app_nil_r.
  - destruct (step settings e s) as [s1|] eqn:E; [| discriminate].
    intros Hrest.
    destruct (stopped_only_bystanders e s s1 Hc Hst E) as [Eby Hst1].
    destruct (IH s1 (step_coherent settings e s s1 Hc E) Hst1 Hrest)
      as (Hst' & Hall & Hq).
    split; [exact Hst' | split; [cbn [forallb]; now rewrite Eby, Hall|]].
    rewrite Hq. unfold logged. cbn [flat_map]. fold (logged es).
    destruct e; try discriminate Eby; cbn [step] in E.
    + unfold tick in E. destruct (0 <=? d); [| discriminate].
      injection E as <-. reflexivity.
    + unfold log_metric_returns in E.
      destruct (log_metric_cases metric (metrics_queue s) (log s))
        as [[_ E1] | [_ E1]]; rewrite E1 in E; [discriminate|].
      injection E as <-. fields. now rewrite <- app_assoc.
    + unfold stop in E. rewrite Hst in E. discriminate.
Qed.

(** X5. After [stop] has returned (and as long as the service is not
    started again) [log_metric] still accepts metrics, and they stay in
    the queue: nothing flushes them, and the table does not change. *)
Theorem accepted_after_stop_stays_queued
    (t0 : Z) (es es' : list event) (s s' : system) :
  steps settings es (start settings t0) = Some s ->
  stop_at s = Stopped ->
  steps settings es' s = Some s' ->
  stop_at s' = Stopped
  /\ AsyncQueue.items (metrics_queue s') =
     AsyncQueue.items (metrics_queue s) ++ logged es'
  /\ attempts (hist s') = attempts (hist s)
  /\ llm_metrics s' = llm_metrics s.
Proof.
  intros Hrun Hst Hrun'.
  pose proof (steps_coherent settings es _ s (start_coherent settings t0) Hrun) as Hc.
  destruct (steps_after_stop es' s s' Hc Hst Hrun') as (Hst' & Hall & Hq).
  destruct (bystanders_keep_worker settings es' s s' Hall Hrun')
    as (_ & _ & _ & _ & Ha & Ht).
  auto.
Qed.

(** X6. The queue never holds more than [METRICS_QUEUE_SIZE] metrics. *)
Theorem queue_stays_within_capacity (t0 : Z) (es : list event) (s : system) :
  0 < Settings.METRICS_QUEUE_SIZE settings ->
  steps settings es (start settings t0) = Some s ->
  AsyncQueue.qsize (metrics_queue s) <= Settings.METRICS_QUEUE_SIZE settings.
Proof.
  intros Hpos Hrun.
  assert (queue_within settings s) as [_ Hq]; [| auto].
  apply (steps_invariant (queue_within settings)
           (fun e s s' _ => step_queue_within e s s') es (start settings t0) s
           (start_coherent settings t0)); [| exact Hrun].
  unfold queue_within, AsyncQueue.qsize. cbn. split; [reflexivity | lia].
Qed.

(** X7. With a batch size of at least 1, a flush started by the count
    trigger writes exactly [METRICS_BATCH_SIZE] metrics, one started by
    the time trigger or at the exit of the worker at least one and fewer
    than that, and the one of [stop] at least one; the batch of the
    worker never grows past the batch size. *)
Theorem batch_sizes (t0 : Z) (es : list event) (s : system) :
  1 <= Settings.METRICS_BATCH_SIZE settings ->
  steps settings es (start settings t0) = Some s ->
  Forall (fun a => batch_fits settings (a_trigger a) (a_batch a)) (attempts (hist s))
  /\ (forall f, in_flight s = Some f -> batch_fits settings (f_trigger f) (f_batch f))
  /\ Z.of_nat (length (batch s)) <= Settings.METRICS_BATCH_SIZE settings.
Proof.
  intros HB Hrun.
  assert (batches_fit settings s) as (Ha & Hf & Hb).
  { apply (steps_invariant (batches_fit settings)
             (fun e s s' => step_batches_fit e s s' HB) es (start settings t0) s
             (start_coherent settings t0)); [| exact Hrun].
    now apply start_batches_fit. }
  split; [exact Ha | split; [exact Hf|]].
  destruct (worker_at s); lia.
Qed.

End Runs.

(** X8. [_flush_batch] never raises and writes a batch whole or not at
    all: afterwards the table is the old one followed by the batch, or
    the old one; with a sink that does not fail it is the former. A
    batch that is not empty leaves one record in the log, an empty one
    none. *)
Theorem flush_batch_all_or_nothing
    (batch : list MetricsCreate) (fault : option sink_fault)
    (table : list MetricsCreate) (lg : list log_record) :
  exists table' lg',
    _flush_batch batch fault table lg = (Value tt, table', lg')
    /\ (table' = table ++ batch \/ table' = table)
    /\ (fault = None -> table' = table ++ batch)
    /\ (batch <> [] -> exists record, lg' = lg ++ [record])
    /\ (batch = [] -> lg' = lg).
Proof.
  unfold _flush_batch. destruct batch as [|m b].
  - exists table, lg. rewrite app_nil_r. repeat split; auto. congruence.
  - destruct (insert_batch fault (m :: b) table) as [table'|e] eqn:E.
    + apply insert_batch_rows in E. subst table'.
      eexists _, _. split; [reflexivity|]. repeat split; eauto. discriminate.
    + eexists _, _. split; [reflexivity|]. repeat split; eauto; [| discriminate].
      intros ->. rewrite insert_batch_healthy in E. discriminate.
Qed.

Import Scenario Examples.

Lemma table_rows_in_order_witness :
  exists s,
    steps small_batches failing_sink_run (start small_batches 0) = Some s
    /\ llm_metrics s = concat (map a_batch (List.filter a_ok (attempts (hist s))))
    /\ sublist (llm_metrics s) (map snd (accepted (hist s)))
    /\ (NoDup (map snd (accepted (hist s))) -> NoDup (llm_metrics s)).
Proof.
  assert (exists s, steps small_batches failing_sink_run (start small_batches 0) = Some s)
    as [s Hrun] by (vm_compute; eauto).
  exists s. split; [exact Hrun|].
  exact (table_rows_in_order small_batches 0 failing_sink_run s Hrun).
Defined.

Lemma healthy_sink_keeps_all_witness :
  let s := state_after small_batches quiet_run in
  llm_metrics s ++ AsyncQueue.items (metrics_queue s) = map snd (accepted (hist s))
  /\ take (accepted_at_stop (hist s)) (map snd (accepted (hist s)))
     = take (accepted_at_stop (hist s)) (llm_metrics s).
Proof.
  cbv zeta.
  assert (forallb sink_healthy quiet_run = true) as Hsink by (vm_compute; reflexivity).
  assert (steps small_batches quiet_run (start small_batches 0)
          = Some (state_after small_batches quiet_run)) as Hrun
    by (vm_compute; reflexivity).
  assert (stop_at (state_after small_batches quiet_run) = Stopped) as Hstop
    by (vm_compute; reflexivity).
  exact (healthy_sink_keeps_all small_batches 0 quiet_run _ Hsink Hrun Hstop).
Defined.

Lemma worker_survives_witness :
  exists s,
    steps small_batches failing_sink_run (start small_batches 0) = Some s
    /\ worker_at s <> Failed
    /\ (forall since, worker_at s <> Sleeping since)
    /\ stop_at s <> StopFailed.
Proof.
  assert (exists s, steps small_batches failing_sink_run (start small_batches 0) = Some s)
    as [s Hrun] by (vm_compute; eauto).
  exists s. split; [exact Hrun|].
  exact (worker_survives small_batches 0 failing_sink_run s Hrun).
Defined.

Lemma stop_returns_witness :
  exists s,
    steps small_batches stop_called_run (start small_batches 0) = Some s
    /\ stop_at s = AwaitWorker
    /\ (exists e s', bystander e = false /\ step small_batches e s = Some s')
    /\ forall es' s',
         steps small_batches es' s = Some s' ->
         (own_steps es' <= 5)%nat
         /\ ((forall e, bystander e = false -> step small_batches e s' = None) ->
             stop_at s' = Stopped).
Proof.
  assert (exists s, steps small_batches stop_called_run (start small_batches 0) = Some s
                    /\ stop_at s = AwaitWorker)
    as (s & Hrun & Hstop) by (vm_compute; eauto).
  exists s. split; [exact Hrun|]. split; [exact Hstop|].
  exact (stop_returns small_batches 0 stop_called_run s Hrun (or_introl Hstop)).
Defined.

Lemma accepted_after_stop_stays_queued_witness :
  let s := state_after small_batches quiet_run in
  exists s',
    steps small_batches late_logs s = Some s'
    /\ stop_at s' = Stopped
    /\ AsyncQueue.items (metrics_queue s')
       = AsyncQueue.items (metrics_queue s) ++ [metric "F"; metric "G"]
    /\ attempts (hist s') = attempts (hist s)
    /\ llm_metrics s' = llm_metrics s.
Proof.
  cbv zeta.
  assert (steps small_batches quiet_run (start small_batches 0)
          = Some (state_after small_batches quiet_run)) as Hrun
    by (vm_compute; reflexivity).
  assert (stop_at (state_after small_batches quiet_run) = Stopped) as Hstop
    by (vm_compute; reflexivity).
  assert (exists s', steps small_batches late_logs (state_after small_batches quiet_run)
                     = Some s') as [s' Hrun'] by (vm_compute; eauto).
  exists s'. split; [exact Hrun'|].
  exact (accepted_after_stop_stays_queued small_batches 0 quiet_run late_logs _ s'
           Hrun Hstop Hrun').
Defined.

Lemma queue_stays_within_capacity_witness :
  AsyncQueue.qsize (metrics_queue (state_after small_batches quiet_run)) <= 1000.
Proof.
  assert (0 < Settings.METRICS_QUEUE_SIZE small_batches) as Hpos
    by (vm_compute; reflexivity).
  assert (steps small_batches quiet_run (start small_batches 0)
          = Some (state_after small_batches quiet_run)) as Hrun
    by (vm_compute; reflexivity).
  exact (queue_stays_within_capacity small_batches 0 quiet_run _ Hpos Hrun).
Defined.

Lemma batch_sizes_witness :
  let s := state_after small_batches quiet_run in
  Forall (fun a => batch_fits small_batches (a_trigger a) (a_batch a)) (attempts (hist s))
  /\ (forall f, in_flight s = Some f -> batch_fits small_batches (f_trigger f) (f_batch f))
  /\ Z.of_nat (length (batch s)) <= 2.
Proof.
  cbv zeta.
  assert (1 <= Settings.METRICS_BATCH_SIZE small_batches) as HB
    by (vm_compute; discriminate).
  assert (steps small_batches quiet_run (start small_batches 0)
          = Some (state_after small_batches quiet_run)) as Hrun
    by (vm_compute; reflexivity).
  exact (batch_sizes small_batches 0 quiet_run _ HB Hrun).
Defined.

End PipelineInvariants.

(** ** Floats stay in range *)

Module FloatFacts.
Import FloatRange.

Lemma digits2_pos_spec p :
  2 ^ (Z.pos (digits2_pos p) - 1) <= Z.pos p < 2 ^ Z.pos (digits2_pos p).
Proof.
  induction p as [p IH | p IH |]; cbn [digits2_pos].
  - rewrite Pos2Z.inj_succ.
    replace (Z.succ (Z.pos (digits2_pos p)) - 1) with (Z.succ (Z.pos (digits2_pos p) - 1)) by lia.
    rewrite !Z.pow_succ_r by lia. lia.
  - rewrite Pos2Z.inj_succ.
    replace (Z.succ (Z.pos (digits2_pos p)) - 1) with (Z.succ (Z.pos (digits2_pos p) - 1)) by lia.
    rewrite !Z.pow_succ_r by lia. lia.
  - cbn. lia.
Qed.

Lemma Zdigits2_nonneg m : 0 <= Zdigits2 m.
Proof. destruct m; cbn; lia. Qed.

Lemma Zdigits2_lt m : 0 <= m -> m < 2 ^ Zdigits2 m.
Proof.
  destruct m as [|p|p]; intros H; [cbn; lia | | lia].
  apply digits2_pos_spec.
Qed.

Lemma Zdigits2_le m k : 0 <= k -> 0 <= m < 2 ^ k -> Zdigits2 m <= k.
Proof.
  intros Hk [H0 Hm]. destruct m as [|p|p]; [cbn; lia | | lia].
  cbn [Zdigits2]. pose proof (digits2_pos_spec p) as [Hlo _].
  destruct (Z_le_gt_dec (Z.pos (digits2_pos p)) k) as [|Hgt]; [assumption|].
  exfalso.
  assert (2 ^ k <= 2 ^ (Z.pos (digits2_pos p) - 1)) by (apply Z.pow_le_mono_r; lia).
  lia.
Qed.

Lemma Zdigits2_mono m m' : 0 <= m <= m' -> Zdigits2 m <= Zdigits2 m'.
Proof.
  intros H. apply Zdigits2_le; [apply Zdigits2_nonneg|].
  pose proof (Zdigits2_lt m' ltac:(lia)). lia.
Qed.

Lemma Zdigits2_succ m : 0 <= m -> Zdigits2 (m + 1) <= Zdigits2 m + 1.
Proof.
  intros H. pose proof (Zdigits2_nonneg m). apply Zdigits2_le; [lia|].
  pose proof (Zdigits2_lt m H). rewrite Z.pow_add_r by lia. cbn. lia.
Qed.

Lemma Zdigits2_pos_pos p : 1 <= Zdigits2 (Z.pos p).
Proof. cbn. lia. Qed.

(** *** Shifting to the right *)

Lemma shr_1_below mrs k :
  0 <= k -> 0 <= shr_m mrs < 2 ^ k ->
  0 <= shr_m (shr_1 mrs) < 2 ^ Z.max (k - 1) 0.
Proof.
  intros Hk. destruct mrs as [m r s]. cbn [shr_m]. intros [H0 Hm].
  assert (k = 0 \/ 1 <= k) as [-> | Hk1] by lia.
  - cbn in Hm. assert (m = 0) as -> by lia. cbn. lia.
  - rewrite Z.max_l by lia.
    assert (2 ^ k = 2 * 2 ^ (k - 1)) as E.
    { replace k with (Z.succ (k - 1)) at 1 by lia. apply Z.pow_succ_r. lia. }
    assert (0 < 2 ^ (k - 1)) by (apply Z.pow_pos_nonneg; lia).
    destruct m as [|[p|p|]|p]; cbn [shr_1 shr_m]; lia.
Qed.

Lemma iter_pos_shr_1_below p :
  forall mrs k,
    0 <= k -> 0 <= shr_m mrs < 2 ^ k ->
    0 <= shr_m (SpecFloat.iter_pos shr_1 p mrs) < 2 ^ Z.max (k - Z.pos p) 0.
Proof.
  induction p as [p IH | p IH |]; intros mrs k Hk Hm; cbn [SpecFloat.iter_pos].
  - pose proof (shr_1_below mrs k Hk Hm) as H1.
    pose proof (IH _ (Z.max (k - 1) 0) ltac:(lia) H1) as H2.
    pose proof (IH _ (Z.max (Z.max (k - 1) 0 - Z.pos p) 0) ltac:(lia) H2) as H3.
    replace (Z.max (k - Z.pos p~1) 0)
      with (Z.max (Z.max (Z.max (k - 1) 0 - Z.pos p) 0 - Z.pos p) 0) by lia.
    exact H3.
  - pose proof (IH _ k Hk Hm) as H2.
    pose proof (IH _ (Z.max (k - Z.pos p) 0) ltac:(lia) H2) as H3.
    replace (Z.max (k - Z.pos p~0) 0)
      with (Z.max (Z.max (k - Z.pos p) 0 - Z.pos p) 0) by lia.
    exact H3.
  - now apply shr_1_below.
Qed.

Lemma shr_m_of_loc m l : shr_m (shr_record_of_loc m l) = m.
Proof. destruct l as [|[]]; reflexivity. Qed.

Lemma fexp_eq x : fexp 53 1024 x = Z.max (x - 53) (-1074).
Proof. reflexivity. Qed.

Lemma shr_fexp_below m e l :
  0 <= m ->
  let '(mrs, e') := shr_fexp 53 1024 m e l in
  0 <= shr_m mrs
  /\ Zdigits2 (shr_m mrs) + e' <= Z.max (Zdigits2 m + e) (fexp 53 1024 (Zdigits2 m + e))
  /\ e' <= Z.max e (fexp 53 1024 (Zdigits2 m + e)).
Proof.
  intros Hm. unfold shr_fexp, shr.
  destruct (fexp 53 1024 (Zdigits2 m + e) - e) as [|p|p] eqn:En.
  - rewrite shr_m_of_loc. lia.
  - pose proof (Zdigits2_nonneg m) as Hd.
    pose proof (iter_pos_shr_1_below p (shr_record_of_loc m l) (Zdigits2 m) Hd) as H.
    rewrite shr_m_of_loc in H. specialize (H (conj Hm (Zdigits2_lt m Hm))).
    split; [lia|].
    pose proof (Zdigits2_le _ (Z.max (Zdigits2 m - Z.pos p) 0) ltac:(lia) H). lia.
  - rewrite shr_m_of_loc. lia.
Qed.

Lemma round_nearest_even_range m l :
  m <= round_nearest_even m l <= m + 1.
Proof.
  unfold round_nearest_even. destruct l as [|[]]; try lia.
  destruct (Z.even m); lia.
Qed.

(** The rounding step of every operation: no overflow when the exact
    value is below [2^1023]. *)
Lemma binary_round_aux_below sx mx ex lx :
  0 <= mx -> ex <= 971 -> Zdigits2 mx + ex <= 1023 ->
  below (Z.max (Zdigits2 mx + ex + 1) (-1073))
    (binary_round_aux PyFloat.prec PyFloat.emax sx mx ex lx).
Proof.
  intros Hm He Hd. unfold binary_round_aux, PyFloat.prec, PyFloat.emax.
  pose proof (shr_fexp_below mx ex lx Hm) as H1.
  destruct (shr_fexp 53 1024 mx ex lx) as [mrs1 e1].
  destruct H1 as (H1m & H1d & H1e).
  set (m2 := round_nearest_even (shr_m mrs1) (loc_of_shr_record mrs1)).
  pose proof (round_nearest_even_range (shr_m mrs1) (loc_of_shr_record mrs1)) as Hr.
  fold m2 in Hr.
  assert (0 <= m2) as Hm2 by lia.
  pose proof (shr_fexp_below m2 e1 loc_Exact Hm2) as H2.
  destruct (shr_fexp 53 1024 m2 e1 loc_Exact) as [mrs2 e2].
  destruct H2 as (H2m & H2d & H2e).
  assert (Zdigits2 m2 <= Zdigits2 (shr_m mrs1) + 1) as Hd2.
  { etransitivity; [apply (Zdigits2_mono m2 (shr_m mrs1 + 1)); lia|].
    now apply Zdigits2_succ. }
  rewrite !fexp_eq in *.
  destruct (shr_m mrs2) as [|p|p] eqn:Ep; [exact I | | lia].
  destruct (Z.leb_spec e2 (1024 - 53)) as [Hle|Hgt].
  - cbn [below]. unfold PyFloat.emax, PyFloat.prec. lia.
  - exfalso. lia.
Qed.

Lemma below_weaken k k' x : k <= k' -> below k x -> below k' x.
Proof. destruct x; cbn [below]; try tauto. lia. Qed.

Lemma below_isfinite k x : below k x -> isfinite x = true.
Proof. destruct x; cbn; tauto. Qed.

Lemma pow2_lt_digits m k : 0 <= m -> m < 2 ^ k -> 0 <= k -> Zdigits2 m <= k.
Proof. intros. apply Zdigits2_le; lia. Qed.

(** *** Division of integers *)

Lemma int_truediv_below a b :
  b <> 0 -> Z.abs a < 2 ^ 1023 ->
  exists f,
    PyFloat.int_truediv a b = Value f
    /\ below (Z.max (Zdigits2 (Z.abs a) + 1) (-1073)) f.
Proof.
  intros Hb Ha. unfold PyFloat.int_truediv.
  destruct (Z.eqb_spec b 0) as [|_]; [contradiction|].
  destruct (Z.eqb_spec a 0) as [|Hne]; [eexists; split; [reflexivity | exact I]|].
  destruct (SFdiv_core_binary PyFloat.prec PyFloat.emax (Z.abs a) 0 (Z.abs b) 0)
    as [[q e'] l] eqn:E.
  unfold SFdiv_core_binary, PyFloat.prec, PyFloat.emax in E. cbv zeta in E.
  rewrite fexp_eq in E.
  set (d1 := Zdigits2 (Z.abs a)) in *. set (d2 := Zdigits2 (Z.abs b)) in *.
  set (e0 := Z.min (Z.max (d1 + 0 - (d2 + 0) - 53) (-1074)) (0 - 0)) in *.
  assert (e0 <= 0) as He0 by (unfold e0; lia).
  assert (0 <= d1 <= 1023) as Hd1.
  { split; [apply Zdigits2_nonneg|]. apply Zdigits2_le; lia. }
  assert (0 < Z.abs a < 2 ^ d1) as Ha1.
  { split; [lia|]. apply Zdigits2_lt. lia. }
  set (m' := match 0 - 0 - e0 with
             | 0 => Z.abs a
             | Z.pos _ => Z.shiftl (Z.abs a) (0 - 0 - e0)
             | Z.neg _ => 0
             end) in *.
  assert (0 <= m' < 2 ^ (d1 - e0)) as Hm'.
  { unfold m'. destruct (0 - 0 - e0) as [|p|p] eqn:Es; [| | lia].
    - replace (d1 - e0) with d1 by lia. lia.
    - rewrite Z.shiftl_mul_pow2 by lia.
      replace (d1 - e0) with (d1 + Z.pos p) by lia.
      rewrite Z.pow_add_r by lia.
      assert (0 < 2 ^ Z.pos p) by (apply Z.pow_pos_nonneg; lia). nia. }
  assert (q = m' / Z.abs b /\ e' = e0) as [-> ->].
  { unfold Z.div. destruct (Z.div_eucl m' (Z.abs b)) as [q0 r0].
    now injection E as <- <- _. }
  assert (0 <= m' / Z.abs b <= m') as Hq.
  { split; [apply Z.div_pos; lia|].
    apply Z.div_le_upper_bound; [lia | nia]. }
  assert (Zdigits2 (m' / Z.abs b) <= d1 - e0) as Hdq
    by (apply Zdigits2_le; lia).
  pose proof (binary_round_aux_below (xorb (a <? 0) (b <? 0)) (m' / Z.abs b) e0 l
                ltac:(lia) ltac:(lia) ltac:(lia)) as Hr.
  apply (below_weaken _ (Z.max (d1 + 1) (-1073))) in Hr; [| lia].
  destruct (binary_round_aux _ _ _ _ _ _) as [sz | sz | | sz mz ez];
    cbn [below] in Hr; try contradiction; eexists; split; try reflexivity; exact Hr.
Qed.

(** *** Products and sums *)

Lemma mul_below kx ky x y :
  below kx x -> below ky y -> kx + ky <= 973 ->
  below (Z.max (kx + ky + 1) (-1073)) (PyFloat.mul x y).
Proof.
  intros Hx Hy Hk. unfold PyFloat.mul.
  destruct x as [sx | sx | | sx mx ex], y as [sy | sy | | sy my ey];
    cbn [below SFmul] in *; try contradiction; try exact I.
  destruct Hx as [Hdx Hex], Hy as [Hdy Hey].
  unfold PyFloat.emax, PyFloat.prec in *.
  pose proof (Zdigits2_lt (Z.pos mx) ltac:(lia)) as Hmx.
  pose proof (Zdigits2_lt (Z.pos my) ltac:(lia)) as Hmy.
  pose proof (Zdigits2_pos_pos mx) as Hpx. pose proof (Zdigits2_pos_pos my) as Hpy.
  assert (Zdigits2 (Z.pos (mx * my)) <= Zdigits2 (Z.pos mx) + Zdigits2 (Z.pos my)) as Hd.
  { apply Zdigits2_le; [lia|]. rewrite Pos2Z.inj_mul, Z.pow_add_r by lia. nia. }
  eapply below_weaken; [| apply binary_round_aux_below]; lia.
Qed.

Lemma iter_xO m d : Z.pos (Pos.iter xO m d) = Z.pos m * 2 ^ Z.pos d.
Proof.
  induction d as [|d IH] using Pos.peano_ind.
  - cbn. lia.
  - rewrite Pos.iter_succ, Pos2Z.inj_xO, IH, Pos2Z.inj_succ, Z.pow_succ_r by lia. lia.
Qed.

Lemma shl_align_value mx ex ex' :
  let '(m, e) := shl_align mx ex ex' in
  e <= ex /\ Z.pos m = Z.pos mx * 2 ^ (ex - e) /\ (ex' <= ex -> e = ex').
Proof.
  unfold shl_align. destruct (ex' - ex) as [|d|d] eqn:E.
  - rewrite Z.sub_diag. cbn. lia.
  - rewrite Z.sub_diag. cbn. lia.
  - rewrite iter_xO. replace (ex - ex') with (Z.pos d) by lia. lia.
Qed.

Lemma binary_round_below s m e :
  e <= 971 -> Zdigits2 (Z.pos m) + e <= 1023 ->
  below (Z.max (Zdigits2 (Z.pos m) + e + 1) (-1073)) (binary_round 53 1024 s m e).
Proof.
  intros He Hd. unfold binary_round.
  pose proof (shl_align_value m e (fexp 53 1024 (Z.pos (digits2_pos m) + e))) as H.
  destruct (shl_align m e _) as [mz ez]. destruct H as (Hez & Hmz & _).
  pose proof (Zdigits2_lt (Z.pos m) ltac:(lia)) as Hm.
  pose proof (Zdigits2_nonneg (Z.pos m)) as Hn.
  assert (Zdigits2 (Z.pos mz) <= Zdigits2 (Z.pos m) + (e - ez)) as Hdz.
  { apply Zdigits2_le; [lia|]. rewrite Hmz, Z.pow_add_r by lia.
    assert (0 < 2 ^ (e - ez)) by (apply Z.pow_pos_nonneg; lia). nia. }
  eapply below_weaken; [| apply binary_round_aux_below]; lia.
Qed.

Lemma binary_normalize_below m e k :
  e <= 971 -> k <= 1023 -> Z.abs m < 2 ^ (k - e) -> e <= k ->
  below (Z.max (k + 1) (-1073)) (binary_normalize 53 1024 m e false).
Proof.
  intros He Hk Hm Hek. unfold binary_normalize.
  destruct m as [|p|p]; [exact I | |];
    (eapply below_weaken; [| apply binary_round_below];
     [| lia |];
     assert (Zdigits2 (Z.pos p) <= k - e) by (apply Zdigits2_le; lia); lia).
Qed.

Lemma add_below kx ky x y :
  below kx x -> below ky y -> Z.max kx ky <= 1022 ->
  below (Z.max (Z.max kx ky + 2) (-1073)) (PyFloat.add x y).
Proof.
  intros Hx Hy Hk. unfold PyFloat.add.
  destruct x as [sx | sx | | sx mx ex], y as [sy | sy | | sy my ey];
    cbn [below SFadd] in *; try contradiction.
  - destruct sx, sy; exact I.
  - unfold PyFloat.emax, PyFloat.prec in *. lia.
  - unfold PyFloat.emax, PyFloat.prec in *. lia.
  - destruct Hx as [Hdx Hex], Hy as [Hdy Hey].
    unfold PyFloat.emax, PyFloat.prec in *.
    set (ez := Z.min ex ey).
    pose proof (shl_align_value mx ex ez) as Hax.
    pose proof (shl_align_value my ey ez) as Hay.
    destruct (shl_align mx ex ez) as [ax ex1], (shl_align my ey ez) as [ay ey1].
    destruct Hax as (_ & Hax & Hex1), Hay as (_ & Hay & Hey1).
    specialize (Hex1 ltac:(lia)). specialize (Hey1 ltac:(lia)). subst ex1 ey1.
    cbn [fst].
    pose proof (Zdigits2_lt (Z.pos mx) ltac:(lia)) as Hmx.
    pose proof (Zdigits2_lt (Z.pos my) ltac:(lia)) as Hmy.
    pose proof (Zdigits2_pos_pos mx) as Hpx. pose proof (Zdigits2_pos_pos my) as Hpy.
    set (M := Z.max (Zdigits2 (Z.pos mx) + ex) (Zdigits2 (Z.pos my) + ey)).
    assert (Z.pos ax < 2 ^ (M - ez)) as Hbx.
    { rewrite Hax.
      apply Z.lt_le_trans with (2 ^ Zdigits2 (Z.pos mx) * 2 ^ (ex - ez)).
      - assert (0 < 2 ^ (ex - ez)) by (apply Z.pow_pos_nonneg; lia). nia.
      - rewrite <- Z.pow_add_r by lia. apply Z.pow_le_mono_r; lia. }
    assert (Z.pos ay < 2 ^ (M - ez)) as Hby.
    { rewrite Hay.
      apply Z.lt_le_trans with (2 ^ Zdigits2 (Z.pos my) * 2 ^ (ey - ez)).
      - assert (0 < 2 ^ (ey - ez)) by (apply Z.pow_pos_nonneg; lia). nia.
      - rewrite <- Z.pow_add_r by lia. apply Z.pow_le_mono_r; lia. }
    eapply below_weaken; [| apply (binary_normalize_below _ ez (M + 1))]; try lia.
    replace (M + 1 - ez) with (Z.succ (M - ez)) by lia.
    rewrite Z.pow_succ_r by lia.
    unfold cond_Zopp. destruct sx, sy; lia.
Qed.

(** *** Rounding to decimal places *)

Lemma round_half_even_range num den :
  0 <= num -> 0 < den ->
  num / den <= PyFloat.round_half_even num den <= num / den + 1.
Proof.
  intros Hn Hd. unfold PyFloat.round_half_even.
  destruct (2 * (num mod den) ?= den); try lia.
  destruct (Z.even (num / den)); lia.
Qed.

Lemma round_8_below k x :
  below k x -> k <= 990 ->
  exists f, PyFloat.round x 8 = Value f /\ isfinite f = true.
Proof.
  intros Hx Hk. destruct x as [sx | sx | | sx m e]; cbn [below] in Hx;
    try contradiction.
  - eexists. split; reflexivity.
  - destruct Hx as [Hd He]. unfold PyFloat.round.
    pose proof (Zdigits2_lt (Z.pos m) ltac:(lia)) as Hm.
    pose proof (Zdigits2_pos_pos m) as Hp.
    set (d := Zdigits2 (Z.pos m)) in *.
    assert (10 ^ 8 < 2 ^ 27) as Hten by (cbn; lia).
    assert (0 < 10 ^ 8) as Hten0 by (cbn; lia).
    set (k0 := if 0 <=? e then Z.pos m * 2 ^ e * 10 ^ 8
               else PyFloat.round_half_even (Z.pos m * 10 ^ 8) (2 ^ (- e))).
    assert (0 <= k0 < 2 ^ (Z.max (k + 27) 0 + 1)) as Hk0.
    { unfold k0. destruct (Z.leb_spec 0 e) as [Hpos|Hneg].
      - assert (0 < 2 ^ e) by (apply Z.pow_pos_nonneg; lia).
        split; [nia|].
        apply Z.lt_le_trans with (2 ^ d * 2 ^ e * 2 ^ 27); [nia|].
        rewrite <- !Z.pow_add_r by lia. apply Z.pow_le_mono_r; lia.
      - assert (0 < 2 ^ (- e)) as Hden by (apply Z.pow_pos_nonneg; lia).
        pose proof (round_half_even_range (Z.pos m * 10 ^ 8) (2 ^ (- e))
                      ltac:(nia) Hden) as [Hlo Hhi].
        assert (0 <= Z.pos m * 10 ^ 8 / 2 ^ (- e)) by (apply Z.div_pos; nia).
        split; [lia|].
        assert (Z.pos m * 10 ^ 8 / 2 ^ (- e) < 2 ^ Z.max (k + 27) 0) as Hq.
        { apply Z.div_lt_upper_bound; [exact Hden|].
          rewrite <- Z.pow_add_r by lia.
          apply Z.lt_le_trans with (2 ^ d * 2 ^ 27); [nia|].
          rewrite <- Z.pow_add_r by lia. apply Z.pow_le_mono_r; lia. }
        rewrite Z.pow_add_r by lia. cbn [Z.pow Z.pow_pos Pos.iter Z.mul].
        assert (0 < 2 ^ Z.max (k + 27) 0) by (apply Z.pow_pos_nonneg; lia). lia. }
    fold k0. destruct (Z.eqb_spec k0 0) as [|Hne]; [eexists; split; reflexivity|].
    destruct (int_truediv_below (if sx then - k0 else k0) (10 ^ 8)) as (f & -> & Hf).
    + lia.
    + apply Z.lt_le_trans with (2 ^ (Z.max (k + 27) 0 + 1)).
      * destruct sx; lia.
      * apply Z.pow_le_mono_r; lia.
    + exists f. split; [reflexivity|]. eapply below_isfinite; eauto.
Qed.

(** *** The cost of a request is always computed *)

Lemma get_model_costs_in (P : spec_float -> Prop) self model :
  Forall P (prices self) -> P (PyFloat.literal 10 2) ->
  P (fst (Settings.get_model_costs self model))
  /\ P (snd (Settings.get_model_costs self model)).
Proof.
  intros Hp Hdef. unfold prices in Hp.
  repeat match goal with
         | H : Forall _ (_ :: _) |- _ => apply Forall_cons_iff in H as [? H]
         end.
  unfold Settings.get_model_costs.
  repeat match goal with
         | |- context [if ?b then _ else _] => destruct b
         end; cbn [fst snd]; split; assumption.
Qed.

(** *** Signs *)

Lemma binary_round_aux_nonneg mx ex lx :
  0 <= mx -> nonneg (binary_round_aux 53 1024 false mx ex lx) = true.
Proof.
  intros Hm. unfold binary_round_aux.
  pose proof (shr_fexp_below mx ex lx Hm) as H1.
  destruct (shr_fexp 53 1024 mx ex lx) as [mrs1 e1]. destruct H1 as (H1m & _).
  pose proof (round_nearest_even_range (shr_m mrs1) (loc_of_shr_record mrs1)) as Hr.
  pose proof (shr_fexp_below (round_nearest_even (shr_m mrs1) (loc_of_shr_record mrs1))
                e1 loc_Exact ltac:(lia)) as H2.
  destruct (shr_fexp 53 1024 _ e1 loc_Exact) as [mrs2 e2]. destruct H2 as (H2m & _).
  destruct (shr_m mrs2); [reflexivity | | lia].
  destruct (e2 <=? 1024 - 53); reflexivity.
Qed.

Lemma SFdiv_core_nonneg m1 e1 m2 e2 :
  0 <= m1 -> 0 < m2 ->
  0 <= fst (fst (SFdiv_core_binary 53 1024 m1 e1 m2 e2)).
Proof.
  intros H1 H2. unfold SFdiv_core_binary. cbv zeta.
  match goal with
  | |- context [Z.div_eucl ?m ?d] =>
      assert (0 <= m) as Hm
        by (destruct (_ - _ - _); [lia | apply Z.shiftl_nonneg; lia | lia]);
      pose proof (Z.div_pos m d Hm H2) as Hd; unfold Z.div in Hd;
      destruct (Z.div_eucl m d) as [qq rr]
  end.
  exact Hd.
Qed.

Lemma int_truediv_nonneg a b f :
  0 <= a -> 0 < b -> PyFloat.int_truediv a b = Value f -> nonneg f = true.
Proof.
  intros Ha Hb. unfold PyFloat.int_truediv.
  destruct (b =? 0); [discriminate|].
  destruct (Z.ltb_spec b 0) as [|_]; [lia|].
  destruct (a =? 0); [now intros [= <-]|].
  destruct (Z.ltb_spec a 0) as [|_]; [lia|].
  pose proof (SFdiv_core_nonneg (Z.abs a) 0 (Z.abs b) 0 ltac:(lia) ltac:(lia)) as Hq.
  unfold PyFloat.prec, PyFloat.emax.
  destruct (SFdiv_core_binary 53 1024 (Z.abs a) 0 (Z.abs b) 0) as [[q e'] l].
  cbn [fst] in Hq.
  pose proof (binary_round_aux_nonneg q e' l Hq) as Hn.
  cbn [xorb].
  destruct (binary_round_aux 53 1024 false q e' l); try discriminate;
    intros [= <-]; exact Hn.
Qed.

Lemma mul_nonneg kx ky x y :
  below kx x -> below ky y -> nonneg x = true -> nonneg y = true ->
  nonneg (PyFloat.mul x y) = true.
Proof.
  intros Hx Hy Nx Ny. unfold PyFloat.mul.
  destruct x as [sx | sx | | [] mx ex], y as [sy | sy | | [] my ey];
    cbn [below] in *; try contradiction; try discriminate; try reflexivity.
  cbn [SFmul xorb]. apply binary_round_aux_nonneg. lia.
Qed.

Lemma add_nonneg kx ky x y :
  below kx x -> below ky y -> nonneg x = true -> nonneg y = true ->
  nonneg (PyFloat.add x y) = true.
Proof.
  intros Hx Hy Nx Ny. unfold PyFloat.add.
  destruct x as [sx | sx | | [] mx ex], y as [sy | sy | | [] my ey];
    cbn [below] in *; try contradiction; try discriminate; try reflexivity.
  - destruct sx, sy; reflexivity.
  - cbn [SFadd cond_Zopp]. unfold PyFloat.prec, PyFloat.emax.
    destruct (shl_align mx ex (Z.min ex ey)) as [ax ex1],
      (shl_align my ey (Z.min ex ey)) as [ay ey1]. cbn [fst].
    change (Z.pos ax + Z.pos ay) with (Z.pos (ax + ay)).
    cbn [binary_normalize]. unfold binary_round.
    match goal with
    | |- context [shl_align ?a ?b ?c] => destruct (shl_align a b c) as [mz ez]
    end.
    apply binary_round_aux_nonneg. lia.
Qed.

Lemma round_8_nonneg x f :
  nonneg x = true -> PyFloat.round x 8 = Value f -> nonneg f = true.
Proof.
  intros Nx. unfold PyFloat.round.
  destruct x as [sx | sx | | [] m e]; try discriminate Nx;
    try (intros [= <-]; exact Nx).
  set (k0 := if 0 <=? e then _ else _).
  assert (0 <= k0) as Hk0.
  { unfold k0. destruct (0 <=? e) eqn:E.
    - apply Z.leb_le in E.
      assert (0 < 2 ^ e) by (apply Z.pow_pos_nonneg; lia).
      assert (0 < 10 ^ 8) by (cbn; lia). nia.
    - apply Z.leb_gt in E.
      assert (0 < 2 ^ (- e)) as Hden by (apply Z.pow_pos_nonneg; lia).
      assert (0 < 10 ^ 8) by (cbn; lia).
      pose proof (round_half_even_range (Z.pos m * 10 ^ 8) (2 ^ (- e))
                    ltac:(nia) Hden) as [Hlo _].
      assert (0 <= Z.pos m * 10 ^ 8 / 2 ^ (- e)) by (apply Z.div_pos; nia).
      lia. }
  destruct (k0 =? 0); [now intros [= <-]|].
  apply int_truediv_nonneg; [exact Hk0 | cbn; lia].
Qed.

(** X9. For token counts from 0 to below 2^63 and a price table of
    prices that are not negative and below 2^64, [calculate_cost] does
    not raise: it returns a finite float, and the cost is not
    negative. *)
Theorem calculate_cost_returns
    (self : Settings.pricing) (model : string) (input_tokens output_tokens : Z) :
  Forall (fun p => below 64 p /\ nonneg p = true) (prices self) ->
  0 <= input_tokens < 2 ^ 63 -> 0 <= output_tokens < 2 ^ 63 ->
  exists cost,
    Settings.calculate_cost self model input_tokens output_tokens = Value cost
    /\ isfinite cost = true /\ nonneg cost = true.
Proof.
  intros Hp Hi Ho.
  assert (below 64 (PyFloat.literal 10 2) /\ nonneg (PyFloat.literal 10 2) = true)
    as Hdef by (vm_compute; repeat split; discriminate).
  destruct (get_model_costs_in _ self model Hp Hdef) as [[Bi Ni] [Bo No]].
  unfold Settings.calculate_cost.
  destruct (Settings.get_model_costs self model) as [pi po]. cbn [fst snd] in *.
  assert (forall n, 0 <= n < 2 ^ 63 ->
            exists f, PyFloat.int_truediv n 1000000 = Value f
                      /\ below 64 f /\ nonneg f = true) as Hdiv.
  { intros n Hn.
    destruct (int_truediv_below n 1000000) as (f & E & Hf); [lia | |].
    - apply Z.lt_trans with (2 ^ 63); [lia | reflexivity].
    - exists f. split; [exact E|]. split.
      + eapply below_weaken; [| exact Hf].
        assert (Zdigits2 (Z.abs n) <= 63) by (apply Zdigits2_le; lia). lia.
      + eapply int_truediv_nonneg; [| | exact E]; lia. }
  destruct (Hdiv input_tokens Hi) as (fi & -> & Bfi & Nfi).
  destruct (Hdiv output_tokens Ho) as (fo & -> & Bfo & Nfo).
  pose proof (mul_below 64 64 fi pi Bfi Bi ltac:(lia)) as Bci.
  pose proof (mul_below 64 64 fo po Bfo Bo ltac:(lia)) as Bco.
  pose proof (mul_nonneg 64 64 fi pi Bfi Bi Nfi Ni) as Nci.
  pose proof (mul_nonneg 64 64 fo po Bfo Bo Nfo No) as Nco.
  pose proof (add_below _ _ _ _ Bci Bco ltac:(lia)) as Bsum.
  pose proof (add_nonneg _ _ _ _ Bci Bco Nci Nco) as Nsum.
  destruct (round_8_below _ _ Bsum ltac:(lia)) as (cost & E & Hfin).
  exists cost. split; [exact E | split; [exact Hfin|]].
  eapply round_8_nonneg; eauto.
Qed.

Lemma calculate_cost_returns_witness :
  exists cost,
    Settings.calculate_cost Settings.default_pricing "llama3-8b-8192" 1200 300
    = Value cost
    /\ isfinite cost = true /\ nonneg cost = true.
Proof.
  apply (calculate_cost_returns Settings.default_pricing "llama3-8b-8192" 1200 300).
  - unfold prices.
    repeat (constructor;
            [vm_compute; split; [split; discriminate | reflexivity] |]).
    constructor.
  - lia.
  - lia.
Defined.

End FloatFacts.

(** ** What the Redis service writes *)

Module RedisValuesFacts.
Import RedisService RedisValues RedisFacts.

(** *** Frames *)

Lemma same_outside_refl keys c : same_outside keys c c.
Proof. intros k _. reflexivity. Qed.

Lemma same_outside_trans keys c1 c2 c3 :
  same_outside keys c1 c2 -> same_outside keys c2 c3 -> same_outside keys c1 c3.
Proof. intros H1 H2 k Hk. now rewrite (H2 k Hk), (H1 k Hk). Qed.

Lemma next_fault_data c : Redis.data (snd (Redis.next_fault c)) = Redis.data c.
Proof. unfold Redis.next_fault. now destruct (Redis.faults c). Qed.

Lemma get_same key c : Redis.data (snd (Redis.get key c)) = Redis.data c.
Proof.
  unfold Redis.get. pose proof (next_fault_data c) as H.
  destruct (Redis.next_fault c) as [f c1]. cbn [snd] in H. now destruct f.
Qed.

Lemma incr_same_outside keys key c :
  In key keys -> same_outside keys c (snd (Redis.incr key c)).
Proof.
  intros Hin k Hk. unfold Redis.incr. pose proof (next_fault_data c) as H.
  destruct (Redis.next_fault c) as [f c1]. cbn [snd] in H.
  assert (key <> k) as Hne by (intros ->; contradiction).
  destruct f; [cbn [snd]; now rewrite H|].
  destruct (Redis.data c1 !! key) as [e|]; cbn [snd Redis.data].
  - destruct (Redis.int64_of_string (Redis.e_val e)) as [z|];
      [| cbn [snd]; now rewrite H].
    destruct (z <? 2 ^ 63 - 1); cbn [snd Redis.data]; [| now rewrite H].
    now rewrite lookup_insert_ne, H.
  - now rewrite lookup_insert_ne, H.
Qed.

Lemma expire_same_outside keys key seconds c :
  In key keys -> same_outside keys c (snd (Redis.expire key seconds c)).
Proof.
  intros Hin k Hk. unfold Redis.expire. pose proof (next_fault_data c) as H.
  destruct (Redis.next_fault c) as [f c1]. cbn [snd] in H.
  assert (key <> k) as Hne by (intros ->; contradiction).
  destruct f; [cbn [snd]; now rewrite H|].
  destruct (Redis.data c1 !! key) as [e|]; [| cbn [snd]; now rewrite H].
  destruct (seconds <=? 0); cbn [snd Redis.data].
  - now rewrite lookup_delete_ne, H.
  - now rewrite lookup_insert_ne, H.
Qed.

Lemma writes_within_run {A} keys (m : co A) c :
  writes_within keys m -> same_outside keys c (snd (run m c)).
Proof.
  intros Hm. revert c.
  induction Hm as [a | e | key k _ IH | key k Hin _ IH | key s k Hin _ IH];
    intros c; cbn [run].
  - apply same_outside_refl.
  - apply same_outside_refl.
  - pose proof (get_same key c) as Hg.
    destruct (Redis.get key c) as [r c1]. cbn [snd] in Hg.
    intros k' Hk'. rewrite (IH r c1 k' Hk'). now rewrite Hg.
  - pose proof (incr_same_outside keys key c Hin) as Hi.
    destruct (Redis.incr key c) as [r c1]. cbn [snd] in Hi.
    eapply same_outside_trans; [exact Hi | apply IH].
  - pose proof (expire_same_outside keys key s c Hin) as He.
    destruct (Redis.expire key s c) as [r c1]. cbn [snd] in He.
    eapply same_outside_trans; [exact He | apply IH].
Qed.

Lemma writes_within_bind {A B} keys (m : co A) (f : A -> co B) :
  writes_within keys m -> (forall a, writes_within keys (f a)) ->
  writes_within keys (bind m f).
Proof.
  intros Hm Hf. induction Hm; cbn [bind]; try constructor; auto.
Qed.

Lemma writes_within_try_except {A} keys (body handler : co A) :
  writes_within keys body -> writes_within keys handler ->
  writes_within keys (try_except body handler).
Proof.
  intros Hb Hh. induction Hb; cbn [try_except]; try constructor; auto.
Qed.

Lemma writes_within_of_outcome {A} keys (r : outcome A) :
  writes_within keys (of_outcome r).
Proof. destruct r; constructor. Qed.

Lemma writes_within_weaken {A} keys keys' (m : co A) :
  (forall k, In k keys -> In k keys') ->
  writes_within keys m -> writes_within keys' m.
Proof. intros Hsub Hm. induction Hm; constructor; auto. Qed.

Lemma get_counter_writes connected key : writes_within [] (get_counter connected key).
Proof.
  unfold get_counter. destruct connected; cbn [negb]; [| constructor].
  apply writes_within_try_except; [| constructor].
  unfold mbind, co_bind. apply writes_within_bind.
  - constructor. intros r. apply writes_within_of_outcome.
  - intros [s|]; [| constructor].
    destruct (str_truthy s); [| constructor].
    destruct (int_of_str s); constructor.
Qed.

Lemma increment_counter_writes connected key ttl :
  writes_within [key] (increment_counter connected key ttl).
Proof.
  unfold increment_counter. destruct connected; cbn [negb]; [| constructor].
  apply writes_within_try_except; [| constructor].
  unfold mbind, co_bind. apply writes_within_bind.
  - constructor; [now left|]. intros r. apply writes_within_of_outcome.
  - intros value. destruct ttl as [t|]; [| constructor].
    destruct (t =? 0); [constructor|].
    apply writes_within_bind; [| constructor].
    constructor; [now left|]. intros r. apply writes_within_of_outcome.
Qed.

Lemma check_rate_limit_writes settings connected user_id endpoint lpm lph now :
  writes_within [minute_key user_id endpoint now; hour_key user_id endpoint now]
    (check_rate_limit settings connected user_id endpoint lpm lph now).
Proof.
  unfold check_rate_limit. destruct connected; cbn [negb]; [| constructor].
  apply writes_within_try_except; [| constructor].
  unfold mbind, co_bind.
  apply writes_within_bind.
  { eapply writes_within_weaken; [| apply get_counter_writes]. intros k []. }
  intros minute_count. apply writes_within_bind.
  { eapply writes_within_weaken; [| apply get_counter_writes]. intros k []. }
  intros hour_count. destruct (_ || _); [constructor|].
  apply writes_within_bind.
  { eapply writes_within_weaken; [| apply increment_counter_writes].
    intros k [<- | []]. now left. }
  intros _. apply writes_within_bind; [| constructor].
  eapply writes_within_weaken; [| apply increment_counter_writes].
  intros k [<- | []]. right. now left.
Qed.

Lemma get_realtime_stats_writes connected now :
  writes_within [] (get_realtime_stats connected now).
Proof.
  unfold get_realtime_stats. destruct connected; cbn [negb]; [| constructor].
  apply writes_within_try_except; [| constructor].
  unfold get_realtime_stats_body, mbind, co_bind.
  apply writes_within_bind; [apply get_counter_writes|]. intros total.
  apply writes_within_bind; [apply get_counter_writes|]. intros success.
  apply writes_within_bind; [apply get_counter_writes|]. intros errors.
  apply writes_within_bind; [| constructor].
  destruct (0 <? total); [| constructor].
  apply writes_within_bind; [apply writes_within_of_outcome|]. intros q.
  apply writes_within_bind; [apply writes_within_of_outcome | constructor].
Qed.

Lemma check_rate_limit_frame settings connected user_id endpoint lpm lph now c k :
  k <> minute_key user_id endpoint now ->
  k <> hour_key user_id endpoint now ->
  Redis.data (snd (run (check_rate_limit settings connected user_id endpoint
                          lpm lph now) c)) !! k
  = Redis.data c !! k.
Proof.
  intros Hm Hh.
  apply (writes_within_run _ _ c
           (check_rate_limit_writes settings connected user_id endpoint lpm lph now)).
  intros [E | [E | []]]; congruence.
Qed.

(** X10. The rate limiter writes its two counters and nothing else,
    whatever the store answers. *)
Theorem check_rate_limit_writes_two_keys
    (settings : Settings.t) (connected : bool) (user_id endpoint : string)
    (limit_per_minute limit_per_hour : option Z) (now : datetime)
    (c : Redis.client) (k : string) :
  k <> minute_key user_id endpoint now ->
  k <> hour_key user_id endpoint now ->
  Redis.data (snd (run (check_rate_limit settings connected user_id endpoint
                          limit_per_minute limit_per_hour now) c)) !! k
  = Redis.data c !! k.
Proof.
  apply check_rate_limit_frame.
Qed.

(** X11. Reading the statistics changes nothing in the store. *)
Theorem get_realtime_stats_reads_only
    (connected : bool) (now : datetime) (c : Redis.client) :
  Redis.data (snd (run (get_realtime_stats connected now) c)) = Redis.data c.
Proof.
  apply map_eq. intros k.
  apply (writes_within_run _ _ c (get_realtime_stats_writes connected now)).
  intros [].
Qed.

(** *** Keys of different subjects *)

Lemma no_colon_cons ch s :
  no_colon (String ch s) = negb (Ascii.eqb ch ":") && no_colon s.
Proof. reflexivity. Qed.

Lemma split_at_colon a b x y :
  no_colon a = true -> no_colon b = true ->
  a +:+ ":" +:+ x = b +:+ ":" +:+ y -> a = b /\ x = y.
Proof.
  revert b. induction a as [|ch a IH]; intros [|ch' b] Ha Hb.
  - intros E. cbn in E. injection E as E. auto.
  - intros E. cbn in E. injection E as <- _.
    rewrite no_colon_cons in Hb. discriminate Hb.
  - intros E. cbn in E. injection E as -> _.
    rewrite no_colon_cons in Ha. discriminate Ha.
  - intros E. cbn [String.append] in E. injection E as -> E.
    rewrite no_colon_cons in Ha, Hb.
    apply andb_true_iff in Ha as [_ Ha]. apply andb_true_iff in Hb as [_ Hb].
    destruct (IH b Ha Hb E) as [-> ->]. auto.
Qed.

Lemma minute_key_inj u1 e1 n1 u2 e2 n2 :
  no_colon u1 = true -> no_colon e1 = true ->
  no_colon u2 = true -> no_colon e2 = true ->
  minute_key u1 e1 n1 = minute_key u2 e2 n2 -> u1 = u2 /\ e1 = e2.
Proof.
  intros Hu1 He1 Hu2 He2 E. unfold minute_key in E.
  apply append_inj_l in E.
  apply split_at_colon in E as [-> E]; auto.
  change (":minute:" +:+ ?s) with (":" +:+ "minute:" +:+ s) in E.
  apply split_at_colon in E as [-> _]; auto.
Qed.

Lemma hour_key_inj u1 e1 n1 u2 e2 n2 :
  no_colon u1 = true -> no_colon e1 = true ->
  no_colon u2 = true -> no_colon e2 = true ->
  hour_key u1 e1 n1 = hour_key u2 e2 n2 -> u1 = u2 /\ e1 = e2.
Proof.
  intros Hu1 He1 Hu2 He2 E. unfold hour_key in E.
  apply append_inj_l in E.
  apply split_at_colon in E as [-> E]; auto.
  change (":hour:" +:+ ?s) with (":" +:+ "hour:" +:+ s) in E.
  apply split_at_colon in E as [-> _]; auto.
Qed.

Lemma minute_key_not_hour_key u1 e1 n1 u2 e2 n2 :
  no_colon u1 = true -> no_colon e1 = true ->
  no_colon u2 = true -> no_colon e2 = true ->
  minute_key u1 e1 n1 <> hour_key u2 e2 n2.
Proof.
  intros Hu1 He1 Hu2 He2 E. unfold minute_key, hour_key in E.
  apply append_inj_l in E.
  apply split_at_colon in E as [-> E]; auto.
  change (":minute:" +:+ ?s) with (":" +:+ "minute:" +:+ s) in E.
  change (":hour:" +:+ ?s) with (":" +:+ "hour:" +:+ s) in E.
  apply split_at_colon in E as [_ E]; auto. discriminate E.
Qed.

(** X12. Subjects do not share counters: when user ids and endpoints
    hold no colon, a call of the limiter for one (user, endpoint) pair
    leaves the minute and hour counters of every other pair as they
    are, at whatever times the two are looked at. *)
Theorem check_rate_limit_other_subject
    (settings : Settings.t) (connected : bool)
    (user_id endpoint other_user other_endpoint : string)
    (limit_per_minute limit_per_hour : option Z) (now other_now : datetime)
    (c : Redis.client) :
  no_colon user_id = true -> no_colon endpoint = true ->
  no_colon other_user = true -> no_colon other_endpoint = true ->
  (user_id, endpoint) <> (other_user, other_endpoint) ->
  let c' := snd (run (check_rate_limit settings connected user_id endpoint
                        limit_per_minute limit_per_hour now) c) in
  Redis.data c' !! minute_key other_user other_endpoint other_now
    = Redis.data c !! minute_key other_user other_endpoint other_now
  /\ Redis.data c' !! hour_key other_user other_endpoint other_now
    = Redis.data c !! hour_key other_user other_endpoint other_now.
Proof.
  intros Hu He Hu' He' Hne. cbv zeta.
  split; apply check_rate_limit_frame.
  - intros E. apply minute_key_inj in E as [-> ->]; auto.
  - intros E. now apply minute_key_not_hour_key in E.
  - intros E. symmetry in E. now apply minute_key_not_hour_key in E.
  - intros E. apply hour_key_inj in E as [-> ->]; auto.
Qed.

Import Scenario Examples.

Lemma check_rate_limit_writes_two_keys_witness :
  Redis.data (snd (run (check_rate_limit Settings.defaults true "user-1" "/v1/chat"
                          None None window_start) cache_only)) !! "dashboard:data"
  = Redis.data cache_only !! "dashboard:data".
Proof.
  apply (check_rate_limit_writes_two_keys Settings.defaults true "user-1" "/v1/chat"
           None None window_start cache_only "dashboard:data").
  - intros E. vm_compute in E. discriminate E.
  - intros E. vm_compute in E. discriminate E.
Defined.

Lemma check_rate_limit_other_subject_witness :
  let c := Redis.Client ∅ [] in
  let c' := snd (run (check_rate_limit Settings.defaults true "user-1" "/v1/chat"
                        None None window_start) c) in
  Redis.data c' !! minute_key "user-2" "/v1/chat" window_start
    = Redis.data c !! minute_key "user-2" "/v1/chat" window_start
  /\ Redis.data c' !! hour_key "user-2" "/v1/chat" window_start
    = Redis.data c !! hour_key "user-2" "/v1/chat" window_start.
Proof.
  cbv zeta.
  apply (check_rate_limit_other_subject Settings.defaults true
           "user-1" "/v1/chat" "user-2" "/v1/chat" None None window_start window_start
           (Redis.Client ∅ [])).
  - vm_compute; reflexivity.
  - vm_compute; reflexivity.
  - vm_compute; reflexivity.
  - vm_compute; reflexivity.
  - intros E. discriminate E.
Defined.

End RedisValuesFacts.

(** ** Request counters and values *)

Module RequestCounterFacts.
Import RedisService RedisValues RedisFacts RedisValuesFacts RequestLog FloatFacts.

Lemma get_faults key c :
  Redis.faults c = [] -> Redis.faults (snd (Redis.get key c)) = [].
Proof.
  intros Hf. unfold Redis.get. rewrite (next_fault_none c Hf). exact Hf.
Qed.

Lemma incr_faults key c :
  Redis.faults c = [] -> Redis.faults (snd (Redis.incr key c)) = [].
Proof.
  intros Hf. rewrite (incr_no_fault c key Hf).
  destruct (Redis.data c !! key) as [e|]; [| reflexivity].
  destruct (Redis.int64_of_string _) as [z|]; [| exact Hf].
  destruct (z <? 2 ^ 63 - 1); [reflexivity | exact Hf].
Qed.

Lemma expire_faults key s c :
  Redis.faults c = [] -> Redis.faults (snd (Redis.expire key s c)) = [].
Proof.
  intros Hf. unfold Redis.expire. rewrite (next_fault_none c Hf).
  destruct (Redis.data c !! key) as [e|]; [| exact Hf].
  destruct (s <=? 0); exact Hf.
Qed.

Lemma run_faults {A} (m : co A) c :
  Redis.faults c = [] -> Redis.faults (snd (run m c)) = [].
Proof.
  revert c. induction m as [a | e | key k IH | key k IH | key s k IH];
    intros c Hf; cbn [run]; auto.
  - pose proof (get_faults key c Hf) as H.
    destruct (Redis.get key c) as [r c1]. now apply IH.
  - pose proof (incr_faults key c Hf) as H.
    destruct (Redis.incr key c) as [r c1]. now apply IH.
  - pose proof (expire_faults key s c Hf) as H.
    destruct (Redis.expire key s c) as [r c1]. now apply IH.
Qed.

Lemma increment_counter_returns connected key ttl c :
  exists n c', run (increment_counter connected key ttl) c = (Value n, c').
Proof.
  unfold increment_counter. destruct connected; cbn [negb].
  - rewrite run_try_except.
    destruct (run _ c) as [[n|e] c']; cbn [run]; eauto.
  - cbn [run]. eauto.
Qed.

(** A counter that is not the one incremented keeps its value. *)
Lemma increment_counter_keeps key ttl c :
  Redis.faults c = [] ->
  exists n c',
    run (increment_counter true key ttl) c = (Value n, c')
    /\ Redis.faults c' = []
    /\ forall k, k <> key -> Redis.data c' !! k = Redis.data c !! k.
Proof.
  intros Hf.
  destruct (increment_counter_returns true key ttl c) as (n & c' & E).
  exists n, c'. split; [exact E|].
  pose proof (run_faults (increment_counter true key ttl) c Hf) as Hf'.
  pose proof (writes_within_run _ _ c (increment_counter_writes true key ttl)) as Hw.
  rewrite E in Hf', Hw. cbn [snd] in Hf', Hw. split; [exact Hf'|].
  intros k Hk. apply Hw. intros [-> | []]. congruence.
Qed.

Lemma counter_at_same c c' key n :
  Redis.data c' !! key = Redis.data c !! key ->
  Redis.counter_at c key n -> Redis.counter_at c' key n.
Proof. unfold Redis.counter_at. now intros ->. Qed.

Lemma counter_at_insert_eq data fs key n ttl :
  Redis.counter_at
    (Redis.Client (<[key := Redis.Entry (str_of_int n) ttl]> data) fs) key n.
Proof. unfold Redis.counter_at. cbn [Redis.data]. now rewrite lookup_insert_eq. Qed.

Lemma counter_at_insert_ne data fs key key' e n :
  key' <> key ->
  Redis.counter_at (Redis.Client data fs) key' n ->
  Redis.counter_at (Redis.Client (<[key := e]> data) fs) key' n.
Proof.
  intros Hne. unfold Redis.counter_at. cbn [Redis.data].
  now rewrite lookup_insert_ne by congruence.
Qed.

Lemma length_append (a b : string) :
  String.length (a +:+ b) = (String.length a + String.length b)%nat.
Proof.
  induction a as [|ch a IH]; simpl; [reflexivity | now rewrite IH].
Qed.

Lemma append_inj_r (a b z : string) : a +:+ z = b +:+ z -> a = b.
Proof.
  revert b. induction a as [|ch a IH]; intros [|ch' b] E.
  - reflexivity.
  - apply (f_equal String.length) in E. rewrite !length_append in E.
    simpl in E. lia.
  - apply (f_equal String.length) in E. rewrite !length_append in E.
    simpl in E. lia.
  - simpl in E. injection E as -> E. now rewrite (IH b E).
Qed.

Lemma append_assoc (a b c : string) : (a +:+ b) +:+ c = a +:+ b +:+ c.
Proof.
  induction a as [|ch a IH]; [reflexivity|].
  change (String ch ((a +:+ b) +:+ c) = String ch (a +:+ b +:+ c)).
  now rewrite IH.
Qed.

Lemma status_key_inj status status' today :
  "requests:status:" +:+ status +:+ ":" +:+ today
  = "requests:status:" +:+ status' +:+ ":" +:+ today ->
  status = status'.
Proof.
  intros E. apply append_inj_l in E.
  rewrite <- !append_assoc in E. apply append_inj_r in E.
  now apply append_inj_r in E.
Qed.

Ltac key_differs :=
  let E := fresh in
  unfold total_key, status_key, user_key, model_key; intros E; cbn in E; discriminate E.

Lemma total_not_status d s d' : total_key d <> status_key s d'.
Proof. key_differs. Qed.
Lemma total_not_user d u d' : total_key d <> user_key u d'.
Proof. key_differs. Qed.
Lemma total_not_model d m d' : total_key d <> model_key m d'.
Proof. key_differs. Qed.
Lemma status_not_user s d u d' : status_key s d <> user_key u d'.
Proof. key_differs. Qed.
Lemma status_not_model s d m d' : status_key s d <> model_key m d'.
Proof. key_differs. Qed.
Lemma user_not_model u d m d' : user_key u d <> model_key m d'.
Proof. key_differs. Qed.

Lemma status_key_differs status status' today :
  status <> status' -> status_key status today <> status_key status' today.
Proof. intros Hne E. apply Hne. now apply status_key_inj in E. Qed.

Lemma increment_request_counter_unfold user_id model status now c :
  run (increment_request_counter true user_id model status now) c =
  let today := strftime_day now in
  let '(_, c1) := run (increment_counter true (total_key today) (Some (86400 * 7))) c in
  let '(_, c2) := run (increment_counter true (status_key status today)
                         (Some (86400 * 7))) c1 in
  let '(_, c3) := run (increment_counter true (user_key user_id today)
                         (Some (86400 * 7))) c2 in
  let '(_, c4) := run (increment_counter true (model_key model today)
                         (Some (86400 * 7))) c3 in
  (Value tt, c4).
Proof.
  unfold increment_request_counter. cbn [negb]. cbv zeta.
  unfold mbind, co_bind. rewrite run_try_except.
  fold (total_key (strftime_day now)) (status_key status (strftime_day now))
       (user_key user_id (strftime_day now)) (model_key model (strftime_day now)).
  rewrite run_bind.
  destruct (increment_counter_returns true (total_key (strftime_day now))
              (Some (86400 * 7)) c) as (n1 & c1 & ->).
  rewrite run_bind.
  destruct (increment_counter_returns true (status_key status (strftime_day now))
              (Some (86400 * 7)) c1) as (n2 & c2 & ->).
  rewrite run_bind.
  destruct (increment_counter_returns true (user_key user_id (strftime_day now))
              (Some (86400 * 7)) c2) as (n3 & c3 & ->).
  rewrite run_bind.
  destruct (increment_counter_returns true (model_key model (strftime_day now))
              (Some (86400 * 7)) c3) as (n4 & c4 & ->).
  reflexivity.
Qed.

(** X13. With the store answering, [increment_request_counter] adds one
    to the four counters of the request (total, status, user, model)
    and gives each a time to live of seven days; no other key changes. *)
Theorem increment_request_counter_adds_one
    (user_id model status : string) (now : datetime) (c : Redis.client)
    (t s u m : Z) :
  let today := strftime_day now in
  Redis.faults c = [] ->
  Redis.counter_at c (total_key today) t ->
  Redis.counter_at c (status_key status today) s ->
  Redis.counter_at c (user_key user_id today) u ->
  Redis.counter_at c (model_key model today) m ->
  0 <= t < 2 ^ 63 - 1 -> 0 <= s < 2 ^ 63 - 1 ->
  0 <= u < 2 ^ 63 - 1 -> 0 <= m < 2 ^ 63 - 1 ->
  exists c',
    Service.call (fun connected =>
                    increment_request_counter connected user_id model status now)
      (Some c) = (Value tt, Some c')
    /\ Redis.counter_at c' (total_key today) (t + 1)
    /\ Redis.counter_at c' (status_key status today) (s + 1)
    /\ Redis.counter_at c' (user_key user_id today) (u + 1)
    /\ Redis.counter_at c' (model_key model today) (m + 1)
    /\ Forall (fun k => ttl_of c' k = Some (Some 604800))
         [total_key today; status_key status today;
          user_key user_id today; model_key model today]
    /\ forall k,
         ~ In k [total_key today; status_key status today;
                 user_key user_id today; model_key model today] ->
         Redis.data c' !! k = Redis.data c !! k.
Proof.
  intros today Hf Ht Hs Hu Hm Rt Rs Ru Rm.
  pose proof (total_not_status today status today) as D1.
  pose proof (total_not_user today user_id today) as D2.
  pose proof (total_not_model today model today) as D3.
  pose proof (status_not_user status today user_id today) as D4.
  pose proof (status_not_model status today model today) as D5.
  pose proof (user_not_model user_id today model today) as D6.
  cbn [Service.call]. rewrite increment_request_counter_unfold. fold today. cbv zeta.
  rewrite (increment_counter_adds c _ t (86400 * 7) Hf Ht) by lia.
  rewrite (increment_counter_adds _ _ s (86400 * 7)); [| reflexivity | | lia | lia].
  2: { apply (counter_at_same c); [| exact Hs]. cbn [Redis.data].
       now rewrite lookup_insert_ne. }
  rewrite (increment_counter_adds _ _ u (86400 * 7)); [| reflexivity | | lia | lia].
  2: { apply (counter_at_same c); [| exact Hu]. cbn [Redis.data].
       now rewrite !lookup_insert_ne by congruence. }
  rewrite (increment_counter_adds _ _ m (86400 * 7)); [| reflexivity | | lia | lia].
  2: { apply (counter_at_same c); [| exact Hm]. cbn [Redis.data].
       now rewrite !lookup_insert_ne by congruence. }
  eexists. split; [reflexivity|].
  unfold Redis.counter_at, ttl_of. cbn [Redis.data].
  repeat split.
  - rewrite !lookup_insert_ne by congruence. now rewrite lookup_insert_eq.
  - rewrite !lookup_insert_ne by congruence. now rewrite lookup_insert_eq.
  - rewrite !lookup_insert_ne by congruence. now rewrite lookup_insert_eq.
  - now rewrite lookup_insert_eq.
  - repeat constructor.
    + rewrite !lookup_insert_ne by congruence. now rewrite lookup_insert_eq.
    + rewrite !lookup_insert_ne by congruence. now rewrite lookup_insert_eq.
    + rewrite !lookup_insert_ne by congruence. now rewrite lookup_insert_eq.
    + now rewrite lookup_insert_eq.
  - intros k Hk. cbn [In] in Hk.
    rewrite !lookup_insert_ne by (intros E; apply Hk; auto). reflexivity.
Qed.

(** *** Counting requests, then reading the statistics *)

Lemma with_status_cons status r reqs :
  with_status status (r :: reqs) =
  (if String.eqb (r_status r) status then 1 else 0) + with_status status reqs.
Proof.
  unfold with_status. cbn [List.filter].
  destruct (String.eqb (r_status r) status); cbn [length]; lia.
Qed.

Lemma with_status_bounds status reqs :
  0 <= with_status status reqs <= Z.of_nat (length reqs).
Proof.
  unfold with_status. pose proof (List.filter_length_le
    (fun r => String.eqb (r_status r) status) reqs). lia.
Qed.

(** One request, seen from the three counters of the statistics. *)
Lemma increment_request_counter_stats user_id model status now c t s e :
  let today := strftime_day now in
  Redis.faults c = [] ->
  Redis.counter_at c (total_key today) t ->
  Redis.counter_at c (status_key "success" today) s ->
  Redis.counter_at c (status_key "error" today) e ->
  0 <= t < 2 ^ 63 - 1 -> 0 <= s < 2 ^ 63 - 1 -> 0 <= e < 2 ^ 63 - 1 ->
  exists c',
    run (increment_request_counter true user_id model status now) c = (Value tt, c')
    /\ Redis.faults c' = []
    /\ Redis.counter_at c' (total_key today) (t + 1)
    /\ Redis.counter_at c' (status_key "success" today)
         (s + if String.eqb status "success" then 1 else 0)
    /\ Redis.counter_at c' (status_key "error" today)
         (e + if String.eqb status "error" then 1 else 0).
Proof.
  intros today Hf Ht Hs He Rt Rs Re.
  rewrite increment_request_counter_unfold. fold today. cbv zeta.
  rewrite (increment_counter_adds c _ t (86400 * 7) Hf Ht) by lia.
  destruct c as [data fs]. cbn [Redis.data Redis.faults] in *. subst fs.
  set (c1 := Redis.Client _ []).
  assert (Redis.counter_at c1 (total_key today) (t + 1)) as Ht1
    by apply counter_at_insert_eq.
  assert (Redis.counter_at c1 (status_key "success" today) s) as Hs1.
  { apply counter_at_insert_ne; [| exact Hs].
    intros E; symmetry in E; revert E; apply total_not_status. }
  assert (Redis.counter_at c1 (status_key "error" today) e) as He1.
  { apply counter_at_insert_ne; [| exact He].
    intros E; symmetry in E; revert E; apply total_not_status. }
  assert (exists n2 c2,
            run (increment_counter true (status_key status today) (Some (86400 * 7))) c1
            = (Value n2, c2)
            /\ Redis.faults c2 = []
            /\ Redis.counter_at c2 (total_key today) (t + 1)
            /\ Redis.counter_at c2 (status_key "success" today)
                 (s + if String.eqb status "success" then 1 else 0)
            /\ Redis.counter_at c2 (status_key "error" today)
                 (e + if String.eqb status "error" then 1 else 0))
    as (n2 & c2 & E2 & Hf2 & Ht2 & Hs2 & He2).
  { destruct (String.eqb_spec status "success") as [-> | Hns].
    - rewrite (increment_counter_adds c1 _ s (86400 * 7) eq_refl Hs1) by lia.
      eexists. eexists. split; [reflexivity|]. split; [reflexivity|].
      change (String.eqb "success" "error") with false. rewrite Z.add_0_r.
      split; [| split].
      + apply counter_at_insert_ne; [apply total_not_status | exact Ht1].
      + apply counter_at_insert_eq.
      + apply counter_at_insert_ne; [| exact He1].
        apply status_key_differs. discriminate.
    - destruct (String.eqb_spec status "error") as [-> | Hne].
      + rewrite (increment_counter_adds c1 _ e (86400 * 7) eq_refl He1) by lia.
        eexists. eexists. split; [reflexivity|]. split; [reflexivity|].
        rewrite Z.add_0_r.
        split; [| split].
        * apply counter_at_insert_ne; [apply total_not_status | exact Ht1].
        * apply counter_at_insert_ne; [| exact Hs1].
          apply status_key_differs. discriminate.
        * apply counter_at_insert_eq.
      + destruct (increment_counter_keeps (status_key status today)
                    (Some (86400 * 7)) c1 eq_refl) as (n & c2 & E & Hf2 & Hk).
        exists n, c2. split; [exact E|]. split; [exact Hf2|].
        rewrite !Z.add_0_r.
        split; [| split]; (eapply counter_at_same; [apply Hk | eassumption]).
        * apply total_not_status.
        * apply status_key_differs. congruence.
        * apply status_key_differs. congruence. }
  rewrite E2.
  destruct (increment_counter_keeps (user_key user_id today) (Some (86400 * 7)) c2 Hf2)
    as (n3 & c3 & -> & Hf3 & Hk3).
  destruct (increment_counter_keeps (model_key model today) (Some (86400 * 7)) c3 Hf3)
    as (n4 & c4 & -> & Hf4 & Hk4).
  exists c4. split; [reflexivity|]. split; [exact Hf4|].
  repeat split;
    (eapply counter_at_same; [apply Hk4 | eapply counter_at_same; [apply Hk3 | eassumption]]).
  - apply total_not_model.
  - apply total_not_user.
  - apply status_not_model.
  - apply status_not_user.
  - apply status_not_model.
  - apply status_not_user.
Qed.

Lemma counted_calls reqs today c t s e :
  Redis.faults c = [] ->
  Forall (fun r => strftime_day (r_time r) = today) reqs ->
  Redis.counter_at c (total_key today) t ->
  Redis.counter_at c (status_key "success" today) s ->
  Redis.counter_at c (status_key "error" today) e ->
  0 <= t -> 0 <= s -> 0 <= e ->
  t + Z.of_nat (length reqs) < 2 ^ 63 ->
  s + Z.of_nat (length reqs) < 2 ^ 63 ->
  e + Z.of_nat (length reqs) < 2 ^ 63 ->
  exists c',
    Service.calls (counted reqs) (Some c) = (map (fun _ => Value tt) reqs, Some c')
    /\ Redis.faults c' = []
    /\ Redis.counter_at c' (total_key today) (t + Z.of_nat (length reqs))
    /\ Redis.counter_at c' (status_key "success" today) (s + with_status "success" reqs)
    /\ Redis.counter_at c' (status_key "error" today) (e + with_status "error" reqs).
Proof.
  revert c t s e. induction reqs as [|r reqs IH];
    intros c t s e Hf Hall Ht Hs He Rt Rs Re Bt Bs Be.
  - exists c. unfold with_status. cbn. rewrite !Z.add_0_r. auto.
  - inversion Hall as [|? ? Hday Hrest]; subst.
    cbn [length] in Bt, Bs, Be.
    destruct (increment_request_counter_stats (r_user r) (r_model r) (r_status r)
                (r_time r) c t s e Hf Ht Hs He ltac:(lia) ltac:(lia) ltac:(lia))
      as (c1 & E1 & Hf1 & Ht1 & Hs1 & He1).
    destruct (IH c1 (t + 1)
                (s + if String.eqb (r_status r) "success" then 1 else 0)
                (e + if String.eqb (r_status r) "error" then 1 else 0)
                Hf1 Hrest Ht1 Hs1 He1)
      as (c' & Ec & Hf' & Ht' & Hs' & He');
      try (destruct (String.eqb (r_status r) "success");
           destruct (String.eqb (r_status r) "error"); lia).
    exists c'. cbn [counted map Service.calls Service.call].
    rewrite E1. unfold counted in Ec. rewrite Ec.
    split; [reflexivity|]. split; [exact Hf'|].
    rewrite !with_status_cons. cbn [length].
    repeat split.
    + replace (t + Z.of_nat (S (length reqs))) with (t + 1 + Z.of_nat (length reqs))
        by lia. exact Ht'.
    + rewrite Z.add_assoc. exact Hs'.
    + rewrite Z.add_assoc. exact He'.
Qed.

(** X14. Requests counted on one day are the statistics of that day:
    after [increment_request_counter] was called for each request of a
    list, on a day that began with its counters at zero,
    [get_realtime_stats] reports the number of requests, the numbers
    with status [success] and [error], and as rate the quotient of
    success and total times 100 (the integer 0 when there was no
    request). *)
Theorem request_statistics_round_trip
    (reqs : list request) (now : datetime) (c : Redis.client) :
  let today := strftime_day now in
  let n := Z.of_nat (length reqs) in
  Redis.faults c = [] ->
  Forall (fun r => strftime_day (r_time r) = today) reqs ->
  Redis.counter_at c (total_key today) 0 ->
  Redis.counter_at c (status_key "success" today) 0 ->
  Redis.counter_at c (status_key "error" today) 0 ->
  n < 2 ^ 63 ->
  exists c' rate,
    snd (Service.calls (counted reqs) (Some c)) = Some c'
    /\ Service.call (fun connected => get_realtime_stats connected now) (Some c')
       = (Value [ ("total_requests_today", SInt n);
                  ("success_requests_today", SInt (with_status "success" reqs));
                  ("error_requests_today", SInt (with_status "error" reqs));
                  ("success_rate", rate) ],
          Some c')
    /\ (n = 0 -> rate = SInt 0)
    /\ (0 < n ->
        exists q hundred,
          PyFloat.int_truediv (with_status "success" reqs) n = Value q
          /\ PyFloat.of_int 100 = Value hundred
          /\ rate = SFloat (PyFloat.mul q hundred)).
Proof.
  intros today n Hf Hall Ht Hs He Hn.
  destruct (counted_calls reqs today c 0 0 0 Hf Hall Ht Hs He
              ltac:(lia) ltac:(lia) ltac:(lia)) as (c' & Ec & Hf' & Ht' & Hs' & He');
    try (fold n; lia).
  rewrite !Z.add_0_l in *. fold n in Ht'.
  pose proof (with_status_bounds "success" reqs) as Bs.
  assert (run (get_realtime_stats_body true now) c' =
          let total := n in
          let success := with_status "success" reqs in
          (match (if 0 <? total
                  then match PyFloat.int_truediv success total with
                       | Value q =>
                           match PyFloat.of_int 100 with
                           | Value h => Value (SFloat (PyFloat.mul q h))
                           | Raised e => Raised e
                           end
                       | Raised e => Raised e
                       end
                  else Value (SInt 0)) with
           | Value rate =>
               Value [ ("total_requests_today", SInt total);
                       ("success_requests_today", SInt success);
                       ("error_requests_today", SInt (with_status "error" reqs));
                       ("success_rate", rate) ]
           | Raised e => Raised e
           end, c')) as Ebody.
  { unfold get_realtime_stats_body, mbind, co_bind. fold today.
    change ("requests:total:" +:+ today) with (total_key today).
    change ("requests:status:success:" +:+ today) with (status_key "success" today).
    change ("requests:status:error:" +:+ today) with (status_key "error" today).
    rewrite run_bind, (get_counter_reads c' _ _ Hf' Ht').
    rewrite run_bind, (get_counter_reads c' _ _ Hf' Hs').
    rewrite run_bind, (get_counter_reads c' _ _ Hf' He').
    rewrite run_bind. cbv zeta.
    destruct (0 <? n); [| reflexivity].
    rewrite run_bind.
    destruct (PyFloat.int_truediv (with_status "success" reqs) n) as [q|e0];
      [| reflexivity].
    cbn [of_outcome run]. rewrite run_bind.
    destruct (PyFloat.of_int 100) as [h|e0]; reflexivity. }
  rewrite Ec. cbn [snd].
  assert (forall rate,
            (if 0 <? n
             then match PyFloat.int_truediv (with_status "success" reqs) n with
                  | Value q =>
                      match PyFloat.of_int 100 with
                      | Value h => Value (SFloat (PyFloat.mul q h))
                      | Raised e => Raised e
                      end
                  | Raised e => Raised e
                  end
             else Value (SInt 0)) = Value rate ->
            Service.call (fun connected => get_realtime_stats connected now) (Some c')
            = (Value [ ("total_requests_today", SInt n);
                       ("success_requests_today", SInt (with_status "success" reqs));
                       ("error_requests_today", SInt (with_status "error" reqs));
                       ("success_rate", rate) ],
               Some c')) as Hcall.
  { intros rate Er. cbn [Service.call]. cbv beta.
    unfold get_realtime_stats. cbn [negb].
    rewrite run_try_except, Ebody. cbv zeta. rewrite Er. reflexivity. }
  destruct (Z.ltb_spec 0 n) as [Hpos | Hzero].
  - destruct (int_truediv_below (with_status "success" reqs) n) as (q & Eq & _).
    + lia.
    + apply Z.lt_trans with (2 ^ 63); [lia | reflexivity].
    + assert (exists h, PyFloat.of_int 100 = Value h) as [h Eh]
        by (eexists; vm_compute; reflexivity).
      rewrite Eq, Eh in Hcall.
      exists c', (SFloat (PyFloat.mul q h)).
      split; [reflexivity | split; [now apply Hcall | split; [lia|]]].
      intros _. exists q, h. auto.
  - exists c', (SInt 0).
    split; [reflexivity | split; [now apply Hcall | split; [reflexivity | lia]]].
Qed.

(** *** Values *)

Lemma get_value_of_set (key value : string) (ttl : option Z)
    (data : gmap string Redis.entry) :
  Service.call (fun connected => get_value connected key)
    (Some (Redis.Client (<[key := Redis.Entry value ttl]> data) []))
  = (Value (Some value), Some (Redis.Client (<[key := Redis.Entry value ttl]> data) [])).
Proof.
  cbn [Service.call]. unfold get_value. cbn [negb].
  rewrite run_try_except. unfold await_get. cbn [run].
  unfold Redis.get, Redis.next_fault. cbn [Redis.faults Redis.data].
  rewrite lookup_insert_eq. reflexivity.
Qed.

Lemma setex_accepts (seconds clock : Z) :
  0 < seconds -> 0 <= clock -> seconds * 1000 + clock <= LLONG_MAX ->
  (seconds <=? 0) || (LLONG_MAX / 1000 <? seconds)
  || (LLONG_MAX <? seconds * 1000 + clock) = false.
Proof.
  intros Hpos Hclock Hend.
  assert (LLONG_MAX / 1000 = 9223372036854775) as -> by reflexivity.
  unfold LLONG_MAX in *.
  destruct (Z.leb_spec seconds 0); [lia|].
  destruct (Z.ltb_spec 9223372036854775 seconds); [lia|].
  destruct (Z.ltb_spec (2 ^ 63 - 1) (seconds * 1000 + clock)); [lia | reflexivity].
Qed.

Lemma setex_refuses (seconds clock : Z) :
  seconds < 0 \/ LLONG_MAX < seconds * 1000 + clock ->
  (seconds <=? 0) || (LLONG_MAX / 1000 <? seconds)
  || (LLONG_MAX <? seconds * 1000 + clock) = true.
Proof.
  intros [Hneg | Hend].
  - destruct (Z.leb_spec seconds 0); [reflexivity | lia].
  - destruct (Z.ltb_spec LLONG_MAX (seconds * 1000 + clock)); [| lia].
    now rewrite orb_true_r.
Qed.

Lemma set_value_positive (key value : string) (ttl clock : Z) (c : Redis.client) :
  Redis.faults c = [] ->
  0 < ttl -> 0 <= clock -> ttl * 1000 + clock <= LLONG_MAX ->
  set_value (Some c) key value (Some ttl) clock
  = (Value tt,
     Some (Redis.Client (<[key := Redis.Entry value (Some ttl)]> (Redis.data c)) [])).
Proof.
  intros Hf Hpos Hclock Hend. destruct c as [data fs]. cbn [Redis.faults] in Hf. subst fs.
  unfold set_value, set, setex, Redis.next_fault. cbn [Redis.faults Redis.data].
  destruct (Z.eqb_spec ttl 0); [lia|].
  now rewrite setex_accepts.
Qed.

Lemma set_value_refused (key value : string) (ttl clock : Z) (c : Redis.client) :
  Redis.faults c = [] ->
  ttl < 0 \/ LLONG_MAX < ttl * 1000 + clock -> ttl <> 0 ->
  set_value (Some c) key value (Some ttl) clock = (Value tt, Some c).
Proof.
  intros Hf Hout Hne. destruct c as [data fs]. cbn [Redis.faults] in Hf. subst fs.
  unfold set_value, set, setex, Redis.next_fault. cbn [Redis.faults Redis.data].
  destruct (Z.eqb_spec ttl 0); [contradiction|].
  now rewrite setex_refuses.
Qed.

(** X15. A value set is the value got: with the store answering,
    [get_value] after [set_value] returns the value, and no other key
    changes; the key never expires when [ttl] is absent or 0, and
    expires after [ttl] seconds when [ttl] is positive and ends within
    what the server counts ([ttl * 1000 + clock <= LLONG_MAX]). With a
    [ttl] that is negative, or positive and ending past that, the store
    refuses the command, the failure is only logged and nothing is
    stored. *)
Theorem set_value_then_get_value
    (key value : string) (ttl : option Z) (clock : Z) (c : Redis.client) :
  Redis.faults c = [] -> 0 <= clock ->
  exists c',
    set_value (Some c) key value ttl clock = (Value tt, Some c')
    /\ ((forall t, ttl = Some t -> 0 <= t /\ t * 1000 + clock <= LLONG_MAX) ->
        Service.call (fun connected => get_value connected key) (Some c')
        = (Value (Some value), Some c')
        /\ ttl_of c' key =
           Some (match ttl with
                 | Some t => if t =? 0 then None else Some t
                 | None => None
                 end)
        /\ forall k, k <> key -> Redis.data c' !! k = Redis.data c !! k)
    /\ ((exists t, ttl = Some t /\ t <> 0
                   /\ (t < 0 \/ LLONG_MAX < t * 1000 + clock)) -> c' = c).
Proof.
  intros Hf Hclock.
  assert (forall ttl',
            let c' := Redis.Client (<[key := Redis.Entry value ttl']> (Redis.data c)) [] in
            Service.call (fun connected => get_value connected key) (Some c')
            = (Value (Some value), Some c')
            /\ ttl_of c' key = Some ttl'
            /\ forall k, k <> key -> Redis.data c' !! k = Redis.data c !! k) as Hstored.
  { intros ttl'. cbv zeta. split; [apply get_value_of_set|].
    unfold ttl_of. cbn [Redis.data]. rewrite lookup_insert_eq. split; [reflexivity|].
    intros k Hk. now rewrite lookup_insert_ne by congruence. }
  assert (forall ttl', ttl' = None \/ ttl' = Some 0 ->
            set_value (Some c) key value ttl' clock
            = (Value tt,
               Some (Redis.Client (<[key := Redis.Entry value None]> (Redis.data c)) [])))
    as Hset.
  { intros ttl' Httl. destruct c as [data fs]. cbn [Redis.faults] in Hf. subst fs.
    unfold set_value, set, Redis.next_fault. cbn [Redis.faults Redis.data].
    destruct Httl as [-> | ->]; reflexivity. }
  destruct ttl as [t|].
  - destruct (Z.eq_dec t 0) as [-> | Hne].
    + eexists. split; [apply Hset; auto|]. split.
      * intros _. apply (Hstored None).
      * intros (t' & [= <-] & Hne & _). contradiction.
    + destruct (Z_lt_le_dec t 0) as [Hneg | Hnonneg].
      * exists c. split; [apply set_value_refused; auto|]. split.
        -- intros Hin. destruct (Hin t eq_refl). lia.
        -- reflexivity.
      * destruct (Z_lt_le_dec LLONG_MAX (t * 1000 + clock)) as [Hpast | Hin].
        -- exists c. split; [apply set_value_refused; auto|]. split.
           ++ intros Hin. destruct (Hin t eq_refl). lia.
           ++ reflexivity.
        -- eexists. split; [apply set_value_positive; auto; lia|]. split.
           ++ intros _. destruct (Z.eqb_spec t 0); [lia|]. apply (Hstored (Some t)).
           ++ intros (t' & [= <-] & _ & Hout). lia.
  - eexists. split; [apply Hset; auto|]. split.
    + intros _. apply (Hstored None).
    + intros (t' & [=] & _).
Qed.

Import Scenario Examples.

Lemma increment_request_counter_adds_one_witness :
  exists c',
    Service.call (fun connected =>
                    increment_request_counter connected "user-1" "llama3-8b-8192"
                      "success" window_start)
      (Some (Redis.Client ∅ [])) = (Value tt, Some c')
    /\ Redis.counter_at c' (total_key "20240307") 1
    /\ Redis.counter_at c' (status_key "success" "20240307") 1
    /\ Redis.counter_at c' (user_key "user-1" "20240307") 1
    /\ Redis.counter_at c' (model_key "llama3-8b-8192" "20240307") 1.
Proof.
  assert (0 <= 0 < 2 ^ 63 - 1) as H0 by lia.
  assert (forall key, Redis.counter_at (Redis.Client ∅ []) key 0) as Hzero
    by (intros key; reflexivity).
  destruct (increment_request_counter_adds_one "user-1" "llama3-8b-8192" "success"
              window_start (Redis.Client ∅ []) 0 0 0 0
              eq_refl (Hzero _) (Hzero _) (Hzero _) (Hzero _) H0 H0 H0 H0)
    as (c' & E & Ht & Hs & Hu & Hm & _).
  exists c'. split; [exact E|]. split; [exact Ht|]. split; [exact Hs|].
  split; [exact Hu | exact Hm].
Defined.

Lemma request_statistics_round_trip_witness :
  exists c' rate,
    snd (Service.calls (counted day_requests) (Some (Redis.Client ∅ []))) = Some c'
    /\ Service.call
         (fun connected => get_realtime_stats connected (Datetime 2024 3 7 23 59 59 900000))
         (Some c')
       = (Value [ ("total_requests_today", SInt 3);
                  ("success_requests_today", SInt 2);
                  ("error_requests_today", SInt 1);
                  ("success_rate", rate) ],
          Some c').
Proof.
  assert (Forall (fun r => strftime_day (r_time r)
                           = strftime_day (Datetime 2024 3 7 23 59 59 900000))
            day_requests) as Hday by (repeat constructor).
  assert (Z.of_nat (length day_requests) < 2 ^ 63) as Hn by (vm_compute; reflexivity).
  assert (forall key, Redis.counter_at (Redis.Client ∅ []) key 0) as Hzero
    by (intros key; reflexivity).
  destruct (request_statistics_round_trip day_requests
              (Datetime 2024 3 7 23 59 59 900000) (Redis.Client ∅ [])
              eq_refl Hday (Hzero _) (Hzero _) (Hzero _) Hn)
    as (c' & rate & E1 & E2 & _).
  exists c', rate. split; [exact E1 | exact E2].
Defined.

Lemma set_value_then_get_value_witness :
  exists c',
    set_value (Some (Redis.Client ∅ [])) "dashboard:data" "{}" (Some 30) server_clock
    = (Value tt, Some c')
    /\ Service.call (fun connected => get_value connected "dashboard:data") (Some c')
       = (Value (Some "{}"%string), Some c')
    /\ ttl_of c' "dashboard:data" = Some (Some 30).
Proof.
  assert (0 <= server_clock) as Hclock by (vm_compute; discriminate).
  assert (forall t, Some 30 = Some t ->
            0 <= t /\ t * 1000 + server_clock <= LLONG_MAX) as Hin
    by (intros t [= <-]; vm_compute; split; discriminate).
  destruct (set_value_then_get_value "dashboard:data" "{}" (Some 30) server_clock
              (Redis.Client ∅ []) eq_refl Hclock) as (c' & E & H & _).
  destruct (H Hin) as (Eg & Et & _).
  exists c'. split; [exact E | split; [exact Eg | exact Et]].
Defined.

End RequestCounterFacts.

(** ** The dashboard cache *)

Module DashboardCacheFacts.
Import RedisValues DashboardCache RequestCounterFacts.

(** X16. The dashboard cache gives back what was put in: when the data
    has a JSON text that is not empty and reads back as the data, the
    store answers, and [ttl] is positive and ends within what the
    server counts, [get_cached_dashboard_data] after
    [cache_dashboard_data] returns the data, kept for [ttl] seconds.
    When the data has no JSON text, or [ttl] ends past what the server
    counts, nothing is stored and nothing is raised. *)
Theorem dashboard_cache_round_trip
    (dashboard : Type) (dumps : dashboard -> outcome string)
    (loads : string -> outcome dashboard)
    (data : dashboard) (ttl clock : Z) (c : Redis.client) :
  Redis.faults c = [] -> 0 < ttl -> 0 <= clock ->
  exists c',
    cache_dashboard_data dashboard dumps (Some c) data ttl clock = (Value tt, Some c')
    /\ (forall text,
          dumps data = Value text -> str_truthy text = true ->
          loads text = Value data ->
          ttl * 1000 + clock <= LLONG_MAX ->
          get_cached_dashboard_data dashboard loads (Some c')
          = (Value (Some data), Some c')
          /\ ttl_of c' "dashboard:data" = Some (Some ttl))
    /\ (forall e, dumps data = Raised e -> c' = c)
    /\ (LLONG_MAX < ttl * 1000 + clock -> c' = c).
Proof.
  intros Hf Httl Hclock. unfold cache_dashboard_data.
  destruct (dumps data) as [text|e] eqn:Ed.
  - destruct (Z_lt_le_dec LLONG_MAX (ttl * 1000 + clock)) as [Hpast | Hin].
    + exists c. split; [apply set_value_refused; auto; lia|].
      split; [| split; [discriminate | reflexivity]].
      intros text' _ _ _ Hin. lia.
    + rewrite (set_value_positive "dashboard:data" text ttl clock c Hf Httl Hclock Hin).
      eexists. split; [reflexivity|]. split; [| split; [discriminate | lia]].
      intros text' [= <-] Ht El _.
      unfold get_cached_dashboard_data. rewrite get_value_of_set, Ht, El.
      split; [reflexivity|]. unfold ttl_of. cbn [Redis.data].
      now rewrite lookup_insert_eq.
  - exists c. split; [reflexivity|]. split; [discriminate | split; reflexivity].
Qed.

Import Examples.

Lemma dashboard_cache_round_trip_witness :
  exists c',
    cache_dashboard_data bool flag_dumps (Some (Redis.Client ∅ [])) true 30 server_clock
    = (Value tt, Some c')
    /\ get_cached_dashboard_data bool flag_loads (Some c') = (Value (Some true), Some c')
    /\ ttl_of c' "dashboard:data" = Some (Some 30).
Proof.
  assert (0 <= server_clock) as Hclock by (vm_compute; discriminate).
  assert (30 * 1000 + server_clock <= LLONG_MAX) as Hin by (vm_compute; discriminate).
  destruct (dashboard_cache_round_trip bool flag_dumps flag_loads true 30 server_clock
              (Redis.Client ∅ []) eq_refl eq_refl Hclock) as (c' & E & H & _).
  exists c'. split; [exact E|].
  exact (H "true"%string eq_refl eq_refl eq_refl Hin).
Defined.

End DashboardCacheFacts.

(** ** The CORS origins *)

Module ConfigFacts.
Import PyStr Cors.

Lemma split_nonempty sep s : split sep s <> [].
Proof.
  destruct s as [|c r]; cbn [split]; [discriminate|].
  destruct (Ascii.eqb c sep); [discriminate|].
  destruct (split sep r); discriminate.
Qed.

Lemma split_length sep s : length (split sep s) = S (count_char sep s).
Proof.
  unfold count_char. induction s as [|c r IH]; [reflexivity|].
  cbn [split list_ascii_of_string List.filter].
  rewrite (Ascii.eqb_sym sep c).
  destruct (Ascii.eqb c sep); cbn [length].
  - now rewrite IH.
  - destruct (split sep r) eqn:E; [now apply split_nonempty in E|].
    cbn [length] in *. exact IH.
Qed.

Lemma has_char_cons c ch s :
  has_char c (String ch s) = Ascii.eqb c ch || has_char c s.
Proof. reflexivity. Qed.

Lemma split_no_sep sep s : Forall (fun f => has_char sep f = false) (split sep s).
Proof.
  induction s as [|c r IH]; cbn [split]; [repeat constructor|].
  destruct (Ascii.eqb c sep) eqn:E.
  - constructor; [reflexivity | exact IH].
  - destruct (split sep r) as [|f fs]; [repeat constructor|].
    + rewrite has_char_cons, Ascii.eqb_sym, E. reflexivity.
    + inversion IH as [|? ? Hf Hfs]; subst. constructor; [| exact Hfs].
      rewrite has_char_cons, Ascii.eqb_sym, E. exact Hf.
Qed.

Lemma lstrip_has_char c s : has_char c (lstrip s) = true -> has_char c s = true.
Proof.
  induction s as [|ch r IH]; cbn [lstrip]; [auto|].
  destruct (isspace ch); [| auto].
  intros H. rewrite has_char_cons, (IH H). apply orb_true_r.
Qed.

Lemma rstrip_has_char c s : has_char c (rstrip s) = true -> has_char c s = true.
Proof.
  induction s as [|ch r IH]; cbn [rstrip]; [auto|].
  destruct (rstrip r) as [|ch' r'] eqn:E.
  - destruct (isspace ch); [discriminate|].
    rewrite !has_char_cons. intros H. apply orb_true_iff in H as [H | H].
    + now rewrite H.
    + discriminate.
  - rewrite !has_char_cons. intros H. apply orb_true_iff in H as [H | H].
    + now rewrite H.
    + rewrite IH by exact H. apply orb_true_r.
Qed.

Lemma strip_no_char c s : has_char c s = false -> has_char c (strip s) = false.
Proof.
  intros H. destruct (has_char c (strip s)) eqn:E; [| reflexivity].
  unfold strip in E. apply rstrip_has_char, lstrip_has_char in E. congruence.
Qed.

(** X17. For an ASCII setting, [get_cors_origins] returns one origin for
    each comma-separated field: one more than there are commas, so
    never an empty list (an empty setting gives the one origin [""]),
    and no origin holds a comma. *)
Theorem get_cors_origins_fields (origins : string) :
  isascii origins = true ->
  length (get_cors_origins origins) = S (count_char "," origins)
  /\ Forall (fun o => has_char "," o = false) (get_cors_origins origins)
  /\ get_cors_origins "" = [""%string].
Proof.
  intros _. unfold get_cors_origins. split; [| split].
  - now rewrite length_map, split_length.
  - apply Forall_map. eapply Forall_impl; [apply split_no_sep|].
    intros f Hf. now apply strip_no_char.
  - reflexivity.
Qed.

Lemma get_cors_origins_fields_witness :
  length (get_cors_origins CORS_ORIGINS) = 2%nat
  /\ Forall (fun o => has_char "," o = false) (get_cors_origins CORS_ORIGINS)
  /\ get_cors_origins "" = [""%string].
Proof.
  assert (isascii CORS_ORIGINS = true) as Hascii by (vm_compute; reflexivity).
  exact (get_cors_origins_fields CORS_ORIGINS Hascii).
Defined.

(** *** Joining, then parsing *)

Lemma split_join_cons sep f fs :
  has_char sep f = false ->
  split sep (f +:+ String sep (String.concat (String sep "") fs))
  = f :: split sep (String.concat (String sep "") fs).
Proof.
  induction f as [|c f IH]; intros Hf.
  - change ("" +:+ ?x) with x. cbn [split]. now rewrite Ascii.eqb_refl.
  - rewrite has_char_cons in Hf. apply orb_false_iff in Hf as [Hc Hf].
    rewrite Ascii.eqb_sym in Hc.
    change (String c f +:+ ?x) with (String c (f +:+ x)).
    cbn [split]. rewrite Hc, (IH Hf). reflexivity.
Qed.

Lemma split_single sep f : has_char sep f = false -> split sep f = [f].
Proof.
  induction f as [|c f IH]; intros Hf; [reflexivity|].
  rewrite has_char_cons in Hf. apply orb_false_iff in Hf as [Hc Hf].
  rewrite Ascii.eqb_sym in Hc. cbn [split]. now rewrite Hc, (IH Hf).
Qed.

Lemma split_join sep fs :
  fs <> [] -> Forall (fun f => has_char sep f = false) fs ->
  split sep (String.concat (String sep "") fs) = fs.
Proof.
  induction fs as [|f fs IH]; intros Hne Hall; [congruence|].
  inversion Hall as [|? ? Hf Hfs]; subst.
  destruct fs as [|g fs].
  - cbn [String.concat]. now apply split_single.
  - change (String.concat (String sep "") (f :: g :: fs))
      with (f +:+ String sep "" +:+ String.concat (String sep "") (g :: fs)).
    change (String sep "" +:+ ?x) with (String sep x).
    rewrite split_join_cons by exact Hf. f_equal. apply IH; [discriminate | exact Hfs].
Qed.

(** X18. Parsing what was joined gives the list back: for a list that
    is not empty, of ASCII origins without commas and without white
    space at either end, [get_cors_origins (",".join(origins))] is
    [origins]. *)
Theorem get_cors_origins_join (origins : list string) :
  origins <> [] ->
  Forall (fun o => isascii o = true /\ has_char "," o = false /\ strip o = o) origins ->
  get_cors_origins (join "," origins) = origins.
Proof.
  intros Hne Hall. unfold get_cors_origins, join.
  rewrite split_join; [| exact Hne | eapply Forall_impl; [exact Hall|]; cbn; tauto].
  induction Hall as [|o os (_ & _ & Ho) _ IH]; [reflexivity|].
  cbn [map]. rewrite Ho. f_equal.
  destruct os; [reflexivity | apply IH; discriminate].
Qed.

Lemma get_cors_origins_join_witness :
  get_cors_origins CORS_ORIGINS = ["http://localhost:5173"; "http://localhost:3000"]%string.
Proof.
  apply (get_cors_origins_join ["http://localhost:5173"; "http://localhost:3000"]%string).
  - discriminate.
  - repeat constructor.
Defined.

End ConfigFacts.

(** ** The price table *)

Module ModelCostFacts.

Lemma lower_app a b : lower (a +:+ b) = lower a +:+ lower b.
Proof.
  induction a as [|c a IH]; [reflexivity|].
  change (String c a +:+ b) with (String c (a +:+ b)).
  cbn [lower]. rewrite IH. reflexivity.
Qed.

Lemma prefix_app n m b : String.prefix n m = true -> String.prefix n (m +:+ b) = true.
Proof.
  revert m. induction n as [|c n IH]; intros m.
  { intros _. now destruct (m +:+ b). }
  destruct m as [|c' m]; [discriminate|].
  change (String c' m +:+ b) with (String c' (m +:+ b)).
  cbn [String.prefix]. destruct (ascii_dec c c'); [apply IH | discriminate].
Qed.

Lemma contains_unfold n h :
  contains n h =
  String.prefix n h || match h with EmptyString => false | String _ r => contains n r end.
Proof. destruct h; reflexivity. Qed.

Lemma contains_app_r n m b : contains n m = true -> contains n (m +:+ b) = true.
Proof.
  induction m as [|c m IH]; rewrite contains_unfold; intros H.
  - rewrite orb_false_r in H. rewrite contains_unfold.
    now rewrite (prefix_app n "" b H).
  - apply orb_true_iff in H as [H | H].
    + rewrite contains_unfold. now rewrite (prefix_app n (String c m) b H).
    + change (String c m +:+ b) with (String c (m +:+ b)).
      rewrite contains_unfold, (IH H). apply orb_true_r.
Qed.

Lemma contains_app_l n a m : contains n m = true -> contains n (a +:+ m) = true.
Proof.
  intros H. induction a as [|c a IH]; [exact H|].
  change (String c a +:+ m) with (String c (a +:+ m)).
  rewrite contains_unfold, IH. apply orb_true_r.
Qed.

Lemma contains_inside n a m b :
  contains n (lower m) = true -> contains n (lower (a +:+ m +:+ b)) = true.
Proof.
  intros H. rewrite !lower_app. now apply contains_app_l, contains_app_r.
Qed.

(** X19. A model name that mentions [llama-3.1-8b] or [llama3-8b], in
    any letter case, with any text before and after it, is priced as
    the 8B model, whatever else the name mentions. *)
Theorem get_model_costs_llama_8b
    (self : Settings.pricing) (before model after : string) :
  contains "llama-3.1-8b" (lower model) || contains "llama3-8b" (lower model) = true ->
  Settings.get_model_costs self (before +:+ model +:+ after)
  = (Settings.GROQ_LLAMA3_8B_INPUT_COST self, Settings.GROQ_LLAMA3_8B_OUTPUT_COST self).
Proof.
  intros H. unfold Settings.get_model_costs.
  apply orb_true_iff in H as [H | H];
    rewrite (contains_inside _ before model after H); [| rewrite orb_true_r];
    reflexivity.
Qed.

Lemma get_model_costs_llama_8b_witness :
  Settings.get_model_costs Settings.default_pricing "groq/LLaMA3-8B-8192 (mixtral fallback)"
  = (PyFloat.literal 5 2, PyFloat.literal 8 2).
Proof.
  apply (get_model_costs_llama_8b Settings.default_pricing
           "groq/" "LLaMA3-8B-8192" " (mixtral fallback)").
  vm_compute. reflexivity.
Defined.

End ModelCostFacts.

(** ** The rate limit middleware *)

Module MiddlewareFacts.
Import RedisService Middleware RedisFacts.

Lemma dispatch_exempt settings connected call_next request now c :
  In (path request) ["/health"; "/docs"; "/openapi.json"]%string ->
  run (dispatch settings connected call_next request now) c = (call_next request, c).
Proof.
  intros Hin. unfold dispatch.
  assert (existsb (String.eqb (path request)) ["/health"; "/docs"; "/openapi.json"]
          = true) as ->.
  { apply existsb_exists. exists (path request). split; [exact Hin|].
    apply String.eqb_refl. }
  now destruct (call_next request).
Qed.

Lemma not_exempt request :
  ~ In (path request) ["/health"; "/docs"; "/openapi.json"]%string ->
  existsb (String.eqb (path request)) ["/health"; "/docs"; "/openapi.json"] = false.
Proof.
  intros Hout. apply not_true_is_false. intros H.
  apply existsb_exists in H as (x & Hx & E).
  apply String.eqb_eq in E. subst x. contradiction.
Qed.

Lemma dispatch_limited settings connected call_next request now c :
  ~ In (path request) ["/health"; "/docs"; "/openapi.json"]%string ->
  run (dispatch settings connected call_next request now) c =
  let '(reply, c') :=
    run (check_rate_limit settings connected
           (headers_get "X-User-ID" "anonymous" (req_headers request))
           (path request) None None now) c in
  (answer call_next request reply, c').
Proof.
  intros Hout. unfold dispatch. rewrite (not_exempt request Hout).
  unfold mbind, co_bind. rewrite run_bind.
  destruct (run (check_rate_limit _ _ _ _ _ _ _) c) as [[[[allowed m] h]|e] c'];
    [| reflexivity].
  destruct allowed; cbn [negb answer].
  - rewrite run_bind. now destruct (call_next request).
  - reflexivity.
Qed.

Lemma dispatch_unconnected settings call_next request now :
  ~ In (path request) ["/health"; "/docs"; "/openapi.json"]%string ->
  Service.run_unconnected (dispatch settings false call_next request now)
  = answer call_next request
      (Service.run_unconnected
         (check_rate_limit settings false
            (headers_get "X-User-ID" "anonymous" (req_headers request))
            (path request) None None now)).
Proof.
  intros Hout. unfold dispatch, check_rate_limit. rewrite (not_exempt request Hout).
  cbn [negb mbind co_bind bind Service.run_unconnected answer].
  now destruct (call_next request).
Qed.

Lemma dispatches_calls settings call_next request nows redis :
  ~ In (path request) ["/health"; "/docs"; "/openapi.json"]%string ->
  Service.calls (dispatches settings call_next request nows) redis =
  let '(replies, redis') :=
    Service.calls
      (Service.limiter_calls settings
         (headers_get "X-User-ID" "anonymous" (req_headers request))
         (path request) None None nows) redis in
  (map (answer call_next request) replies, redis').
Proof.
  intros Hout. revert redis.
  induction nows as [|now nows IH]; intros redis; [reflexivity|].
  unfold dispatches, Service.limiter_calls in *. cbn [map Service.calls].
  destruct redis as [c|]; cbn [Service.call].
  - rewrite dispatch_limited by exact Hout.
    destruct (run (check_rate_limit _ _ _ _ _ _ _) c) as [reply c'].
    rewrite IH.
    destruct (Service.calls _ (Some c')) as [replies redis']. reflexivity.
  - rewrite IH, dispatch_unconnected by exact Hout.
    destruct (Service.calls _ None) as [replies redis']. reflexivity.
Qed.

(** X20. The same request sent again and again inside one minute, to a
    path that is not exempt, with the store answering and the counters
    of the subject at [m0] and [h0]: as long as both ceilings leave
    room, that is for the first [max 0 (min (N - m0) (H - h0))]
    requests, the request reaches the application and its response (or
    its exception) comes back with the rate limit headers for the
    counts [m0 + k] and [h0 + k]; from the next one on the application
    is not called and the answer is status 429 with the counts the
    counters then stand at. The headers always state the limits 60 and
    1000 and what remains of those. *)
Theorem dispatch_sequential
    (settings : Settings.t) (call_next : Request -> outcome Response)
    (request : Request) (t0 : datetime) (nows : list datetime)
    (c : Redis.client) (m0 h0 : Z) :
  let N := Settings.RATE_LIMIT_PER_MINUTE settings in
  let H := Settings.RATE_LIMIT_PER_HOUR settings in
  let user_id := headers_get "X-User-ID" "anonymous" (req_headers request) in
  let left := Service.room N H m0 h0 in
  ~ In (path request) ["/health"; "/docs"; "/openapi.json"]%string ->
  Forall (same_minute t0) nows ->
  Redis.faults c = [] ->
  Redis.counter_at c (minute_key user_id (path request) t0) m0 ->
  Redis.counter_at c (hour_key user_id (path request) t0) h0 ->
  0 <= m0 -> 0 <= h0 -> N < 2 ^ 63 -> H < 2 ^ 63 ->
  fst (Service.calls (dispatches settings call_next request nows) (Some c))
  = map (fun k : nat =>
           if Z.of_nat k <=? left then
             match call_next request with
             | Value response =>
                 Value (with_rate_limit_headers (m0 + Z.of_nat k) (h0 + Z.of_nat k)
                          response)
             | Raised e => Raised e
             end
           else Value (rate_limit_exceeded (m0 + left) (h0 + left)))
        (seq 1 (length nows)).
Proof.
  intros N H user_id left Hout Hall Hf Hm Hh Hm0 Hh0 HN HH.
  rewrite dispatches_calls by exact Hout. fold user_id.
  assert (int_or None (Settings.RATE_LIMIT_PER_MINUTE settings) = N) as EN by reflexivity.
  assert (int_or None (Settings.RATE_LIMIT_PER_HOUR settings) = H) as EH by reflexivity.
  destruct (calls_from_counters settings user_id (path request) None None t0
              ltac:(rewrite EN; exact HN) ltac:(rewrite EH; exact HH)
              nows c m0 h0 Hall Hf Hm Hh Hm0 Hh0)
    as (c' & Ec & _).
  rewrite Ec. cbn [fst]. rewrite EN, EH, map_map. fold left.
  apply map_ext. intros k.
  unfold Service.reply_from, answer. fold left.
  destruct (Z.leb_spec (Z.of_nat k) left).
  - rewrite Z.min_l by lia. reflexivity.
  - rewrite Z.min_r by lia. reflexivity.
Qed.

(** X21. The middleware raises only what the application raised: a store
    that fails or is absent never turns a request into an exception. *)
Theorem dispatch_raises_with_application
    (settings : Settings.t) (connected : bool)
    (call_next : Request -> outcome Response) (request : Request)
    (now : datetime) (c : Redis.client) (e : exn) :
  fst (run (dispatch settings connected call_next request now) c) = Raised e ->
  call_next request = Raised e.
Proof.
  unfold dispatch.
  destruct (existsb (String.eqb (path request)) ["/health"; "/docs"; "/openapi.json"]).
  - destruct (call_next request); cbn; congruence.
  - unfold mbind, co_bind. rewrite run_bind.
    destruct (check_rate_limit_never_raises settings connected
                (headers_get "X-User-ID" "anonymous" (req_headers request))
                (path request) None None now c) as ([[allowed m] h] & c' & ->).
    destruct allowed; cbn [negb]; [| cbn; discriminate].
    rewrite run_bind. destruct (call_next request); cbn; congruence.
Qed.

Import Scenario Examples.

Lemma dispatch_sequential_witness :
  fst (Service.calls (dispatches Settings.defaults ok_application chat_request window_times)
         (Some hour_nearly_spent))
  = [ Value (with_rate_limit_headers 1 1000 ok_response);
      Value (rate_limit_exceeded 1 1000);
      Value (rate_limit_exceeded 1 1000);
      Value (rate_limit_exceeded 1 1000);
      Value (rate_limit_exceeded 1 1000) ].
Proof.
  assert (~ In (path chat_request) ["/health"; "/docs"; "/openapi.json"]%string) as Hout
    by (intros [E | [E | [E | []]]]; discriminate E).
  assert (Forall (same_minute window_start) window_times) as Hall
    by (repeat constructor).
  assert (Redis.counter_at hour_nearly_spent
            (minute_key (headers_get "X-User-ID" "anonymous" (req_headers chat_request))
               (path chat_request) window_start) 0) as Hm
    by (vm_compute; reflexivity).
  assert (Redis.counter_at hour_nearly_spent
            (hour_key (headers_get "X-User-ID" "anonymous" (req_headers chat_request))
               (path chat_request) window_start) 999) as Hh
    by (vm_compute; reflexivity).
  assert (0 <= 0) as H0 by lia.
  assert (0 <= 999) as H999 by lia.
  assert (Settings.RATE_LIMIT_PER_MINUTE Settings.defaults < 2 ^ 63) as HN
    by (vm_compute; reflexivity).
  assert (Settings.RATE_LIMIT_PER_HOUR Settings.defaults < 2 ^ 63) as HH
    by (vm_compute; reflexivity).
  exact (dispatch_sequential Settings.defaults ok_application chat_request
           window_start window_times hour_nearly_spent 0 999
           Hout Hall eq_refl Hm Hh H0 H999 HN HH).
Defined.

Lemma dispatch_raises_with_application_witness :
  fst (run (dispatch Settings.defaults true failing_application chat_request window_start)
         (Redis.Client ∅ [true]))
  = Raised ValueError
  /\ failing_application chat_request = Raised ValueError.
Proof.
  assert (fst (run (dispatch Settings.defaults true failing_application chat_request
                      window_start) (Redis.Client ∅ [true]))
          = Raised ValueError) as Hraised by (vm_compute; reflexivity).
  split; [exact Hraised|].
  exact (dispatch_raises_with_application Settings.defaults true failing_application
           chat_request window_start (Redis.Client ∅ [true]) ValueError Hraised).
Defined.

End MiddlewareFacts.

(** ** The query of the recent requests *)

Module MetricsRouterFacts.
Import MetricsRouter.

(** X22. The query of [get_recent_requests] never holds a value of the
    request: its text depends only on which filters are given; the
    values go to the parameters, in the order status, model, limit, and
    the placeholders of the text are [$1 ... $n] for the [n] parameters,
    in this order. An empty string as filter counts as no filter. *)
Theorem recent_requests_query_parameters
    (limit limit' : Z) (status model status' model' : option string) :
  let '(query, params) := recent_requests_query limit status model in
  params =
    (if given status then [PStr (default "" status)] else []) ++
    (if given model then [PStr (default "" model)] else []) ++ [PInt limit]
  /\ placeholders query = map Z.of_nat (seq 1 (length params))
  /\ (given status = given status' -> given model = given model' ->
      fst (recent_requests_query limit' status' model') = query).
Proof.
  destruct status as [[|c s]|], model as [[|d m]|];
    (split; [reflexivity | split; [vm_compute; reflexivity|]]);
    destruct status' as [[|c' s']|], model' as [[|d' m']|];
    cbn [given str_truthy]; intros E1 E2; try discriminate; reflexivity.
Qed.

End MetricsRouterFacts.
